(** * Quiz-chain solver (main.py): a shallow embedding and its properties

    The program fetches a quiz page, finds the submission endpoint
    ([analyze_quiz_page]), resolves an answer ([solve_question]), posts it
    ([submit_answer]) and follows the next-hop link ([solve_quiz_chain]).

    Modelling choices, fixed here once:
    - text is a [string] of 8-bit characters read as the code points
      below 256 (Latin-1); the character classes and the letter cases of
      [re], [str] and [int] are those of Python on these code points; text
      with code points from 256 on is outside the model;
    - Python integers are [Z], and [int] reads a text of at most 4300
      digits, the default limit of the interpreter; a float is a binary64
      [float], and [float(s)] is an oracle;
    - a table has [int64], [uint64] and [float64] columns and columns that
      are not of a number dtype; integer columns add with wrap-around, and
      the sum of a float column ([numpy]'s pairwise sum) is an oracle;
    - the browser, the language model, the CSV loader, the HTTP client and
      [urljoin] are oracles of the environment [Env]; every call is recorded
      in a trace of events and an oracle answers from the trace so far, so
      the environment may answer the same request differently each time;
      [urljoin] is a function of its arguments that may raise; making the
      model client ([genai.GenerativeModel]) is no call of the environment
      and does not raise, only [generate_content] can;
    - an exception is [Raise msg]; state and exceptions are threaded by the
      monad [M];
    - of the lines printed, those of the chain driver are events of the
      trace; the progress lines of the other functions are left out;
    - the endpoint POST /solve is a function of the configured secret and
      of the request, giving the reply and the background tasks added; the
      framework that validates the request and runs the tasks is not
      modelled. *)

From Stdlib Require Import ZArith NArith List String Ascii Bool Lia.
From Stdlib Require Import Floats.PrimFloat Floats.SpecFloat Floats.FloatOps DecimalString.
Set Warnings "-register-all".
Import ListNotations.
Local Open Scope string_scope.

(* ===================================================================== *)
(** ** Python [str] operations used by the program *)
(* ===================================================================== *)

Module PyStr.

Definition code (c : ascii) : N := N_of_ascii c.

Definition between (lo hi : N) (c : ascii) : bool :=
  (N.leb lo (code c)) && (N.leb (code c) hi).

Definition is_code (n : N) (c : ascii) : bool := N.eqb (code c) n.

(** [str.isspace], [\s] and what [str.strip()] takes off, on code points
    below 256: the ASCII whitespace 9 to 13 and 32, the separators 28 to
    31, the next-line control 133 and the no-break space 160. *)
Definition isspace (c : ascii) : bool :=
  between 9 13 c || between 28 32 c || is_code 133 c || is_code 160 c.

(** [\d]: below 256 the decimal digits are 0 to 9. *)
Definition isdigit (c : ascii) : bool := between 48 57 c.

(** The letters that [str.lower] changes: A to Z and the capital letters
    of Latin-1, 192 to 222 but for the multiplication sign 215. *)
Definition isupper (c : ascii) : bool :=
  between 65 90 c || between 192 214 c || between 216 222 c.

(** [\w]: what [str.isalnum] accepts, or the underscore.  Below 256:
    the ASCII letters and digits, the letters of Latin-1 (170, 181, 186,
    192 to 214, 216 to 246, 248 to 255), the superscript digits (178, 179,
    185) and the fractions (188 to 190). *)
Definition isword (c : ascii) : bool :=
  isdigit c || between 65 90 c || between 97 122 c || Ascii.eqb c "_" ||
  is_code 170 c || between 178 179 c || is_code 181 c || between 185 186 c ||
  between 188 190 c || between 192 214 c || between 216 246 c || between 248 255 c.

(** The lower-case letter of a capital is 32 code points above it. *)
Definition lower_char (c : ascii) : ascii :=
  if isupper c then ascii_of_N (code c + 32) else c.

(** [s.lower()] *)
Fixpoint lower (s : string) : string :=
  match s with
  | EmptyString => EmptyString
  | String c s' => String (lower_char c) (lower s')
  end.

(** [s[:n]] *)
Fixpoint take (n : nat) (s : string) : string :=
  match n, s with
  | O, _ => EmptyString
  | S _, EmptyString => EmptyString
  | S n', String c s' => String c (take n' s')
  end.

(** [s.startswith(p)] *)
Fixpoint startswith (p s : string) : bool :=
  match p, s with
  | EmptyString, _ => true
  | String _ _, EmptyString => false
  | String a p', String b s' => Ascii.eqb a b && startswith p' s'
  end.

(** [needle in s] *)
Fixpoint contains (needle s : string) : bool :=
  startswith needle s ||
  match s with
  | EmptyString => false
  | String _ s' => contains needle s'
  end.

Fixpoint lstrip_by (p : ascii -> bool) (s : string) : string :=
  match s with
  | EmptyString => EmptyString
  | String c s' => if p c then lstrip_by p s' else s
  end.

Fixpoint rstrip_by (p : ascii -> bool) (s : string) : string :=
  match s with
  | EmptyString => EmptyString
  | String c s' =>
      match rstrip_by p s' with
      | EmptyString => if p c then EmptyString else String c EmptyString
      | r => String c r
      end
  end.

Definition strip_by (p : ascii -> bool) (s : string) : string :=
  rstrip_by p (lstrip_by p s).

(** [s.strip()] *)
Definition strip (s : string) : string := strip_by isspace s.

(** [s.strip(chars)] *)
Definition strip_chars (chars : string) (s : string) : string :=
  strip_by (fun c => contains (String c EmptyString) chars) s.

(** [s.replace(c, '')] for a one-character [c]. *)
Fixpoint remove_char (x : ascii) (s : string) : string :=
  match s with
  | EmptyString => EmptyString
  | String c s' =>
      if Ascii.eqb c x then remove_char x s' else String c (remove_char x s')
  end.

(** Truth value of a string: [bool(s)]. *)
Definition nonempty (s : string) : bool :=
  match s with EmptyString => false | _ => true end.

Fixpoint all_chars (p : ascii -> bool) (s : string) : bool :=
  match s with
  | EmptyString => true
  | String c s' => p c && all_chars p s'
  end.

(** Value of a run of decimal digits, most significant first. *)
Fixpoint digits_value (acc : Z) (s : string) : Z :=
  match s with
  | EmptyString => acc
  | String c s' => digits_value (10 * acc + (Z.of_N (code c) - 48)) s'
  end.

(** Digits with single underscores between them, as [int] accepts:
    [after_digit] tells whether the previous character was a digit. *)
Fixpoint int_body (after_digit : bool) (acc : Z) (s : string) : option Z :=
  match s with
  | EmptyString => if after_digit then Some acc else None
  | String c s' =>
      if isdigit c then int_body true (10 * acc + (Z.of_N (code c) - 48)) s'
      else if Ascii.eqb c "_" && after_digit then
             match s' with
             | String d _ => if isdigit d then int_body false acc s' else None
             | EmptyString => None
             end
           else None
  end.

(** Whitespace skipped by [int(str)]: the C locale's, and the
    whitespace above 127 (133 and 160), which [int] reads as a space; the
    separators 28 to 31 are not skipped. *)
Definition int_space (c : ascii) : bool :=
  between 9 13 c || Ascii.eqb c " " || is_code 133 c || is_code 160 c.

(** The number of characters of [s] that satisfy [p]. *)
Fixpoint count_chars (p : ascii -> bool) (s : string) : nat :=
  match s with
  | EmptyString => O
  | String c s' => if p c then S (count_chars p s') else count_chars p s'
  end.

(** [sys.get_int_max_str_digits()], by default. *)
Definition int_max_str_digits : nat := 4300.

(** [int(s)] in base 10; [None] is [ValueError], also raised for a text
    of more digits than the interpreter's limit. *)
Definition py_int (s : string) : option Z :=
  let text := strip_by int_space s in
  if Nat.leb (count_chars isdigit text) int_max_str_digits then
    match text with
    | String "+" body => int_body false 0 body
    | String "-" body => option_map Z.opp (int_body false 0 body)
    | body => int_body false 0 body
    end
  else None.

End PyStr.

(* ===================================================================== *)
(** ** The fragment of [re] the program's patterns use *)
(* ===================================================================== *)

Module Re.
Import PyStr.

(** Members of a bracketed class. *)
Inductive cset_item :=
| One (c : ascii)     (* a literal character *)
| Space               (* \s *)
| Digit.              (* \d *)

Record cset := { negated : bool; items : list cset_item }.

Definition cls (l : list cset_item) : cset := {| negated := false; items := l |}.
Definition ncls (l : list cset_item) : cset := {| negated := true; items := l |}.

Inductive regex :=
| Lit (s : string)              (* literal characters *)
| Set1 (cs : cset)              (* one character of a class *)
| Many (min : nat) (cs : cset)  (* class{min,}, greedy: + is 1, * is 0 *)
| Seq (r1 r2 : regex)
| Opt (r : regex)               (* r?, greedy *)
| Group (r : regex)             (* capturing group 1 *)
| WordB.                        (* \b *)

(** A position in the subject: the character before it (for [\b]), the
    text after it, and what group 1 holds. *)
Record cursor := { prev : option ascii; rest : string; group1 : option string }.

Definition char_eq (ic : bool) (x a : ascii) : bool :=
  if ic then Ascii.eqb (lower_char x) (lower_char a) else Ascii.eqb x a.

Definition item_mem (ic : bool) (a : ascii) (it : cset_item) : bool :=
  match it with
  | One c => char_eq ic c a
  | Space => isspace a
  | Digit => isdigit a
  end.

Definition cs_mem (ic : bool) (cs : cset) (a : ascii) : bool :=
  xorb (negated cs) (existsb (item_mem ic a) (items cs)).

(** Consume one character satisfying [p]. *)
Definition eat (p : ascii -> bool) (c : cursor) : option cursor :=
  match rest c with
  | String a s' =>
      if p a then Some {| prev := Some a; rest := s'; group1 := group1 c |}
      else None
  | EmptyString => None
  end.

(** Consume exactly [n] characters satisfying [p]. *)
Fixpoint eat_n (p : ascii -> bool) (n : nat) (c : cursor) : option cursor :=
  match n with
  | O => Some c
  | S n' => match eat p c with Some c' => eat_n p n' c' | None => None end
  end.

(** Consume the literal [l]. *)
Fixpoint eat_lit (ic : bool) (l : string) (c : cursor) : option cursor :=
  match l with
  | EmptyString => Some c
  | String x l' =>
      match eat (char_eq ic x) c with
      | Some c' => eat_lit ic l' c'
      | None => None
      end
  end.

(** Length of the longest prefix whose characters satisfy [p]. *)
Fixpoint run_length (p : ascii -> bool) (s : string) : nat :=
  match s with
  | String a s' => if p a then S (run_length p s') else O
  | EmptyString => O
  end.

Definition is_word_opt (o : option ascii) : bool :=
  match o with Some a => isword a | None => false end.

Definition next_char (c : cursor) : option ascii :=
  match rest c with String a _ => Some a | EmptyString => None end.

Definition at_boundary (c : cursor) : bool :=
  xorb (is_word_opt (prev c)) (is_word_opt (next_char c)).

(** The text between two positions of one subject. *)
Definition consumed (s s' : string) : string :=
  take (String.length s - String.length s') s.

Definition set_group (c : cursor) (g : string) : cursor :=
  {| prev := prev c; rest := rest c; group1 := Some g |}.

Section Matcher.
Context {R : Type}.
Variable ic : bool.   (* re.IGNORECASE *)

(** The rest of the pattern tried after exactly [j] characters. *)
Definition attempt_at (p : ascii -> bool) (c : cursor)
           (k : cursor -> option R) (j : nat) : option R :=
  match eat_n p j c with Some c' => k c' | None => None end.

(** A greedy repeat takes the longest run and gives characters back one
    at a time while the rest of the pattern fails: counts [min + extra],
    ..., [min] are tried in this order. *)
Fixpoint backoff (p : ascii -> bool) (min extra : nat) (c : cursor)
         (k : cursor -> option R) : option R :=
  match extra with
  | O => attempt_at p c k min
  | S e =>
      match attempt_at p c k (min + extra)%nat with
      | Some x => Some x
      | None => backoff p min e c k
      end
  end.

Definition many (p : ascii -> bool) (min : nat) (c : cursor)
           (k : cursor -> option R) : option R :=
  let n := run_length p (rest c) in
  if Nat.leb min n then backoff p min (n - min) c k else None.

(** Backtracking matcher: [k] is the rest of the pattern. *)
Fixpoint rmatch (r : regex) (c : cursor) (k : cursor -> option R) : option R :=
  match r with
  | Lit l => match eat_lit ic l c with Some c' => k c' | None => None end
  | Set1 cs => match eat (cs_mem ic cs) c with Some c' => k c' | None => None end
  | Many min cs => many (cs_mem ic cs) min c k
  | Seq r1 r2 => rmatch r1 c (fun c' => rmatch r2 c' k)
  | Opt r1 => match rmatch r1 c k with Some x => Some x | None => k c end
  | Group r1 =>
      rmatch r1 c (fun c' => k (set_group c' (consumed (rest c) (rest c'))))
  | WordB => if at_boundary c then k c else None
  end.
End Matcher.

(** A match object: where it starts, [group(0)], [group(1)] ([None] when
    the group took no part) and the text after the match. *)
Record match_obj := {
  m_start : nat;
  m_group0 : string;
  m_group1 : option string;
  m_prev : option ascii;
  m_rest : string
}.

Definition match_at (ic : bool) (r : regex) (pos : nat) (p : option ascii)
           (s : string) : option match_obj :=
  rmatch ic r {| prev := p; rest := s; group1 := None |}
    (fun c' => Some {| m_start := pos;
                       m_group0 := consumed s (rest c');
                       m_group1 := group1 c';
                       m_prev := prev c';
                       m_rest := rest c' |}).

(** Scan for the leftmost position where the pattern matches. *)
Fixpoint search_from (ic : bool) (r : regex) (pos : nat) (p : option ascii)
         (s : string) : option match_obj :=
  match match_at ic r pos p s with
  | Some m => Some m
  | None =>
      match s with
      | EmptyString => None
      | String a s' => search_from ic r (S pos) (Some a) s'
      end
  end.

(** [re.search(r, s)] and [re.search(r, s, re.IGNORECASE)]. *)
Definition search (ic : bool) (r : regex) (s : string) : option match_obj :=
  search_from ic r 0 None s.

(** [re.findall(r, s)] for a pattern without groups whose matches are not
    empty: the successive leftmost matches, each search resuming where the
    previous match ended.  An empty match ends the scan. *)
Fixpoint findall_from (fuel : nat) (ic : bool) (r : regex) (p : option ascii)
         (s : string) : list string :=
  match fuel with
  | O => []
  | S fuel' =>
      match search_from ic r 0 p s with
      | None => []
      | Some m =>
          if nonempty (m_group0 m)
          then m_group0 m :: findall_from fuel' ic r (m_prev m) (m_rest m)
          else [m_group0 m]
      end
  end.

Definition findall (ic : bool) (r : regex) (s : string) : list string :=
  findall_from (S (String.length s)) ic r None s.

(** Vocabulary for stating where a match lies in its subject. *)

(** The character before the position reached by reading [w]. *)
Fixpoint last_of (p : option ascii) (w : string) : option ascii :=
  match w with
  | EmptyString => p
  | String a w' => last_of (Some a) w'
  end.

(** The cursor after [w] has been read and [s'] is left. *)
Definition step_over (c : cursor) (w s' : string) : cursor :=
  {| prev := last_of (prev c) w; rest := s'; group1 := group1 c |}.

(** [w] spells the literal [l], up to case when [ic] is set. *)
Fixpoint lit_eq (ic : bool) (l w : string) : bool :=
  match l, w with
  | EmptyString, EmptyString => true
  | String x l', String a w' => char_eq ic x a && lit_eq ic l' w'
  | _, _ => false
  end.

(** [s] begins with the literal [l], up to case when [ic] is set. *)
Fixpoint prefix_eq (ic : bool) (l s : string) : bool :=
  match l, s with
  | EmptyString, _ => true
  | String x l', String a s' => char_eq ic x a && prefix_eq ic l' s'
  | String _ _, EmptyString => false
  end.

(** The literal [l] occurs somewhere in [s]. *)
Fixpoint occurs (ic : bool) (l s : string) : bool :=
  prefix_eq ic l s ||
  match s with
  | EmptyString => false
  | String _ s' => occurs ic l s'
  end.

(** The first character of [s] fails [p], or [s] is empty. *)
Definition stops (p : ascii -> bool) (s : string) : bool :=
  match s with
  | EmptyString => true
  | String a _ => negb (p a)
  end.

(** Sequence of several pieces. *)
Fixpoint seq_of (l : list regex) : regex :=
  match l with
  | [] => Lit ""
  | [r] => r
  | r :: l' => Seq r (seq_of l')
  end.

Definition ws : cset := cls [Space].          (* \s *)
Definition digit : cset := cls [Digit].       (* \d *)
(** The double quote character. *)
Definition dquote : ascii := "034"%char.

(** Anything but whitespace, angle brackets and the double quote. *)
Definition url_char : cset := ncls [Space; One "<"; One ">"; One dquote].

End Re.

(* ===================================================================== *)
(** ** Python values, the environment and the effect monad *)
(* ===================================================================== *)

Module Py.

(** What [response.json()] can return and what a payload can hold.  A
    [dict] keeps its items in order; [get] reads the first item of a key. *)
Inductive value :=
| VNone
| VBool (b : bool)
| VInt (z : Z)
| VFloat (f : float)
| VStr (s : string)
| VList (l : list value)
| VDict (d : list (string * value)).

(** [bool(v)] *)
Definition truthy (v : value) : bool :=
  match v with
  | VNone => false
  | VBool b => b
  | VInt z => negb (Z.eqb z 0)
  | VFloat f => negb (PrimFloat.eqb f 0%float)
  | VStr s => PyStr.nonempty s
  | VList l => match l with [] => false | _ => true end
  | VDict d => match d with [] => false | _ => true end
  end.

(** [isinstance(v, dict)] *)
Definition is_dict (v : value) : bool :=
  match v with VDict _ => true | _ => false end.

Fixpoint lookup (key : string) (d : list (string * value)) : option value :=
  match d with
  | [] => None
  | (k, v) :: d' => if String.eqb k key then Some v else lookup key d'
  end.

(** [v.get(key, default)] on a dict. *)
Definition get_default (v : value) (key : string) (default : value) : value :=
  match v with
  | VDict d => match lookup key d with Some x => x | None => default end
  | _ => default
  end.

(** [v.get(key)] *)
Definition get (v : value) (key : string) : value := get_default v key VNone.

(** [str(n)] for an integer. *)
Definition str_of_int (z : Z) : string :=
  DecimalString.NilZero.string_of_int (Z.to_int z).

(** A [pandas] column as [read_csv(..., header=None)] types it.  A
    column whose cells are all integers is [int64], or [uint64] when a
    cell is beyond the range of [int64]; a column of decimal numbers, or of
    integers with missing cells, is [float64]; every other column
    ([object], [bool]) is not of a number dtype and is an [ObjectColumn]
    here, whatever its cells are. *)
Inductive column :=
| IntColumn (vals : list Z)
| UIntColumn (vals : list Z)
| FloatColumn (vals : list float)
| ObjectColumn (vals : list string).

(** What [Series.sum()] gives: a [numpy] integer or float. *)
Inductive number :=
| NInt (z : Z)
| NFloat (f : float).

(** Arithmetic of [int64] and [uint64] wraps around. *)
Definition wrap_int64 (z : Z) : Z := ((z + 2 ^ 63) mod 2 ^ 64 - 2 ^ 63)%Z.
Definition wrap_uint64 (z : Z) : Z := (z mod 2 ^ 64)%Z.

(** A Python integer as the nearest [float64], ties to even: how a
    comparison with a float column reads its integer operand. *)
Definition float_of_int (z : Z) : float :=
  SF2Prim (binary_normalize prec emax z 0 false).

(** [int(f)] for a float: the integer part, towards zero; [None] for an
    infinity or a NaN, where [int] raises. *)
Definition int_of_float (f : float) : option Z :=
  match Prim2SF f with
  | S754_zero _ => Some 0%Z
  | S754_finite s m e =>
      let magnitude :=
        if Z.leb 0 e then (Zpos m * 2 ^ e)%Z else (Zpos m / 2 ^ (- e))%Z in
      Some (if s then (- magnitude)%Z else magnitude)
  | _ => None
  end.

Definition DataFrame := list column.

(** An HTTP response: [status_code] and what [.json()] gives. *)
Inductive outcome (A : Type) :=
| Ok (a : A)
| Raise (msg : string).
Arguments Ok {A} a.
Arguments Raise {A} msg.

Record response := { status_code : Z; json : outcome value }.

(** Lines the chain driver prints. *)
Inductive log_line :=
| LogStart (email : string)
| LogQuiz (n : Z) (url : value)
| LogCorrect
| LogWrong (reason : value)
| LogNext (url : value)
| LogComplete
| LogInvalid
| LogError (n : Z) (msg : string)
| LogCompleted (n : Z).

(** What the program does to the outside world, in order. *)
Inductive event :=
| EvGoto (url : value)                      (* launch, new_page, page.goto *)
| EvRead (url : value)                      (* inner_text, content, close *)
| EvSleep (seconds : Z)                     (* time.sleep *)
| EvGenerate (prompt : string)              (* model.generate_content *)
| EvReadCsv (url : string)                  (* pd.read_csv *)
| EvPost (url : string) (payload : value)   (* requests.post *)
| EvLog (l : log_line).                     (* print, in the driver *)

Definition trace := list event.

(** The external collaborators.  Each answers from the events so far. *)
Record Env := {
  page_goto : trace -> value -> outcome unit;
  page_read : trace -> value -> outcome (string * string);
  generate_content : trace -> string -> outcome string;
  read_csv : trace -> string -> outcome DataFrame;
  requests_post : trace -> string -> value -> outcome response;
  urljoin : value -> string -> outcome string;
  py_float : string -> option float;
  float_sum : list float -> float
}.

(** Computations that extend the trace and may raise. *)
Definition M (A : Type) : Type := trace -> outcome A * trace.

Definition ret {A} (a : A) : M A := fun tr => (Ok a, tr).

Definition bind {A B} (c : M A) (f : A -> M B) : M B :=
  fun tr =>
    match c tr with
    | (Ok a, tr') => f a tr'
    | (Raise e, tr') => (Raise e, tr')
    end.

Definition raise {A} (msg : string) : M A := fun tr => (Raise msg, tr).

(** [try: c  except Exception as e: h e] *)
Definition try_catch {A} (c : M A) (h : string -> M A) : M A :=
  fun tr =>
    match c tr with
    | (Ok a, tr') => (Ok a, tr')
    | (Raise e, tr') => h e tr'
    end.

(** Record an event. *)
Definition emit (e : event) : M unit := fun tr => (Ok tt, (tr ++ [e])%list).

(** Call a collaborator: it answers from the trace so far, and the call
    is recorded. *)
Definition call {A} (e : event) (oracle : trace -> outcome A) : M A :=
  fun tr => (oracle tr, (tr ++ [e])%list).

(** A pure step that may raise. *)
Definition lift {A} (o : outcome A) : M A := fun tr => (o, tr).

Definition sleep (seconds : Z) : M unit := emit (EvSleep seconds).
Definition log (l : log_line) : M unit := emit (EvLog l).

(** What the body of a [for] loop does to the loop. *)
Inductive flow (A : Type) :=
| Return (a : A)     (* return a *)
| Continue.          (* go on with the next item *)
Arguments Return {A} a.
Arguments Continue {A}.

End Py.

Declare Scope py_scope.
Delimit Scope py_scope with py.
Notation "x <- c ;; k" := (Py.bind c (fun x => k))
  (at level 61, c at next level, right associativity) : py_scope.
Notation "c ;;; k" := (Py.bind c (fun _ => k))
  (at level 61, right associativity) : py_scope.

(* ===================================================================== *)
(** ** The program *)
(* ===================================================================== *)

Module Quiz.
Import PyStr Re Py.
Local Open Scope py_scope.

Definition nl : string := String "010"%char EmptyString.
Definition squote : ascii := "'"%char.
Definition backtick : ascii := "`"%char.

(** *** Patterns, as written in the source *)

(** The class of the first pattern as [re] reads it: the bracket opened
    before [https] closes at the first closing bracket, so the class holds
    the characters h, t, p, s, colon, slash, opening bracket, caret,
    whitespace, angle brackets and the double quote. *)
Definition post_class : cset :=
  cls [One "h"; One "t"; One "t"; One "p"; One "s"; One ":"; One "/"; One "/";
       One "["; One "^"; Space; One "<"; One ">"; One dquote].

(** POST\s+(?:to\s+)?(?:JSON\s+to\s+)?(<post_class>+/submit<url_char>* ) *)
Definition re_post_submit : regex :=
  seq_of [Lit "POST"; Many 1 ws;
          Opt (seq_of [Lit "to"; Many 1 ws]);
          Opt (seq_of [Lit "JSON"; Many 1 ws; Lit "to"; Many 1 ws]);
          Group (seq_of [Many 1 post_class; Lit "/submit"; Many 0 url_char])].

(** (https://<url_char>+/submit) *)
Definition re_submit_url : regex :=
  Group (seq_of [Lit "https://"; Many 1 url_char; Lit "/submit"]).

(** https://<url_char>+ *)
Definition re_https_url : regex :=
  seq_of [Lit "https://"; Many 1 url_char].

(** Scrape\s+([^\s]+) *)
Definition re_scrape : regex :=
  seq_of [Lit "Scrape"; Many 1 ws; Group (Many 1 (ncls [Space]))].

(** [Ss]ecret\s+code\s+is\s+(\d+) *)
Definition re_secret_code : regex :=
  seq_of [Set1 (cls [One "S"; One "s"]); Lit "ecret"; Many 1 ws;
          Lit "code"; Many 1 ws; Lit "is"; Many 1 ws; Group (Many 1 digit)].

(** \b(\d{5,})\b *)
Definition re_digit_run : regex :=
  seq_of [WordB; Group (Many 5 digit); WordB].

(** The three CSV patterns: a bare URL, an href attribute, a
    parenthesised link. *)
Definition re_csv_bare : regex :=
  seq_of [Lit "http"; Opt (Lit "s"); Lit "://";
          Many 1 (ncls [Space; One "<"; One ">"; One dquote; One squote;
                        One "("; One ")"]);
          Lit ".csv"].

Definition re_csv_href : regex :=
  seq_of [Lit "href="; Set1 (cls [One dquote; One squote]);
          Group (seq_of [Many 1 (ncls [One dquote; One squote]); Lit ".csv"]);
          Set1 (cls [One dquote; One squote])].

Definition re_csv_paren : regex :=
  seq_of [Lit "("; Group (seq_of [Many 1 (ncls [One ")"]); Lit ".csv"]); Lit ")"].

Definition csv_patterns : list regex := [re_csv_bare; re_csv_href; re_csv_paren].

(** [Cc]utoff[:\s]+(\d+) *)
Definition re_cutoff : regex :=
  seq_of [Set1 (cls [One "C"; One "c"]); Lit "utoff";
          Many 1 (cls [One ":"; Space]); Group (Many 1 digit)].

Definition default_submit_url : string :=
  "https://tds-llm-analysis.s-anand.net/submit".

Definition max_quizzes : Z := 10.

(** *** Loops *)

(** [for i in items: body i], where the body may return from the
    function.  [None] is the loop running out: the function then falls off
    its end and returns Python's [None]. *)
Fixpoint for_each {A} (items : list nat) (body : nat -> M (flow A)) : M (option A) :=
  match items with
  | [] => ret None
  | i :: more =>
      f <- body i ;;
      match f with
      | Return a => ret (Some a)
      | Continue => for_each more body
      end
  end.

(** [range(n)] *)
Definition range (n : nat) : list nat := seq 0 n.

(** [a, b = x]: unpacking [None] raises. *)
Definition unpack {A} (x : option A) : M A :=
  match x with
  | Some a => ret a
  | None => raise "TypeError: cannot unpack non-iterable NoneType object"
  end.

Section WithEnv.
Variable E : Env.

(** *** fetch_page_with_playwright *)

(** The body of the [try]: open the page, wait, read it. *)
Definition fetch_attempt (url : value) : M (string * string) :=
  call (EvGoto url) (fun tr => page_goto E tr url) ;;;
  sleep 2 ;;;
  call (EvRead url) (fun tr => page_read E tr url).

Definition fetch_page_with_playwright (url : value) (retries : nat)
  : M (option (string * string)) :=
  for_each (range retries) (fun attempt =>
    try_catch
      (r <- fetch_attempt url ;; ret (Return r))
      (fun e =>
         if Nat.ltb attempt (retries - 1)
         then sleep 5 ;;; ret Continue
         else raise e)).

(** *** analyze_quiz_page *)

Record analysis := { submit_url : option string; question : string }.

Definition analyze_prompt (page_text : string) : string :=
  nl ++ "Extract the submit URL from this page." ++ nl ++ nl ++
  "Page:" ++ nl ++ "---" ++ nl ++ page_text ++ nl ++ "---" ++ nl ++ nl ++
  "Return ONLY the URL, nothing else." ++ nl.

(** [not x] for a string that may be [None]. *)
Definition falsy (x : option string) : bool :=
  match x with Some s => negb (nonempty s) | None => true end.

(** The last resort: a URL of the text that mentions submit, else its
    first URL, else the hardcoded endpoint. *)
Definition fallback_submit_url (page_text : string) : option string :=
  let urls := findall false re_https_url page_text in
  let submit_url := find (fun u => contains "submit" (lower u)) urls in
  let submit_url :=
    if falsy submit_url && negb (Nat.eqb (List.length urls) 0)
    then hd_error urls else submit_url in
  if falsy submit_url then Some default_submit_url else submit_url.

Definition analyze_quiz_page (page_text : string) : M analysis :=
  let submit_url_match :=
    match search true re_post_submit page_text with
    | Some m => Some m
    | None => search true re_submit_url page_text
    end in
  match submit_url_match with
  | Some m =>
      ret {| submit_url := m_group1 m; question := take 500 page_text |}
  | None =>
      from_model <-
        try_catch
          (text <- call (EvGenerate (analyze_prompt page_text))
                        (fun tr => generate_content E tr (analyze_prompt page_text)) ;;
           let submit_url_text := strip text in
           match search false re_https_url submit_url_text with
           | Some url_match =>
               ret (Some {| submit_url := Some (m_group0 url_match);
                            question := take 500 page_text |})
           | None => ret None
           end)
          (fun _ => ret None) ;;
      match from_model with
      | Some a => ret a
      | None =>
          ret {| submit_url := fallback_submit_url page_text;
                 question := take 500 page_text |}
      end
  end.

(** *** solve_question *)

(** Tool 1, after the fetch: the labelled code, else a run of five or
    more digits, else the text itself. *)
Definition extract_secret (scraped_text : string) : option string :=
  match search false re_secret_code scraped_text with
  | Some code_match => m_group1 code_match
  | None =>
      match search false re_digit_run scraped_text with
      | Some code_match => m_group1 code_match
      | None => Some (strip scraped_text)
      end
  end.

Definition value_of_group (g : option string) : value :=
  match g with Some s => VStr s | None => VNone end.

(** The first pattern that matches gives the CSV URL: its group 1 if
    the pattern has one, else the whole match; quotes, parentheses and
    angle brackets are stripped from both ends. *)
Fixpoint find_csv_url (patterns : list regex) (combined_content : string)
  : option string :=
  match patterns with
  | [] => None
  | pattern :: more =>
      match search true pattern combined_content with
      | Some csv_match =>
          let csv_url :=
            match m_group1 csv_match with
            | Some g => g
            | None => m_group0 csv_match
            end in
          Some (strip_chars (String dquote (String squote "()<>")) csv_url)
      | None => find_csv_url more combined_content
      end
  end.

(** [select_dtypes(include=['number'])] keeps the columns of a number
    dtype. *)
Definition is_number (col : column) : bool :=
  match col with ObjectColumn _ => false | _ => true end.

(** Labels of the number columns, in order. *)
Fixpoint numeric_labels (label : nat) (df : DataFrame) : list nat :=
  match df with
  | [] => []
  | col :: df' =>
      if is_number col then label :: numeric_labels (S label) df'
      else numeric_labels (S label) df'
  end.

(** [col > cutoff]: a boolean per row.  An integer column compares
    exactly; a float column compares with the cutoff as a float, and a
    NaN is above nothing.  [None]: not a number column. *)
Definition gt_mask (col : column) (cutoff : Z) : option (list bool) :=
  match col with
  | IntColumn vals | UIntColumn vals =>
      Some (map (fun v => Z.gtb v cutoff) vals)
  | FloatColumn vals =>
      Some (map (fun v => PrimFloat.ltb (float_of_int cutoff) v) vals)
  | ObjectColumn _ => None
  end.

Fixpoint select {A} (mask : list bool) (l : list A) : list A :=
  match mask, l with
  | b :: mask', x :: l' => if b then x :: select mask' l' else select mask' l'
  | _, _ => []
  end.

(** [df[mask]]: the rows where the mask holds, in every column. *)
Definition filter_rows (mask : list bool) (df : DataFrame) : DataFrame :=
  map (fun col =>
         match col with
         | IntColumn vals => IntColumn (select mask vals)
         | UIntColumn vals => UIntColumn (select mask vals)
         | FloatColumn vals => FloatColumn (select mask vals)
         | ObjectColumn vals => ObjectColumn (select mask vals)
         end) df.

(** [series.sum()]: an integer column adds in its own dtype, with
    wrap-around; the sum of a float column is the environment's. *)
Definition series_sum (col : column) : option number :=
  match col with
  | IntColumn vals =>
      Some (NInt (fold_left (fun acc v => wrap_int64 (acc + v)) vals 0%Z))
  | UIntColumn vals =>
      Some (NInt (fold_left (fun acc v => wrap_uint64 (acc + v)) vals 0%Z))
  | FloatColumn vals => Some (NFloat (float_sum E vals))
  | ObjectColumn _ => None
  end.

(** Filter on the first number column and add up what is left of it.
    [None]: the frame has no number column. *)
Definition sum_above_cutoff (df : DataFrame) (cutoff : Z) : option number :=
  match numeric_labels 0 df with
  | [] => None
  | numeric_col :: _ =>
      match nth_error df numeric_col with
      | Some col =>
          match gt_mask col cutoff with
          | Some mask =>
              let filtered := filter_rows mask df in
              match nth_error filtered numeric_col with
              | Some kept => series_sum kept
              | None => None
              end
          | None => None
          end
      | None => None
      end
  end.

(** [int(result)] *)
Definition int_of_number (result : number) : outcome Z :=
  match result with
  | NInt z => Ok z
  | NFloat f =>
      match int_of_float f with
      | Some z => Ok z
      | None => Raise "cannot convert float to integer"
      end
  end.

(** The [try] block of tool 2.  [Some n] is [return int(result)];
    [None] lets the caller go on to the model. *)
Definition csv_try (csv_url combined_content : string) : M (option Z) :=
  df <- call (EvReadCsv csv_url) (fun tr => read_csv E tr csv_url) ;;
  match search false re_cutoff combined_content with
  | Some cutoff_match =>
      match m_group1 cutoff_match with
      | Some digits =>
          match py_int digits with
          | Some cutoff =>
              match sum_above_cutoff df cutoff with
              | Some result =>
                  n <- lift (int_of_number result) ;; ret (Some n)
              | None => ret None
              end
          | None => raise "ValueError"
          end
      | None => raise "TypeError"
      end
  | None => ret None
  end.

(** Typing of the model's answer, after the quoting characters are
    removed. *)
Definition type_answer (answer_text : string) : value :=
  let parsed :=
    if contains "." answer_text
    then option_map VFloat (py_float E answer_text)
    else option_map VInt (py_int answer_text) in
  match parsed with
  | Some v => v
  | None =>
      if existsb (String.eqb (lower answer_text)) ["true"; "yes"] then VBool true
      else if existsb (String.eqb (lower answer_text)) ["false"; "no"] then VBool false
      else VStr answer_text
  end.

Definition clean_answer (text : string) : string :=
  remove_char squote (remove_char dquote (remove_char backtick (strip text))).

Definition answer_prompt (page_text question : string) : string :=
  nl ++ "Context:" ++ nl ++ take 2000 page_text ++ nl ++ nl ++
  "Question: " ++ question ++ nl ++ nl ++ "Answer (just the value):" ++ nl.

(** The fallback: ask the model. *)
Definition gemini_answer (question page_text : string) : M value :=
  let prompt := answer_prompt page_text question in
  try_catch
    (text <- call (EvGenerate prompt) (fun tr => generate_content E tr prompt) ;;
     ret (type_answer (clean_answer text)))
    (fun _ => ret (VStr "error")).

Definition solve_question (question page_text page_html : string)
           (base_url : value) : M value :=
  match search true re_scrape question with
  | Some scrape_match =>
      match m_group1 scrape_match with
      | Some scrape_path =>
          scrape_url <- lift (urljoin E base_url scrape_path) ;;
          fetched <- fetch_page_with_playwright (VStr scrape_url) 3 ;;
          r <- unpack fetched ;;
          ret (value_of_group (extract_secret (fst r)))
      | None => raise "TypeError"
      end
  | None =>
      let combined_content := page_text ++ " " ++ page_html in
      from_csv <-
        match find_csv_url csv_patterns combined_content with
        | Some csv_url =>
            if nonempty csv_url then
              csv_url <- (if startswith "http" csv_url then ret csv_url
                          else lift (urljoin E base_url csv_url)) ;;
              try_catch (csv_try csv_url combined_content) (fun _ => ret None)
            else ret None
        | None => ret None
        end ;;
      match from_csv with
      | Some n => ret (VInt n)
      | None => gemini_answer question page_text
      end
  end.

(** *** submit_answer *)

Definition failure (reason : string) : value :=
  VDict [("correct", VBool false); ("reason", VStr reason)].

Definition make_payload (email secret : string) (quiz_url answer : value) : value :=
  VDict [("email", VStr email); ("secret", VStr secret);
         ("url", quiz_url); ("answer", answer)].

(** The body of the [try]: one POST and what is returned from it. *)
Definition post_attempt (submit_url : string) (payload : value) : M value :=
  response <- call (EvPost submit_url payload)
                   (fun tr => requests_post E tr submit_url payload) ;;
  if Z.eqb (status_code response) 200
  then lift (json response)
  else ret (failure ("HTTP " ++ str_of_int (status_code response))).

(** The retry loop. *)
Definition post_with_retries (submit_url : string) (payload : value)
           (retries : nat) : M value :=
  r <- for_each (range retries) (fun attempt =>
         try_catch
           (v <- post_attempt submit_url payload ;; ret (Return v))
           (fun e =>
              if Nat.ltb attempt (retries - 1)
              then sleep 5 ;;; ret Continue
              else ret (Return (failure e)))) ;;
  ret (match r with Some v => v | None => VNone end).

(** [submit_url.startswith('http')] on [None] raises; a relative URL is
    joined to the quiz URL. *)
Definition absolute_submit_url (submit_url : option string) (quiz_url : value)
  : M string :=
  match submit_url with
  | None => raise "AttributeError: 'NoneType' object has no attribute 'startswith'"
  | Some u => if startswith "http" u then ret u
              else lift (urljoin E quiz_url u)
  end.

Definition submit_answer (submit_url : option string) (email secret : string)
           (quiz_url : value) (answer : value) (retries : nat) : M value :=
  submit_url <- absolute_submit_url submit_url quiz_url ;;
  post_with_retries submit_url (make_payload email secret quiz_url answer) retries.

(** *** solve_single_quiz *)

Definition solve_single_quiz (email secret : string) (quiz_url : value) : M value :=
  fetched <- fetch_page_with_playwright quiz_url 3 ;;
  r <- unpack fetched ;;
  let page_text := fst r in
  let page_html := snd r in
  sleep 3 ;;;
  a <- analyze_quiz_page page_text ;;
  sleep 3 ;;;
  answer <- solve_question (question a) page_text page_html quiz_url ;;
  submit_answer (submit_url a) email secret quiz_url answer 3.

End WithEnv.

(** *** solve_quiz_chain *)

(** The loop variables. *)
Record QuizState := { current_url : value; quiz_count : Z }.

(** How the [while] loop was left. *)
Inductive exit_kind :=
| LoopTestFalse      (* the loop test failed: no URL, or the cap *)
| ChainComplete      (* break: no next URL in the result *)
| InvalidResponse    (* break: the result is not a non-empty dict *)
| ErrorCaught        (* break: an exception was caught *)
| OutOfFuel.         (* the model's own bound; never reached *)

Section Chain.
(** One quiz: [solve_single_quiz email secret]. *)
Variable single : value -> M value.

(** The body of the [while] loop.  [None]: go round again. *)
Definition loop_body (st : QuizState) : M (QuizState * option exit_kind) :=
  let quiz_count := (quiz_count st + 1)%Z in
  let stay := {| current_url := current_url st; quiz_count := quiz_count |} in
  log (LogQuiz quiz_count (current_url st)) ;;;
  try_catch
    (result <- single (current_url st) ;;
     if truthy result && is_dict result then
       (if truthy (get result "correct") then log LogCorrect
        else log (LogWrong (get_default result "reason" (VStr "No reason")))) ;;;
       let next_url := get result "url" in
       if truthy next_url then
         log (LogNext next_url) ;;;
         ret ({| current_url := next_url; quiz_count := quiz_count |}, None)
       else
         log LogComplete ;;; ret (stay, Some ChainComplete)
     else
       log LogInvalid ;;; ret (stay, Some InvalidResponse))
    (fun e => log (LogError quiz_count e) ;;; ret (stay, Some ErrorCaught)).

(** [while current_url and quiz_count < max_quizzes: ...] *)
Fixpoint while_loop (fuel : nat) (st : QuizState) : M (QuizState * exit_kind) :=
  if truthy (current_url st) && Z.ltb (quiz_count st) max_quizzes then
    match fuel with
    | O => ret (st, OutOfFuel)
    | S fuel' =>
        r <- loop_body st ;;
        match snd r with
        | None => while_loop fuel' (fst r)
        | Some how => ret (fst r, how)
        end
    end
  else ret (st, LoopTestFalse).

Definition chain (email : string) (start_url : value) : M (QuizState * exit_kind) :=
  log (LogStart email) ;;;
  r <- while_loop (Z.to_nat max_quizzes) {| current_url := start_url; quiz_count := 0 |} ;;
  log (LogCompleted (quiz_count (fst r))) ;;;
  ret r.
End Chain.

(** The function returns nothing; the model returns the loop variables
    and the way the loop was left, which the program only prints. *)
Definition solve_quiz_chain (E : Env) (email secret : string) (start_url : value)
  : M (QuizState * exit_kind) :=
  chain (solve_single_quiz E email secret) email start_url.

End Quiz.

(* ===================================================================== *)
(** ** Vocabulary of the properties *)
(* ===================================================================== *)

Module Spec.
Import PyStr Re Py Quiz.

(** *** Traces *)

Definition count_events (p : event -> bool) (tr : trace) : nat :=
  List.length (filter p tr).

Definition is_goto (e : event) : bool :=
  match e with EvGoto _ => true | _ => false end.

Definition is_post (e : event) : bool :=
  match e with EvPost _ _ => true | _ => false end.

(** The line printed at the start of each quiz step. *)
Definition is_quiz_log (e : event) : bool :=
  match e with EvLog (LogQuiz _ _) => true | _ => false end.

(** A computation only appends to the trace, and appends at most [n]
    events of the kind [p]. *)
Definition extends {A} (c : M A) (n : nat) (p : event -> bool) : Prop :=
  forall tr, exists evs,
    snd (c tr) = (tr ++ evs)%list /\ (count_events p evs <= n)%nat.

(** The first thing a computation does is the event [e]. *)
Definition begins {A} (e : event) (c : M A) : Prop :=
  forall tr, exists evs, snd (c tr) = (tr ++ e :: evs)%list.

(** A kind of event that holds only of submissions and printed lines. *)
Definition ignores_io (p : event -> bool) : Prop :=
  forall e, p e = true ->
    match e with EvPost _ _ | EvLog _ => True | _ => False end.

(** *** The analyzer *)

(** The model, asked for the submit URL, fails or names no URL. *)
Definition model_silent (E : Env) (page_text : string) (tr : trace) : Prop :=
  match generate_content E tr (analyze_prompt page_text) with
  | Ok text => search false re_https_url (strip text) = None
  | Raise _ => True
  end.

(** None of the analyzer's steps finds a submission URL: neither pattern
    matches, the model is silent, and the text holds no URL. *)
Definition nothing_discovered (E : Env) (page_text : string) (tr : trace) : Prop :=
  search true re_post_submit page_text = None /\
  search true re_submit_url page_text = None /\
  model_silent E page_text tr /\
  findall false re_https_url page_text = [].

(** *** The submission URL in a page *)

(** The first pattern of the analyzer as it is meant, without the
    bracket before the scheme:
    POST\s+(?:to\s+)?(?:JSON\s+to\s+)?(https://<url_char>+/submit<url_char>* ) *)
Definition re_post_intended : regex :=
  seq_of [Lit "POST"; Many 1 ws;
          Opt (seq_of [Lit "to"; Many 1 ws]);
          Opt (seq_of [Lit "JSON"; Many 1 ws; Lit "to"; Many 1 ws]);
          Group (seq_of [Lit "https://"; Many 1 url_char; Lit "/submit";
                         Many 0 url_char])].

(** [s] without its first [n] characters. *)
Fixpoint drop (n : nat) (s : string) : string :=
  match n, s with
  | S n', String _ s' => drop n' s'
  | _, _ => s
  end.

(** The run of URL characters at the head of a text. *)
Definition url_run (s : string) : string :=
  take (run_length (cs_mem true url_char) s) s.

(** [s] begins with an https URL that holds [/submit] after at least one
    character, in any case of letters. *)
Definition submit_url_here (s : string) : bool :=
  prefix_eq true "https://" s &&
  occurs true "/submit" (drop 1 (url_run (drop 8 s))).

(** Such a URL begins at one of the first [n] positions of [s]. *)
Fixpoint submit_url_before (n : nat) (s : string) : bool :=
  match n, s with
  | S n', String _ s' => submit_url_here s || submit_url_before n' s'
  | _, _ => false
  end.

(** *** Secret codes *)

(** A non-empty run of whitespace, of digits. *)
Definition ws_run (s : string) : bool := nonempty s && all_chars isspace s.
Definition digit_run (d : string) : bool := nonempty d && all_chars isdigit d.

Definition head_char (s : string) : option ascii :=
  match s with String a _ => Some a | EmptyString => None end.

Definition is_space_opt (o : option ascii) : bool :=
  match o with Some a => isspace a | None => false end.

(** [t] is [s] without the whitespace at its two ends: [s] is [t]
    between two runs of whitespace, and [t] neither begins nor ends with
    a whitespace character. *)
Definition trimmed (s t : string) : Prop :=
  exists lead trail,
    s = lead ++ t ++ trail /\
    all_chars isspace lead = true /\ all_chars isspace trail = true /\
    is_space_opt (head_char t) = false /\
    is_space_opt (last_of None t) = false.

(** [t] is the first [n] characters of [s], or all of [s] if it has
    fewer. *)
Definition first_chars (n : nat) (s t : string) : Prop :=
  exists more,
    s = t ++ more /\
    (String.length t = n \/ (more = "" /\ (String.length t <= n)%nat)).

(** A line feed. *)
Definition newline : string := String "010"%char "".

(** After [pre], the text reads Secret (or secret) code is [d], the
    words any whitespace apart, and [d] is all the digits there. *)
Definition labeled_code_at (text pre d : string) : Prop :=
  exists c s1 s2 s3 post,
    text = pre ++ String c ("ecret" ++ s1 ++ "code" ++ s2 ++ "is" ++ s3 ++ d ++ post) /\
    (c = "S"%char \/ c = "s"%char) /\
    ws_run s1 = true /\ ws_run s2 = true /\ ws_run s3 = true /\
    digit_run d = true /\ stops isdigit post = true.

Definition labeled_code (text d : string) : Prop :=
  exists pre, labeled_code_at text pre d.

(** [d] is a run of five or more digits standing alone between [pre]
    and [post]: no word character touches it. *)
Definition standalone_at (text pre d post : string) : Prop :=
  text = pre ++ d ++ post /\
  all_chars isdigit d = true /\ (5 <= String.length d)%nat /\
  is_word_opt (last_of None pre) = false /\
  is_word_opt (head_char post) = false.

Definition standalone_run (text d : string) : Prop :=
  exists pre post, standalone_at text pre d post.

(** The leftmost such run. *)
Definition first_standalone_run (text d : string) : Prop :=
  exists pre post,
    standalone_at text pre d post /\
    forall pre' d' post', standalone_at text pre' d' post' ->
                          (String.length pre <= String.length pre')%nat.

(** *** Tables *)

(** The sum of the values strictly greater than the cutoff, in the
    words of the specification. *)
Fixpoint sum_greater (cutoff : Z) (vals : list Z) : Z :=
  match vals with
  | [] => 0
  | v :: vs =>
      if Z.ltb cutoff v then (v + sum_greater cutoff vs)%Z
      else sum_greater cutoff vs
  end.

(** [col] is the first number column of the frame: it is of a number
    dtype and the columns before it are not. *)
Definition first_number_column (df : DataFrame) (col : column) : Prop :=
  is_number col = true /\
  exists texts after, df = (map ObjectColumn texts ++ col :: after)%list.

(** The values of a float column strictly above the cutoff, in order. *)
Definition floats_above (cutoff : Z) (vals : list float) : list float :=
  filter (fun v => PrimFloat.ltb (float_of_int cutoff) v) vals.

(** The ranges of [int64] and of [uint64]. *)
Definition int64_range (z : Z) : Prop := (- 2 ^ 63 <= z < 2 ^ 63)%Z.
Definition uint64_range (z : Z) : Prop := (0 <= z < 2 ^ 64)%Z.


(** The frame read from rows of integers, one list per row: the cells
    of a column are the cells at one index of every row. *)
Fixpoint frame_of_rows (width : nat) (rows : list (list Z)) : DataFrame :=
  match width with
  | O => []
  | S w => (frame_of_rows w rows ++ [IntColumn (map (fun row => nth w row 0%Z) rows)])%list
  end.

(** *** Answers *)

(** The characters removed from the model's answer: backtick, double
    quote, single quote. *)
Definition is_quoting (c : ascii) : bool :=
  existsb (Ascii.eqb c) [backtick; dquote; squote].

(** [t] is [s] with every backtick, double quote and single quote left
    out, the other characters in their order. *)
Inductive unquoted : string -> string -> Prop :=
| unquoted_nil : unquoted "" ""
| unquoted_drop a s t :
    is_quoting a = true -> unquoted s t -> unquoted (String a s) t
| unquoted_keep a s t :
    is_quoting a = false -> unquoted s t -> unquoted (String a s) (String a t).

(** [a] is the small letter [x] or its capital, which stands 32 code
    points below it; a character [x] that is no small letter of the
    alphabet is only itself. *)
Definition same_letter (x a : ascii) : bool :=
  Ascii.eqb a x || (between 97 122 x && N.eqb (code a + 32) (code x)).

(** [w] is the word [l] in some case of letters. *)
Fixpoint spells (l w : string) : bool :=
  match l, w with
  | EmptyString, EmptyString => true
  | String x l', String a w' => same_letter x a && spells l' w'
  | _, _ => false
  end.

(** [s] begins with the word [l] in some case of letters. *)
Fixpoint begins_with (l s : string) : bool :=
  match l, s with
  | EmptyString, _ => true
  | String x l', String a s' => same_letter x a && begins_with l' s'
  | String _ _, EmptyString => false
  end.

(** The word [l] stands somewhere in [s], in some case of letters. *)
Fixpoint mentions (l s : string) : bool :=
  begins_with l s ||
  match s with
  | EmptyString => false
  | String _ s' => mentions l s'
  end.

(** The 256 characters. *)
Definition all_ascii : list ascii := map ascii_of_nat (seq 0 256).

(** *** Retries *)

(** [retried attempt n tr r tr']: starting from [tr], [attempt] is made
    [n] times in a row; every attempt but the last raises and is followed
    by a sleep of five seconds; the last one ends in [r] and leaves the
    trace [tr']. *)
Inductive retried {A} (attempt : M A) : nat -> trace -> outcome A -> trace -> Prop :=
| retried_last tr r tr' :
    attempt tr = (r, tr') -> retried attempt 1 tr r tr'
| retried_again tr e tr1 n r tr' :
    attempt tr = (Raise e, tr1) ->
    retried attempt n (tr1 ++ [EvSleep 5])%list r tr' ->
    retried attempt (S n) tr r tr'.

Definition raised {A} (r : outcome A) : bool :=
  match r with Raise _ => true | Ok _ => false end.

(** *** The chain *)

(** The loop test of [solve_quiz_chain]. *)
Definition loop_test (st : QuizState) : bool :=
  truthy (current_url st) && Z.ltb (quiz_count st) max_quizzes.

(** [reaches single x y]: the loop, at its head in state and trace [x],
    comes back to its head in state and trace [y] after some passes. *)
Inductive reaches (single : value -> M value)
  : QuizState * trace -> QuizState * trace -> Prop :=
| reaches_here x : reaches single x x
| reaches_pass st tr st' tr' y :
    loop_test st = true ->
    loop_body single st tr = (Ok (st', None), tr') ->
    reaches single (st', tr') y ->
    reaches single (st, tr) y.

(** Fuel enough for the passes that remain. *)
Definition enough (fuel : nat) (st : QuizState) : Prop :=
  (Z.to_nat (max_quizzes - quiz_count st) <= fuel)%nat.

(** The head of the loop when [solve_quiz_chain] enters it. *)
Definition chain_start (email : string) (start_url : value) (tr : trace)
  : QuizState * trace :=
  ({| current_url := start_url; quiz_count := 0 |},
   (tr ++ [EvLog (LogStart email)])%list).

(** The verdict line of a step. *)
Definition verdict (result : value) : event :=
  if truthy (get result "correct") then EvLog LogCorrect
  else EvLog (LogWrong (get_default result "reason" (VStr "No reason"))).

End Spec.

(* ===================================================================== *)
(** ** Example environments *)
(* ===================================================================== *)

Module Examples.
Import PyStr Re Py Quiz Spec.

Definition me : string := "me@example.com".
Definition key : string := "s3cret".
Definition q1 : value := VStr "https://quiz.example/q1".
Definition q2 : value := VStr "https://quiz.example/q2".

Definition quiz_page : string :=
  "Question 1. What is 6 times 7? POST your answer to https://quiz.example/submit".

(** Every page shows [page_text]; the model says [model_says]; there is
    no CSV; the endpoint answers from the number of submissions so far. *)
Definition env_with (page_text : string) (model_says : outcome string)
           (csv : outcome DataFrame) (answers : nat -> response) : Env :=
  {| page_goto := fun _ _ => Ok tt;
     page_read := fun _ _ => (Ok (page_text, "<html></html>"));
     generate_content := fun _ _ => model_says;
     read_csv := fun _ _ => csv;
     requests_post := fun tr _ _ => Ok (answers (count_events is_post tr));
     urljoin := fun _ ref => Ok ("https://quiz.example" ++ ref);
     py_float := fun _ => None;
     float_sum := fun vals => fold_left PrimFloat.add vals 0%float |}.

Definition ok_json (v : value) : response :=
  {| status_code := 200; json := Ok v |}.

(** The endpoint accepts the first answer and names no further quiz. *)
Definition env_done : Env :=
  env_with quiz_page (Ok "42") (Raise "no such file")
           (fun _ => ok_json (VDict [("correct", VBool true)])).

(** The endpoint rejects the first answer but names a next quiz, and
    accepts the second. *)
Definition env_wrong_then_done : Env :=
  env_with quiz_page (Ok "42") (Raise "no such file")
           (fun n => match n with
                     | O => ok_json (VDict [("correct", VBool false);
                                            ("reason", VStr "wrong");
                                            ("url", VStr "https://quiz.example/q2")])
                     | _ => ok_json (VDict [("correct", VBool true)])
                     end).


(** A page without any URL, and a model that is down. *)
Definition plain_page : string := "What is 6 times 7?".

Definition env_plain : Env :=
  env_with plain_page (Raise "model unavailable") (Raise "no such file")
           (fun _ => ok_json (VDict [("correct", VBool true)])).

(** A page whose submission URL goes on after [/submit]. *)
Definition query_page : string :=
  "Send your answer to https://quiz.example/submit?id=7 today".

(** A page whose submission URL is not an https URL. *)
Definition http_page : string :=
  "Send your answer to http://quiz.example/submit today".

(** The scraped page of the scenario. *)
Definition secret_page : string := "The secret code is 48213.".

Definition env_secret : Env :=
  env_with secret_page (Raise "model unavailable") (Raise "no such file")
           (fun _ => ok_json (VDict [("correct", VBool true)])).

(** The table of the scenario: four rows of one cell. *)
Definition scenario_rows : list (list Z) := [[1]; [15]; [22]; [3]]%Z.


Definition cutoff_label_page : string :=
  "Download https://quiz.example/data.csv and add up the numbers. Cutoff: 10".

Definition env_csv (page_text : string) : Env :=
  env_with page_text (Ok "40") (Ok (frame_of_rows 1 scenario_rows))
           (fun _ => ok_json (VDict [("correct", VBool true)])).

(** A page that gives the submission URL in a POST instruction, and
    one that names another URL before the submission URL. *)
Definition post_page : string :=
  "Question 1. POST to https://quiz.example/submit before noon".

Definition two_url_page : string :=
  "Read https://quiz.example/help first, then send to HTTPS://quiz.example/Submit today".

(** A scraped page whose words are a no-break space apart, and one with
    no number at all. *)
Definition nbsp : string := String (ascii_of_nat 160) "".

Definition nbsp_page : string := "The secret" ++ nbsp ++ "code is 123.".

Definition greeting_page : string := "  hello world " ++ String "010"%char "".

(** Every page shows [page_text]; the model is down. *)
Definition env_page (page_text : string) : Env :=
  env_with page_text (Raise "model unavailable") (Raise "no such file")
           (fun _ => ok_json (VDict [("correct", VBool true)])).

(** The CSV file holds the frame [df]; the model says 40. *)
Definition env_table (page_text : string) (df : DataFrame) : Env :=
  env_with page_text (Ok "40") (Ok df)
           (fun _ => ok_json (VDict [("correct", VBool true)])).


Definition big_frame : DataFrame :=
  [IntColumn [9223372036854775807; 1]%Z].

Definition cutoff_page (cutoff : string) : string :=
  "Download https://quiz.example/data.csv and add up the numbers. Cutoff: " ++ cutoff.

(** The model answers [text]; [float] reads 2.5 and nothing else. *)
Definition env_model (text : string) : Env :=
  {| page_goto := fun _ _ => Ok tt;
     page_read := fun _ _ => (Ok (quiz_page, "<html></html>"));
     generate_content := fun _ _ => Ok text;
     read_csv := fun _ _ => Raise "no such file";
     requests_post := fun _ _ _ => Ok (ok_json (VDict [("correct", VBool true)]));
     urljoin := fun _ ref => Ok ("https://quiz.example" ++ ref);
     py_float := fun s => if String.eqb s "2.5" then Some 2.5%float else None;
     float_sum := fun vals => fold_left PrimFloat.add vals 0%float |}.

(** An endpoint that cannot be reached. *)
Definition env_down : Env :=
  {| page_goto := fun _ _ => Raise "net::ERR_CONNECTION_REFUSED";
     page_read := fun _ _ => Raise "page closed";
     generate_content := fun _ _ => Raise "model unavailable";
     read_csv := fun _ _ => Raise "no such file";
     requests_post := fun _ _ _ => Raise "connection refused";
     urljoin := fun _ ref => Ok ("https://quiz.example" ++ ref);
     py_float := fun _ => None;
     float_sum := fun vals => fold_left PrimFloat.add vals 0%float |}.

End Examples.

(* ===================================================================== *)
(** ** The service endpoints *)
(* ===================================================================== *)

Module Service.
Import PyStr Re Py Quiz.
Local Open Scope py_scope.

(** The body of a POST to /solve. *)
Record QuizRequest := { email : string; secret : string; url : string }.

(** What an endpoint answers: a JSON body with its status, or the
    exception that the framework turns into an error response. *)
Inductive reply :=
| JSONResponse (status_code : Z) (content : value)
| HTTPException (status_code : Z) (detail : string).

(** GET / *)
Definition root : value :=
  VDict [("status", VStr "TDS Project 2 API is running");
         ("message", VStr "Send POST to /solve")].

(** [request.secret != MY_SECRET], where [MY_SECRET] is what
    [os.getenv] gave: [None] when the variable is not set. *)
Definition secret_differs (MY_SECRET : option string) (request : QuizRequest) : bool :=
  match MY_SECRET with
  | Some s => negb (String.eqb (secret request) s)
  | None => true
  end.

(** POST /solve: the reply and the background tasks added, each the
    arguments of a call of [solve_quiz_chain]. *)
Definition solve_quiz (MY_SECRET : option string) (request : QuizRequest)
  : reply * list (string * string * string) :=
  if secret_differs MY_SECRET request then
    (HTTPException 403 "Invalid secret", [])
  else
    (JSONResponse 200 (VDict [("status", VStr "accepted");
                              ("message", VStr "Quiz is being processed")]),
     [(email request, secret request, url request)]).

End Service.

(* ===================================================================== *)
(** ** Vocabulary of further properties *)
(* ===================================================================== *)

Module Props.
Import PyStr Re Py Quiz Spec.
Local Open Scope py_scope.

(** A computation only appends events that satisfy [P], and what it
    returns, if it returns, satisfies [Q]. *)
Definition emits {A} (P : event -> Prop) (Q : A -> Prop) (c : M A) : Prop :=
  forall tr, exists evs,
    snd (c tr) = (tr ++ evs)%list /\ Forall P evs /\
    forall a, fst (c tr) = Ok a -> Q a.

Definition only {A} (P : event -> Prop) (c : M A) : Prop :=
  emits P (fun _ => True) c.

(** A computation never raises, and what it returns satisfies [P]. *)
Definition returns {A} (P : A -> Prop) (c : M A) : Prop :=
  forall tr, exists a tr', c tr = (Ok a, tr') /\ P a.

Definition is_generate (e : event) : bool :=
  match e with EvGenerate _ => true | _ => false end.

Definition is_read_csv (e : event) : bool :=
  match e with EvReadCsv _ => true | _ => false end.

(** An answer is an integer, a float, a boolean or a string. *)
Definition scalar (v : value) : bool :=
  match v with
  | VInt _ | VFloat _ | VBool _ | VStr _ => true
  | _ => false
  end.

(** A submission carries the caller's email and secret, the URL of a
    quiz and a scalar answer: its payload is the dict of these four, under
    the keys email, secret, url and answer. *)
Definition carries (email secret : string) (e : event) : Prop :=
  match e with
  | EvPost _ payload =>
      exists quiz_url answer,
        payload = VDict [("email", VStr email); ("secret", VStr secret);
                         ("url", quiz_url); ("answer", answer)] /\
        scalar answer = true
  | _ => True
  end.

(** The result of a step that the driver takes as a result: a dict that
    is not empty. *)
Definition well_formed (result : value) : bool := truthy result && is_dict result.

(** The browser opens and reads every page. *)
Definition browser_works (E : Env) : Prop :=
  forall tr u, page_goto E tr u = Ok tt /\ exists page, page_read E tr u = Ok page.

(** No page can be opened. *)
Definition browser_down (E : Env) : Prop :=
  forall tr u, exists msg, page_goto E tr u = Raise msg.

(** [urljoin] never raises. *)
Definition urljoin_works (E : Env) : Prop :=
  forall base ref, exists u, urljoin E base ref = Ok u.

(** Every quiz step returns a result that names a next quiz. *)
Definition always_next (single : value -> M value) : Prop :=
  forall u tr, exists result tr',
    single u tr = (Ok result, tr') /\
    well_formed result = true /\ truthy (get result "url") = true.

(** [s] ends with the literal [l], up to the case of letters. *)
Definition ends_with_ci (l s : string) : Prop :=
  exists a w, s = (a ++ w)%string /\ lit_eq true l w = true.

(** What a match of a CSV pattern gives as the URL: group 1 if the
    pattern has one, else the whole match. *)
Definition csv_text (m : match_obj) : string :=
  match m_group1 m with Some g => g | None => m_group0 m end.

(** The characters that [strip] takes off a CSV URL: quotes,
    parentheses and angle brackets. *)
Definition csv_strip_set (c : ascii) : bool :=
  contains (String c "") (String dquote (String squote "()<>")).

(** The seconds an event sleeps, and the seconds slept in a trace. *)
Definition slept (e : event) : nat :=
  match e with EvSleep seconds => Z.to_nat seconds | _ => 0%nat end.

Definition sleep_total (tr : trace) : nat := list_sum (map slept tr).

(** A computation only appends to the trace, and sleeps at most [n]
    seconds in all. *)
Definition sleeps {A} (c : M A) (n : nat) : Prop :=
  forall tr, exists evs,
    snd (c tr) = (tr ++ evs)%list /\ (sleep_total evs <= n)%nat.

(** The first URL of a list that mentions submit, in any case. *)
Definition first_with_submit (urls : list string) : option string :=
  find (fun u => contains "submit" (lower u)) urls.

(** What a retry loop of [retries] attempts leaves when every attempt
    raises: the attempts with sleeps of five seconds between them.
    [attempts_trace n e] is [n] times the event [e]. *)
Fixpoint attempts_trace (n : nat) (e : event) : trace :=
  match n with
  | O => []
  | 1%nat => [e]
  | S n' => e :: EvSleep 5 :: attempts_trace n' e
  end.

(** The body of the fetch loop and of the submission loop, as in
    [fetch_page_with_playwright] and [post_with_retries]. *)
Definition fetch_body (E : Env) (url : value) (retries attempt : nat) : M (flow (string * string)) :=
  try_catch
    (r <- fetch_attempt E url ;; ret (Return r))
    (fun e => if Nat.ltb attempt (retries - 1)
              then sleep 5 ;;; ret Continue
              else raise e).

Definition post_body (E : Env) (u : string) (payload : value) (retries attempt : nat) : M (flow value) :=
  try_catch
    (v <- post_attempt E u payload ;; ret (Return v))
    (fun e => if Nat.ltb attempt (retries - 1)
              then sleep 5 ;;; ret Continue
              else ret (Return (failure e))).

End Props.

(* ===================================================================== *)
(** ** Further example environments *)
(* ===================================================================== *)

Module MoreExamples.
Import PyStr Re Py Quiz Spec Examples.

(** An endpoint that always names a next quiz. *)
Definition env_endless : Env :=
  env_with quiz_page (Ok "42") (Raise "no such file")
           (fun _ => ok_json (VDict [("correct", VBool true); ("url", q2)])).

(** An endpoint that answers with a server error. *)
Definition env_500 : Env :=
  env_with quiz_page (Ok "42") (Raise "no such file")
           (fun _ => {| status_code := 500; json := Raise "not JSON" |}).

(** An endpoint that answers with a JSON list. *)
Definition env_list : Env :=
  env_with quiz_page (Ok "42") (Raise "no such file")
           (fun _ => ok_json (VList [VInt 1])).

(** A page that links a CSV file but states no cutoff. *)
Definition csv_only_page : string :=
  "The data is at https://quiz.example/data.csv".

(** The model answers 40 and the file cannot be loaded. *)
Definition env_no_file : Env :=
  env_with csv_only_page (Ok "40") (Raise "no such file")
           (fun _ => ok_json (VDict [("correct", VBool true)])).

Definition submit_here : string := "https://quiz.example/submit".

(** A page with two URLs, the second with the word submit in capitals in
    its host and no [/submit] in its path. *)
Definition submit_host_page : string :=
  "Read https://quiz.example/help and answer at https://SUBMIT.quiz.example/form today".

End MoreExamples.
(* ===================================================================== *)
(** ** Facts about strings *)
(* ===================================================================== *)

Module StrFacts.
Import PyStr.

Lemma app_assoc (a b c : string) : (a ++ b) ++ c = a ++ (b ++ c).
Proof. induction a as [|x a IH]; simpl; [reflexivity | now rewrite IH]. Qed.

Lemma app_nil_r (a : string) : a ++ "" = a.
Proof. induction a as [|x a IH]; simpl; [reflexivity | now rewrite IH]. Qed.

Lemma length_app (a b : string) :
  String.length (a ++ b) = (String.length a + String.length b)%nat.
Proof. induction a as [|x a IH]; simpl; [reflexivity | now rewrite IH]. Qed.

Lemma app_inv_head (a b c : string) : a ++ b = a ++ c -> b = c.
Proof. induction a as [|x a IH]; simpl; intros H; [assumption|]. inversion H; auto. Qed.

Lemma take_app (w s : string) : take (String.length w) (w ++ s) = w.
Proof. induction w as [|x w IH]; simpl; [now destruct s | now rewrite IH]. Qed.

Lemma take_all (s : string) (n : nat) : (String.length s <= n)%nat -> take n s = s.
Proof.
  revert n; induction s as [|x s IH]; intros [|n] H; simpl in *; try reflexivity; try lia.
  rewrite IH by lia. reflexivity.
Qed.

Lemma length_take (n : nat) (s : string) :
  String.length (take n s) = Nat.min n (String.length s).
Proof.
  revert s; induction n as [|n IH]; intros [|x s]; simpl; try reflexivity.
  now rewrite IH.
Qed.

(** Two splits of one string at the same length are the same split. *)
Lemma app_split_eq (a b c d : string) :
  a ++ b = c ++ d -> String.length a = String.length c -> a = c /\ b = d.
Proof.
  revert c; induction a as [|x a IH]; intros [|y c] H L; simpl in *; try discriminate.
  - auto.
  - inversion H; subst. destruct (IH c H2) as [-> ->]; [lia | auto].
Qed.

(** The shorter of two prefixes of one string is a prefix of the longer. *)
Lemma app_split_le (a b c d : string) :
  a ++ b = c ++ d -> (String.length a <= String.length c)%nat ->
  exists m, c = a ++ m /\ b = m ++ d.
Proof.
  revert c; induction a as [|x a IH]; intros c H L; simpl in *.
  - exists c. auto.
  - destruct c as [|y c]; simpl in *; [lia|].
    inversion H; subst. destruct (IH c H2) as (m & -> & ->); [lia|].
    exists m. auto.
Qed.

Lemma all_chars_app (p : ascii -> bool) (a b : string) :
  all_chars p (a ++ b) = all_chars p a && all_chars p b.
Proof. induction a as [|x a IH]; simpl; [reflexivity|]. rewrite IH. now rewrite andb_assoc. Qed.

Lemma all_chars_impl (p q : ascii -> bool) (s : string) :
  (forall a, p a = true -> q a = true) -> all_chars p s = true -> all_chars q s = true.
Proof.
  intros H; induction s as [|x s IH]; simpl; [reflexivity|].
  rewrite andb_true_iff. intros [Hx Hs]. rewrite (H _ Hx). auto.
Qed.

Lemma nonempty_length (s : string) : nonempty s = true <-> (0 < String.length s)%nat.
Proof. destruct s; simpl; split; intros; try lia; try discriminate; reflexivity. Qed.

Lemma nonempty_neq (s : string) : nonempty s = true <-> s <> "".
Proof. destruct s; simpl; split; intros H; try congruence; try discriminate. Qed.

End StrFacts.
(* ===================================================================== *)
(** ** The string operations against the words of the specification *)
(* ===================================================================== *)

Module TextFacts.
Import PyStr Re Py Quiz Spec StrFacts.

(** *** Facts checked on every character *)

Lemma all_ascii_complete (p : ascii -> bool) :
  forallb p all_ascii = true -> forall a, p a = true.
Proof.
  intros H a. rewrite forallb_forall in H. apply H.
  unfold all_ascii. rewrite <- (ascii_nat_embedding a).
  apply in_map, in_seq. pose proof (nat_ascii_bounded a). lia.
Qed.

(** Lowering a character gives the small letter [x] exactly when the
    character is [x] or its capital. *)
Lemma lower_char_same_letter (x a : ascii) :
  between 97 122 x = true ->
  Ascii.eqb (lower_char a) x = same_letter x a.
Proof.
  intros Hx.
  assert (All : forallb (fun x => forallb (fun a =>
                  implb (between 97 122 x)
                        (Bool.eqb (Ascii.eqb (lower_char a) x) (same_letter x a)))
                  all_ascii) all_ascii = true) by (vm_compute; reflexivity).
  pose proof (all_ascii_complete _ (all_ascii_complete _ All x) a) as H.
  simpl in H. rewrite Hx in H. simpl in H. now apply Bool.eqb_prop.
Qed.

(** *** Words in any case of letters *)

Lemma lower_spells (l w : string) :
  all_chars (between 97 122) l = true ->
  String.eqb (lower w) l = spells l w.
Proof.
  revert w. induction l as [|x l IH]; intros [|a w] H; try reflexivity.
  simpl in H. apply andb_true_iff in H as [Hx Hl].
  simpl. rewrite (lower_char_same_letter x a Hx), (IH w Hl). reflexivity.
Qed.

Lemma lower_begins_with (l s : string) :
  all_chars (between 97 122) l = true ->
  startswith l (lower s) = begins_with l s.
Proof.
  revert s. induction l as [|x l IH]; intros [|a s] H; try reflexivity.
  simpl in H. apply andb_true_iff in H as [Hx Hl].
  simpl. rewrite (IH s Hl), Ascii.eqb_sym, (lower_char_same_letter x a Hx).
  reflexivity.
Qed.

Lemma lower_mentions (l s : string) :
  all_chars (between 97 122) l = true ->
  contains l (lower s) = mentions l s.
Proof.
  intros H. induction s as [|a s IH].
  - now destruct l.
  - change (lower (String a s)) with (String (lower_char a) (lower s)).
    change (contains l (String (lower_char a) (lower s)))
      with (startswith l (String (lower_char a) (lower s)) || contains l (lower s)).
    change (String (lower_char a) (lower s)) with (lower (String a s)).
    rewrite (lower_begins_with l (String a s) H), IH. reflexivity.
Qed.

(** *** Trimming *)

Lemma lstrip_split (p : ascii -> bool) (s : string) :
  exists lead,
    s = lead ++ lstrip_by p s /\ all_chars p lead = true /\
    match head_char (lstrip_by p s) with Some a => p a = false | None => True end.
Proof.
  induction s as [|c s (lead & Eq & A & H)].
  - exists "". repeat split.
  - simpl. destruct (p c) eqn:Pc.
    + exists (String c lead). simpl. rewrite Pc, A, <- Eq. repeat split. exact H.
    + exists "". simpl. repeat split. exact Pc.
Qed.

Lemma rstrip_split (p : ascii -> bool) (s : string) :
  exists trail,
    s = rstrip_by p s ++ trail /\ all_chars p trail = true /\
    match last_of None (rstrip_by p s) with Some a => p a = false | None => True end /\
    (rstrip_by p s <> "" -> head_char (rstrip_by p s) = head_char s).
Proof.
  induction s as [|c s (trail & Eq & A & L & _)].
  - exists "". repeat split.
  - simpl. destruct (rstrip_by p s) as [|d r] eqn:R.
    + simpl in Eq. subst s. destruct (p c) eqn:Pc.
      * exists (String c trail). simpl. rewrite Pc, A. repeat split. congruence.
      * exists trail. simpl. repeat split; auto.
    + exists trail. split; [simpl; f_equal; exact Eq|].
      split; [exact A|]. split; [exact L | reflexivity].
Qed.

Lemma strip_by_split (p : ascii -> bool) (s : string) :
  exists lead trail,
    s = lead ++ strip_by p s ++ trail /\
    all_chars p lead = true /\ all_chars p trail = true /\
    match head_char (strip_by p s) with Some a => p a = false | None => True end /\
    match last_of None (strip_by p s) with Some a => p a = false | None => True end.
Proof.
  unfold strip_by.
  destruct (lstrip_split p s) as (lead & Eq1 & A1 & H1).
  destruct (rstrip_split p (lstrip_by p s)) as (trail & Eq2 & A2 & L2 & H2).
  exists lead, trail. rewrite <- Eq2, <- Eq1. repeat split; auto.
  destruct (rstrip_by p (lstrip_by p s)) as [|d r] eqn:R; [exact I|].
  rewrite H2 by discriminate. exact H1.
Qed.

(** [strip] trims. *)
Lemma strip_trimmed (s : string) : trimmed s (strip s).
Proof.
  destruct (strip_by_split isspace s) as (lead & trail & Eq & A1 & A2 & H & L).
  exists lead, trail. fold (strip s) in *. repeat split; auto.
  - destruct (head_char (strip s)); [exact H | reflexivity].
  - destruct (last_of None (strip s)); [exact L | reflexivity].
Qed.

(** *** Quoting characters *)

Lemma remove_quoting_unquoted (s : string) :
  unquoted s (remove_char squote (remove_char dquote (remove_char backtick s))).
Proof.
  induction s as [|c s IH]; [constructor|].
  simpl. destruct (Ascii.eqb c backtick) eqn:B.
  - apply unquoted_drop; [|exact IH]. unfold is_quoting. simpl. now rewrite B.
  - simpl. destruct (Ascii.eqb c dquote) eqn:D.
    + apply unquoted_drop; [|exact IH]. unfold is_quoting. simpl.
      rewrite D. apply orb_true_r.
    + simpl. destruct (Ascii.eqb c squote) eqn:Q.
      * apply unquoted_drop; [|exact IH]. unfold is_quoting. simpl.
        rewrite Q. now rewrite !orb_true_r.
      * apply unquoted_keep; [|exact IH]. unfold is_quoting. simpl.
        now rewrite B, D, Q.
Qed.

(** *** The first characters of a text *)

Lemma take_first_chars (n : nat) (s : string) : first_chars n s (take n s).
Proof.
  revert s. induction n as [|n IH]; intros s.
  - exists s. split; [reflexivity|]. now left.
  - destruct s as [|c s].
    + exists "". split; [reflexivity|]. right. split; [reflexivity | simpl; lia].
    + destruct (IH s) as (more & Eq & H). exists more. simpl. split.
      * now rewrite <- Eq.
      * destruct H as [H | [H1 H2]]; [left; now rewrite H | right; split; [assumption | lia]].
Qed.

End TextFacts.
(* ===================================================================== *)
(** ** Facts about the matcher *)
(* ===================================================================== *)

Module ReFacts.
Import PyStr Re StrFacts.

Lemma consumed_app (w s : string) : consumed (w ++ s) s = w.
Proof.
  unfold consumed. rewrite length_app.
  replace (String.length w + String.length s - String.length s)%nat
    with (String.length w) by lia.
  apply take_app.
Qed.

Lemma last_of_app (p : option ascii) (a b : string) :
  last_of p (a ++ b) = last_of (last_of p a) b.
Proof. revert p; induction a as [|x a IH]; intros p; simpl; [reflexivity | apply IH]. Qed.

Lemma step_over_nil (c : cursor) : step_over c "" (rest c) = c.
Proof. destruct c; reflexivity. Qed.

Lemma step_over_step (c : cursor) (w1 w2 s : string) (s1 : string) :
  step_over (step_over c w1 s1) w2 s = step_over c (w1 ++ w2) s.
Proof. unfold step_over; simpl. now rewrite last_of_app. Qed.

(** *** One character, [n] characters, a literal *)

Lemma eat_inv p c c' :
  eat p c = Some c' ->
  exists a s', rest c = String a s' /\ p a = true /\
               c' = step_over c (String a "") s'.
Proof.
  unfold eat. destruct (rest c) as [|a s'] eqn:R; [discriminate|].
  destruct (p a) eqn:Pa; [|discriminate].
  intros H; inversion H; subst; simpl. exists a, s'. auto.
Qed.

Lemma eat_intro p c a s' :
  rest c = String a s' -> p a = true ->
  eat p c = Some (step_over c (String a "") s').
Proof. intros R Pa. unfold eat. rewrite R, Pa. reflexivity. Qed.

Lemma eat_n_inv p j c c' :
  eat_n p j c = Some c' ->
  exists w s', rest c = w ++ s' /\ String.length w = j /\
               all_chars p w = true /\ c' = step_over c w s'.
Proof.
  revert c; induction j as [|j IH]; intros c H; simpl in H.
  - inversion H; subst. exists "", (rest c'). simpl. now rewrite step_over_nil.
  - destruct (eat p c) as [c1|] eqn:E1; [|discriminate].
    destruct (eat_inv _ _ _ E1) as (a & s1 & R & Pa & Hc1). clear E1. subst c1.
    destruct (IH _ H) as (w & s' & R' & L & A & Hc'). subst c'.
    simpl in R'. exists (String a w), s'. simpl.
    rewrite R, R', Pa, L. repeat split; try reflexivity. assumption.
Qed.

Lemma eat_n_intro p w c s' :
  all_chars p w = true -> rest c = w ++ s' ->
  eat_n p (String.length w) c = Some (step_over c w s').
Proof.
  revert c; induction w as [|a w IH]; intros c A R; simpl in *.
  - rewrite <- R. now rewrite step_over_nil.
  - apply andb_true_iff in A as [Pa A].
    rewrite (eat_intro p c a (w ++ s') R Pa).
    rewrite (IH (step_over c (String a "") (w ++ s')) A eq_refl). reflexivity.
Qed.

Lemma eat_lit_inv ic l c c' :
  eat_lit ic l c = Some c' ->
  exists w s', rest c = w ++ s' /\ lit_eq ic l w = true /\
               c' = step_over c w s'.
Proof.
  revert c; induction l as [|x l IH]; intros c H; simpl in H.
  - inversion H; subst. exists "", (rest c'). simpl. now rewrite step_over_nil.
  - destruct (eat (char_eq ic x) c) as [c1|] eqn:E1; [|discriminate].
    destruct (eat_inv _ _ _ E1) as (a & s1 & R & Pa & Hc1). clear E1. subst c1.
    destruct (IH _ H) as (w & s' & R' & A & Hc'). subst c'.
    simpl in R'. exists (String a w), s'. simpl.
    rewrite R, R', Pa, A. repeat split; reflexivity.
Qed.

Lemma eat_lit_intro ic l w c s' :
  lit_eq ic l w = true -> rest c = w ++ s' ->
  eat_lit ic l c = Some (step_over c w s').
Proof.
  revert w c; induction l as [|x l IH]; intros [|a w] c A R; simpl in *; try discriminate.
  - rewrite <- R. now rewrite step_over_nil.
  - apply andb_true_iff in A as [Pa A].
    rewrite (eat_intro _ c a (w ++ s') R Pa).
    rewrite (IH w (step_over c (String a "") (w ++ s')) A eq_refl). reflexivity.
Qed.

Lemma lit_eq_length ic l w : lit_eq ic l w = true -> String.length w = String.length l.
Proof.
  revert w; induction l as [|x l IH]; intros [|a w] H; simpl in *; try discriminate; auto.
  apply andb_true_iff in H as [_ H]. now rewrite (IH _ H).
Qed.

Lemma lit_eq_refl ic l : lit_eq ic l l = true.
Proof.
  induction l as [|x l IH]; simpl; [reflexivity|]. rewrite IH.
  unfold char_eq. destruct ic; now rewrite Ascii.eqb_refl.
Qed.

(** A literal that fails on the text fails at every cursor over it. *)
Lemma eat_lit_none ic l c :
  (forall w s', rest c = w ++ s' -> lit_eq ic l w = false) ->
  eat_lit ic l c = None.
Proof.
  intros H. destruct (eat_lit ic l c) as [c'|] eqn:E; [|reflexivity].
  destruct (eat_lit_inv _ _ _ _ E) as (w & s' & R & A & _).
  rewrite (H _ _ R) in A. discriminate.
Qed.

(** *** Runs *)

Lemma run_length_app p w s :
  all_chars p w = true -> stops p s = true ->
  run_length p (w ++ s) = String.length w.
Proof.
  intros A S. induction w as [|a w IH]; simpl in *.
  - destruct s as [|b s]; simpl in *; [reflexivity|].
    now destruct (p b).
  - apply andb_true_iff in A as [Pa A]. rewrite Pa. now rewrite IH.
Qed.

Lemma run_length_ge p w s :
  all_chars p w = true -> (String.length w <= run_length p (w ++ s))%nat.
Proof.
  intros A. induction w as [|a w IH]; simpl in *; [lia|].
  apply andb_true_iff in A as [Pa A]. rewrite Pa. specialize (IH A). lia.
Qed.

Lemma eat_n_le_run p j c c' :
  eat_n p j c = Some c' -> (j <= run_length p (rest c))%nat.
Proof.
  intros H. destruct (eat_n_inv _ _ _ _ H) as (w & s' & R & L & A & _).
  rewrite R, <- L. now apply run_length_ge.
Qed.

(** *** Greedy repeats *)

Section Repeat.
Context {R : Type}.
Variables (p : ascii -> bool) (c : cursor) (k : cursor -> option R).

Lemma backoff_inv min extra x :
  backoff p min extra c k = Some x ->
  exists j, (min <= j <= min + extra)%nat /\ attempt_at p c k j = Some x.
Proof.
  induction extra as [|e IH]; simpl; intros H.
  - exists min. split; [lia | exact H].
  - destruct (attempt_at p c k (min + S e)%nat) eqn:T.
    + inversion H; subst. exists (min + S e)%nat. split; [lia | exact T].
    + destruct (IH H) as (j & ? & ?). exists j. split; [lia | assumption].
Qed.

(** The longest count at which the continuation succeeds wins. *)
Lemma backoff_greedy min extra j x :
  (min <= j <= min + extra)%nat -> attempt_at p c k j = Some x ->
  (forall j', (j < j' <= min + extra)%nat -> attempt_at p c k j' = None) ->
  backoff p min extra c k = Some x.
Proof.
  induction extra as [|e IH]; simpl; intros B T N.
  - replace min with j by lia. exact T.
  - destruct (Nat.eq_dec j (min + S e)) as [->|Ne].
    + now rewrite T.
    + rewrite N by lia. apply IH; [lia | assumption |].
      intros j' Hj'. apply N. lia.
Qed.

Lemma backoff_complete min extra j :
  (min <= j <= min + extra)%nat -> attempt_at p c k j <> None ->
  backoff p min extra c k <> None.
Proof.
  induction extra as [|e IH]; simpl; intros B T.
  - replace min with j by lia. exact T.
  - destruct (attempt_at p c k (min + S e)%nat) eqn:T'; [discriminate|].
    apply IH; [|assumption].
    destruct (Nat.eq_dec j (min + S e)) as [->|Ne]; [congruence | lia].
Qed.

Lemma many_inv min x :
  many p min c k = Some x ->
  exists j c', (min <= j)%nat /\ eat_n p j c = Some c' /\ k c' = Some x.
Proof.
  unfold many. destruct (Nat.leb min (run_length p (rest c))) eqn:L; [|discriminate].
  intros H. destruct (backoff_inv _ _ _ H) as (j & B & T).
  unfold attempt_at in T. destruct (eat_n p j c) as [c'|] eqn:E; [|discriminate].
  exists j, c'. repeat split; try assumption; lia.
Qed.

Lemma many_greedy min j c' x :
  (min <= j)%nat -> eat_n p j c = Some c' -> k c' = Some x ->
  (forall j' c'', (j < j')%nat -> eat_n p j' c = Some c'' -> k c'' = None) ->
  many p min c k = Some x.
Proof.
  intros B E K N. unfold many.
  pose proof (eat_n_le_run _ _ _ _ E) as Le.
  replace (Nat.leb min (run_length p (rest c))) with true
    by (symmetry; apply Nat.leb_le; lia).
  apply backoff_greedy with (j := j).
  - lia.
  - unfold attempt_at. now rewrite E.
  - intros j' Hj'. unfold attempt_at.
    destruct (eat_n p j' c) as [c''|] eqn:E'; [|reflexivity].
    apply (N j' c''); [lia | assumption].
Qed.

Lemma many_complete min j c' :
  (min <= j)%nat -> eat_n p j c = Some c' -> k c' <> None ->
  many p min c k <> None.
Proof.
  intros B E K. unfold many.
  pose proof (eat_n_le_run _ _ _ _ E) as Le.
  replace (Nat.leb min (run_length p (rest c))) with true
    by (symmetry; apply Nat.leb_le; lia).
  apply backoff_complete with (j := j); [lia|].
  unfold attempt_at. now rewrite E.
Qed.
End Repeat.

(** When the rest of the pattern cannot fail, a repeat takes the whole
    run. *)
Lemma many_total {R} p min c (k : cursor -> option R) w s' x :
  rest c = w ++ s' -> all_chars p w = true -> stops p s' = true ->
  (min <= String.length w)%nat ->
  k (step_over c w s') = Some x ->
  many p min c k = Some x.
Proof.
  intros Rc A S B K.
  apply many_greedy with (j := String.length w) (c' := step_over c w s'); auto.
  - now apply eat_n_intro.
  - intros j' c'' Lt E. apply eat_n_le_run in E.
    rewrite Rc, (run_length_app _ _ _ A S) in E. lia.
Qed.

(** *** Scanning *)

Lemma search_from_inv ic r s : forall pos p m,
  search_from ic r pos p s = Some m ->
  exists pre suf,
    s = pre ++ suf /\
    match_at ic r (pos + String.length pre) (last_of p pre) suf = Some m /\
    (forall pre' suf', s = pre' ++ suf' ->
       (String.length pre' < String.length pre)%nat ->
       match_at ic r (pos + String.length pre') (last_of p pre') suf' = None).
Proof.
  induction s as [|a s IH]; intros pos p m H; simpl in H.
  - destruct (match_at ic r pos p "") eqn:M; [|discriminate].
    inversion H; subst. exists "", "". simpl. rewrite Nat.add_0_r.
    repeat split; auto. intros ? ? _ L. simpl in L. lia.
  - destruct (match_at ic r pos p (String a s)) eqn:M.
    + inversion H; subst. exists "", (String a s). simpl. rewrite Nat.add_0_r.
      repeat split; auto. intros ? ? _ L. simpl in L. lia.
    + destruct (IH _ _ _ H) as (pre & suf & -> & Hm & Hn).
      exists (String a pre), suf. simpl.
      replace (pos + S (String.length pre))%nat with (S pos + String.length pre)%nat by lia.
      repeat split; auto.
      intros [|b pre'] suf' Eq L; simpl in *.
      * subst suf'. now rewrite Nat.add_0_r.
      * inversion Eq; subst.
        replace (pos + S (String.length pre'))%nat
          with (S pos + String.length pre')%nat by lia.
        apply Hn; [assumption | lia].
Qed.

Lemma search_from_intro ic r pre suf : forall pos p m,
  match_at ic r (pos + String.length pre) (last_of p pre) suf = Some m ->
  (forall pre' suf', pre ++ suf = pre' ++ suf' ->
     (String.length pre' < String.length pre)%nat ->
     match_at ic r (pos + String.length pre') (last_of p pre') suf' = None) ->
  search_from ic r pos p (pre ++ suf) = Some m.
Proof.
  induction pre as [|a pre IH]; intros pos p m Hm Hn; simpl in *.
  - rewrite Nat.add_0_r in Hm. destruct suf; simpl; now rewrite Hm.
  - pose proof (Hn "" (String a (pre ++ suf)) eq_refl) as H0.
    simpl in H0. rewrite Nat.add_0_r in H0. rewrite H0 by lia.
    apply IH.
    + now replace (S pos + String.length pre)%nat with (pos + S (String.length pre))%nat by lia.
    + intros pre' suf' Eq L.
      replace (S pos + String.length pre')%nat
        with (pos + String.length (String a pre'))%nat by (simpl; lia).
      apply (Hn (String a pre') suf'); simpl; [now rewrite Eq | lia].
Qed.

Lemma search_from_none ic r s : forall pos p,
  search_from ic r pos p s = None ->
  forall pre suf, s = pre ++ suf ->
    match_at ic r (pos + String.length pre) (last_of p pre) suf = None.
Proof.
  induction s as [|a s IH]; intros pos p H pre suf Eq; simpl in H.
  - destruct pre; [|discriminate]. simpl in *. subst suf.
    rewrite Nat.add_0_r. destruct (match_at ic r pos p ""); [discriminate | reflexivity].
  - destruct (match_at ic r pos p (String a s)) eqn:M; [discriminate|].
    destruct pre as [|b pre]; simpl in *.
    + subst suf. now rewrite Nat.add_0_r.
    + inversion Eq; subst.
      replace (pos + S (String.length pre))%nat with (S pos + String.length pre)%nat by lia.
      now apply IH.
Qed.

(** Failure of the matcher does not depend on what the continuation
    returns, only on where it fails. *)
Lemma rmatch_none_ext {R1 R2} ic (r : regex) :
  forall (c : cursor) (k1 : cursor -> option R1) (k2 : cursor -> option R2),
    (forall c', k1 c' = None -> k2 c' = None) ->
    rmatch ic r c k1 = None -> rmatch ic r c k2 = None.
Proof.
  induction r; intros c k1 k2 Hk; simpl.
  - destruct (eat_lit ic s c); auto.
  - destruct (eat (cs_mem ic cs) c); auto.
  - intros H1. destruct (many (cs_mem ic cs) min c k2) eqn:H2; [|reflexivity].
    destruct (many_inv _ _ _ _ _ H2) as (j & c' & B & E & K).
    exfalso. apply (many_complete (cs_mem ic cs) c k1 min j c' B E); [|assumption].
    intros K1. apply Hk in K1. congruence.
  - apply IHr1. intros c'. apply IHr2. assumption.
  - destruct (rmatch ic r c k1) eqn:H1; [discriminate|].
    intros H. rewrite (IHr c k1 k2 Hk H1). auto.
  - apply IHr. intros c'. apply Hk.
  - destruct (at_boundary c); auto.
Qed.

(** Whether a match exists at a position does not depend on its number. *)
Lemma match_at_pos ic r pos pos' p s :
  match_at ic r pos p s = None -> match_at ic r pos' p s = None.
Proof.
  unfold match_at. apply rmatch_none_ext. intros c' H. discriminate H.
Qed.

End ReFacts.

(* ===================================================================== *)
(** ** What the program's patterns match *)
(* ===================================================================== *)

Module PatternFacts.
Import PyStr Re Py Quiz Spec StrFacts ReFacts.

(** Read one piece of a pattern off a successful match. *)
Ltac inv_piece H :=
  lazymatch type of H with
  | match eat_lit ?ic ?l ?c with _ => _ end = Some _ =>
      let c' := fresh "c" in let E := fresh "E" in
      let w := fresh "w" in let s' := fresh "s" in
      let R := fresh "R" in let L := fresh "L" in
      destruct (eat_lit ic l c) as [c'|] eqn:E; [|discriminate H];
      apply eat_lit_inv in E; destruct E as (w & s' & R & L & E);
      subst c'; cbn [rest prev group1 step_over set_group] in R, H
  | match eat ?p ?c with _ => _ end = Some _ =>
      let c' := fresh "c" in let E := fresh "E" in
      let a := fresh "a" in let s' := fresh "s" in
      let R := fresh "R" in let L := fresh "L" in
      destruct (eat p c) as [c'|] eqn:E; [|discriminate H];
      apply eat_inv in E; destruct E as (a & s' & R & L & E);
      subst c'; cbn [rest prev group1 step_over set_group] in R, H
  | many ?p ?n ?c ?k = Some _ =>
      let j := fresh "j" in let c' := fresh "c" in
      let B := fresh "B" in let E := fresh "E" in
      let w := fresh "w" in let s' := fresh "s" in
      let R := fresh "R" in let Lw := fresh "Lw" in let A := fresh "A" in
      apply many_inv in H; destruct H as (j & c' & B & E & H);
      apply eat_n_inv in E; destruct E as (w & s' & R & Lw & A & E);
      subst c'; subst j; cbn [rest prev group1 step_over set_group] in R, H
  | (if at_boundary ?c then _ else _) = Some _ =>
      let Bd := fresh "Bd" in
      destruct (at_boundary c) eqn:Bd; [|discriminate H];
      cbn [rest prev group1 step_over set_group] in Bd
  | match ?X with Some _ => _ | None => _ end = Some _ =>
      let HX := fresh "HX" in
      destruct X eqn:HX;
      [ inversion H; subst; clear H; rename HX into H | clear HX ]
  end.

Ltac inv_match H :=
  unfold match_at in H; cbn [rmatch seq_of] in H;
  cbn [rest prev group1] in H; repeat inv_piece H.

Lemma lit_eq_nonempty ic l w :
  lit_eq ic l w = true -> l <> "" -> w <> "".
Proof. destruct l, w; simpl; congruence. Qed.

(** Without the case flag a literal matches itself only. *)
Lemma lit_eq_true_eq l w : lit_eq false l w = true -> w = l.
Proof.
  revert w; induction l as [|x l IH]; intros [|a w] H; simpl in *; try discriminate; auto.
  apply andb_true_iff in H as [E H]. apply Ascii.eqb_eq in E. subst.
  now rewrite (IH _ H).
Qed.

Lemma length_pos_neq (w : string) : (1 <= String.length w)%nat -> w <> "".
Proof. destruct w; simpl; [lia | discriminate]. Qed.

(** A match of the second pattern: the scheme, a run of URL characters
    and the word submit after a slash; group 1 is the whole match. *)
Lemma submit_url_match pos p s m :
  match_at true re_submit_url pos p s = Some m ->
  exists w1 w2 w3,
    s = w1 ++ w2 ++ w3 ++ m_rest m /\
    lit_eq true "https://" w1 = true /\
    w2 <> "" /\ all_chars (cs_mem true url_char) w2 = true /\
    lit_eq true "/submit" w3 = true /\
    m_group1 m = Some (w1 ++ w2 ++ w3) /\
    m_group0 m = w1 ++ w2 ++ w3.
Proof.
  intros H. unfold re_submit_url in H. inv_match H.
  inversion H; subst; clear H. cbn.
  exists w, w0, w1. subst.
  rewrite <- !app_assoc, !consumed_app. rewrite !app_assoc.
  repeat split; auto using length_pos_neq.
Qed.

(** A match of the first pattern sets group 1 to a text that is not
    empty. *)
Lemma post_submit_match pos p s m :
  match_at true re_post_submit pos p s = Some m ->
  exists g, m_group1 m = Some g /\ g <> "".
Proof.
  intros H. unfold re_post_submit in H. inv_match H;
    inversion H; subst; clear H; cbn;
    (eexists; split; [reflexivity|]);
    rewrite <- !app_assoc, consumed_app;
    apply length_pos_neq; rewrite !length_app; lia.
Qed.

(** A match of the URL pattern is not empty. *)
Lemma https_url_match pos p s m :
  match_at false re_https_url pos p s = Some m ->
  exists w1 w2,
    s = w1 ++ w2 ++ m_rest m /\ lit_eq false "https://" w1 = true /\
    w2 <> "" /\ m_group0 m = w1 ++ w2.
Proof.
  intros H. unfold re_https_url in H. inv_match H.
  inversion H; subst; clear H. cbn.
  exists w, w0. subst. rewrite <- !app_assoc, !consumed_app.
  repeat split; auto using length_pos_neq.
Qed.

(** What [search] finds is a match at some split of the subject. *)
Lemma search_inv ic r s m :
  search ic r s = Some m ->
  exists pre suf,
    s = pre ++ suf /\
    match_at ic r (String.length pre) (last_of None pre) suf = Some m /\
    (forall pre' suf', s = pre' ++ suf' ->
       (String.length pre' < String.length pre)%nat ->
       forall pos, match_at ic r pos (last_of None pre') suf' = None).
Proof.
  unfold search. intros H.
  destruct (search_from_inv _ _ _ _ _ _ H) as (pre & suf & -> & Hm & Hn).
  exists pre, suf. repeat split; auto.
  intros pre' suf' Eq Lt pos. eapply match_at_pos. now apply Hn.
Qed.

Lemma search_none ic r pre suf :
  search ic r (pre ++ suf) = None ->
  forall pos, match_at ic r pos (last_of None pre) suf = None.
Proof.
  unfold search. intros H pos.
  eapply match_at_pos. now apply (search_from_none _ _ _ _ _ H pre suf).
Qed.

Lemma search_intro ic r pre suf m :
  match_at ic r (String.length pre) (last_of None pre) suf = Some m ->
  (forall pre' suf', pre ++ suf = pre' ++ suf' ->
     (String.length pre' < String.length pre)%nat ->
     match_at ic r 0 (last_of None pre') suf' = None) ->
  search ic r (pre ++ suf) = Some m.
Proof.
  intros Hm Hn. unfold search. apply search_from_intro; [exact Hm|].
  intros pre' suf' Eq Lt. eapply match_at_pos. now apply Hn.
Qed.


(** *** Literals as prefixes and occurrences *)

Lemma prefix_eq_intro ic l w z :
  lit_eq ic l w = true -> prefix_eq ic l (w ++ z) = true.
Proof.
  revert w; induction l as [|x l IH]; intros [|a w] H; simpl in *; try discriminate; auto.
  apply andb_true_iff in H as [-> H]. now rewrite IH.
Qed.

Lemma prefix_eq_false ic l s w z :
  prefix_eq ic l s = false -> s = w ++ z -> lit_eq ic l w = false.
Proof.
  intros H ->. destruct (lit_eq ic l w) eqn:L; [|reflexivity].
  now rewrite (prefix_eq_intro _ _ _ z L) in H.
Qed.

Lemma eat_lit_fails ic l c :
  prefix_eq ic l (rest c) = false -> eat_lit ic l c = None.
Proof.
  intros H. apply eat_lit_none. intros w s' R. eapply prefix_eq_false; eauto.
Qed.

Lemma occurs_intro ic l a b :
  prefix_eq ic l b = true -> occurs ic l (a ++ b) = true.
Proof.
  intros H. induction a as [|x a IH]; simpl.
  - destruct b; simpl in *; now rewrite H.
  - rewrite IH. apply orb_true_r.
Qed.

Lemma lit_eq_any_case l w : lit_eq false l w = true -> lit_eq true l w = true.
Proof.
  revert w; induction l as [|x l IH]; intros [|a w] H; simpl in *; try discriminate; auto.
  apply andb_true_iff in H as [E H]. apply Ascii.eqb_eq in E. subst.
  now rewrite Ascii.eqb_refl, IH.
Qed.

(** A text in which the scheme does not occur, in any case of letters,
    has no match of the second pattern and no URL. *)
Lemma no_scheme_no_url (s : string) :
  occurs true "https://" s = false ->
  search true re_submit_url s = None /\
  search false re_https_url s = None /\
  findall false re_https_url s = [].
Proof.
  intros O.
  assert (S2 : search true re_submit_url s = None).
  { destruct (search true re_submit_url s) as [m|] eqn:S; [|reflexivity].
    destruct (search_inv _ _ _ _ S) as (pre & suf & -> & Hm & _).
    destruct (submit_url_match _ _ _ _ Hm) as (w1 & w2 & w3 & -> & L & _).
    rewrite (occurs_intro true "https://" pre _ (prefix_eq_intro _ _ _ _ L)) in O.
    discriminate. }
  assert (S3 : search false re_https_url s = None).
  { destruct (search false re_https_url s) as [m|] eqn:S; [|reflexivity].
    destruct (search_inv _ _ _ _ S) as (pre & suf & -> & Hm & _).
    destruct (https_url_match _ _ _ _ Hm) as (w1 & w2 & -> & L & _).
    apply lit_eq_any_case in L.
    rewrite (occurs_intro true "https://" pre _ (prefix_eq_intro _ _ _ _ L)) in O.
    discriminate. }
  repeat split; auto.
  unfold findall. cbn [findall_from]. unfold search in S3. now rewrite S3.
Qed.

(** A text in which the word POST does not occur, in any case of
    letters, has no match of the first pattern. *)
Lemma no_post_word (s : string) :
  occurs true "POST" s = false -> search true re_post_submit s = None.
Proof.
  intros O. destruct (search true re_post_submit s) as [m|] eqn:S; [|reflexivity].
  destruct (search_inv _ _ _ _ S) as (pre & suf & -> & Hm & _).
  unfold match_at, re_post_submit in Hm. cbn [rmatch seq_of] in Hm.
  cbn [rest prev group1] in Hm. inv_piece Hm. subst suf.
  rewrite (occurs_intro true "POST" pre _ (prefix_eq_intro _ _ _ _ L)) in O.
  discriminate.
Qed.

(** A literal made of characters of a class cannot match across the end
    of a run of the class. *)
Lemma prefix_eq_in_run ic p post : forall l r,
  (forall x a, In x (list_ascii_of_string l) -> char_eq ic x a = true -> p a = true) ->
  stops p post = true ->
  prefix_eq ic l (r ++ post) = true -> prefix_eq ic l r = true.
Proof.
  induction l as [|x l IH]; intros r Hl St H; [reflexivity|].
  destruct r as [|a r]; simpl in *.
  - destruct post as [|b post]; [discriminate|]. simpl in *.
    apply andb_true_iff in H as [H _].
    rewrite (Hl x b (or_introl eq_refl) H) in St. discriminate.
  - apply andb_true_iff in H as [-> H]. simpl.
    apply IH; auto. intros y b Hy. apply Hl. now right.
Qed.

(** A run of a class inside a text ends where the text's own run ends. *)
Lemma run_within p w s r post :
  all_chars p w = true -> all_chars p r = true -> stops p post = true ->
  w ++ s = r ++ post ->
  exists r', r = w ++ r' /\ s = r' ++ post.
Proof.
  intros Aw Ar St Eq.
  assert (Le : (String.length w <= String.length r)%nat).
  { rewrite <- (run_length_app p r post Ar St), <- Eq. now apply run_length_ge. }
  destruct (app_split_le w s r post Eq Le) as (m & -> & ->).
  now exists m.
Qed.

Lemma submit_chars_are_url_chars x a :
  In x (list_ascii_of_string "/submit") -> char_eq true x a = true ->
  cs_mem true url_char a = true.
Proof.
  simpl. intros [<-|[<-|[<-|[<-|[<-|[<-|[<-|[]]]]]]]];
    destruct a as [[] [] [] [] [] [] [] []]; vm_compute; congruence.
Qed.

(** *** Runs taken whole *)

Lemma run_split p s :
  exists w s', s = w ++ s' /\ all_chars p w = true /\ stops p s' = true.
Proof.
  induction s as [|a s IH].
  - exists "", "". auto.
  - destruct (p a) eqn:Pa.
    + destruct IH as (w & s' & -> & A & St).
      exists (String a w), s'. simpl. rewrite Pa. auto.
    + exists "", (String a s). simpl. rewrite Pa. auto.
Qed.

(** *** Where the second pattern can match *)

Lemma lit_eq_chars ic (p : ascii -> bool) : forall l w,
  (forall x a, In x (list_ascii_of_string l) -> char_eq ic x a = true -> p a = true) ->
  lit_eq ic l w = true -> all_chars p w = true.
Proof.
  induction l as [|x l IH]; intros [|a w] Hl H; simpl in *; try discriminate; auto.
  apply andb_true_iff in H as [Hx H].
  rewrite (Hl x a (or_introl eq_refl) Hx). simpl.
  apply IH; auto. intros y b Hy. apply Hl. now right.
Qed.

Lemma drop_app (w s : string) : drop (String.length w) (w ++ s) = s.
Proof. induction w as [|c w IH]; [now destruct s|]. simpl. exact IH. Qed.

(** The text at a match of the second pattern begins with a submit
    URL. *)
Lemma submit_url_here_intro w1 w2 w3 r :
  lit_eq true "https://" w1 = true ->
  w2 <> "" -> all_chars (cs_mem true url_char) w2 = true ->
  lit_eq true "/submit" w3 = true ->
  submit_url_here (w1 ++ w2 ++ w3 ++ r) = true.
Proof.
  intros L1 N2 A2 L3. unfold submit_url_here.
  rewrite (prefix_eq_intro _ _ _ _ L1), andb_true_l.
  pose proof (lit_eq_length _ _ _ L1) as Len.
  change (String.length "https://") with 8%nat in Len.
  rewrite <- Len, drop_app.
  destruct (run_split (cs_mem true url_char) r) as (r1 & r2 & -> & A1 & St).
  assert (A3 : all_chars (cs_mem true url_char) w3 = true).
  { apply (lit_eq_chars true _ "/submit" w3 submit_chars_are_url_chars L3). }
  assert (Run : url_run (w2 ++ w3 ++ r1 ++ r2) = w2 ++ w3 ++ r1).
  { unfold url_run.
    replace (w2 ++ w3 ++ r1 ++ r2) with ((w2 ++ w3 ++ r1) ++ r2)
      by (now rewrite !app_assoc).
    rewrite run_length_app; [apply take_app | | exact St].
    rewrite !all_chars_app, A2, A3, A1. reflexivity. }
  rewrite Run. destruct w2 as [|c w2]; [congruence|].
  change (drop 1 (String c w2 ++ w3 ++ r1)) with (w2 ++ w3 ++ r1).
  apply occurs_intro. now apply prefix_eq_intro.
Qed.

Lemma submit_url_before_intro : forall pre' suf' n,
  (String.length pre' < n)%nat ->
  submit_url_here suf' = true ->
  submit_url_before n (pre' ++ suf') = true.
Proof.
  induction pre' as [|c pre' IH]; intros suf' n Lt H.
  - destruct n as [|n]; [lia|]. destruct suf' as [|a suf'].
    + discriminate H.
    + cbn [append submit_url_before]. now rewrite H.
  - destruct n as [|n]; [simpl in Lt; lia|].
    cbn [append submit_url_before]. rewrite (IH suf' n); [apply orb_true_r| |exact H].
    simpl in Lt. lia.
Qed.

(** The second pattern on a text in which the first https URL that
    holds a [/submit] has a last [/submit]: the match is that URL up to and
    including it.  The scheme and the [/submit] are in any case of
    letters. *)
Lemma submit_url_found pre scheme body sub tail post :
  lit_eq true "https://" scheme = true ->
  lit_eq true "/submit" sub = true ->
  body <> "" ->
  all_chars (cs_mem true url_char) body = true ->
  all_chars (cs_mem true url_char) tail = true ->
  stops (cs_mem true url_char) post = true ->
  occurs true "/submit" (drop 1 sub ++ tail) = false ->
  submit_url_before (String.length pre)
    (pre ++ scheme ++ body ++ sub ++ tail ++ post) = false ->
  exists m,
    search true re_submit_url
           (pre ++ scheme ++ body ++ sub ++ tail ++ post) = Some m /\
    m_group1 m = Some (scheme ++ body ++ sub).
Proof.
  intros Ls Lsub Nb Ab At St Last First.
  set (s1 := body ++ sub ++ tail ++ post).
  set (c0 := {| prev := last_of None pre; rest := scheme ++ s1; group1 := None |}).
  set (c1 := step_over c0 scheme s1).
  set (c2 := step_over c1 body (sub ++ tail ++ post)).
  set (c3 := step_over c2 sub (tail ++ post)).
  eexists. split.
  - apply search_intro.
    + unfold match_at, re_submit_url. cbn [rmatch seq_of]. fold c0.
      rewrite (eat_lit_intro true "https://" scheme c0 s1 Ls eq_refl).
      fold c1.
      apply many_greedy with (j := String.length body) (c' := c2).
      * destruct body; [congruence | simpl; lia].
      * now apply eat_n_intro.
      * rewrite (eat_lit_intro true "/submit" sub c2 (tail ++ post) Lsub eq_refl).
        reflexivity.
      * intros j' c'' Lt E.
        apply eat_n_inv in E. destruct E as (w & s'' & R & Lw & Aw & ->).
        subst j'. cbn [rest c1 step_over] in R. unfold s1 in R.
        assert (Le : (String.length body <= String.length w)%nat) by lia.
        destruct (app_split_le body _ w s'' R Le) as (a & -> & Eq).
        rewrite all_chars_app in Aw. apply andb_true_iff in Aw as [_ Aa].
        assert (Na : a <> "").
        { intros ->. rewrite app_nil_r in Lt. lia. }
        assert (Ar : all_chars (cs_mem true url_char) (sub ++ tail) = true).
        { rewrite all_chars_app, At.
          now rewrite (lit_eq_chars true _ "/submit" sub submit_chars_are_url_chars Lsub). }
        rewrite <- (app_assoc sub tail post) in Eq. symmetry in Eq.
        destruct (run_within _ a s'' (sub ++ tail) post Aa Ar St Eq)
          as (r' & Er & ->).
        rewrite eat_lit_fails; [reflexivity|]. cbn [rest step_over].
        destruct (prefix_eq true "/submit" (r' ++ post)) eqn:P; [|reflexivity].
        exfalso.
        apply (prefix_eq_in_run true _ post "/submit" r'
                 submit_chars_are_url_chars St) in P.
        destruct a as [|x a]; [congruence|].
        destruct sub as [|y sub']; [discriminate Lsub|].
        simpl in Er. inversion Er; subst x.
        assert (X : drop 1 (String y sub') ++ tail = a ++ r') by exact H1.
        rewrite X, (occurs_intro true "/submit" a r' P) in Last.
        discriminate.
    + intros pre' suf' Eq Lt.
      destruct (match_at true re_submit_url 0 (last_of None pre') suf') as [m|] eqn:Hm;
        [|reflexivity].
      exfalso.
      destruct (submit_url_match _ _ _ _ Hm) as (w1 & w2 & w3 & Es & L1 & N2 & A2 & L3 & _).
      pose proof (submit_url_here_intro w1 w2 w3 (m_rest m) L1 N2 A2 L3) as Here.
      rewrite <- Es in Here.
      pose proof (submit_url_before_intro pre' suf' _ Lt Here) as B.
      rewrite <- Eq in B. unfold s1 in B. rewrite B in First. discriminate.
  - cbn [m_group1 group1 set_group step_over rest]. unfold c0, s1.
    cbn [m_group1 group1 set_group step_over rest]. f_equal.
    replace (scheme ++ body ++ sub ++ tail ++ post)
      with ((scheme ++ body ++ sub) ++ (tail ++ post)).
    + apply consumed_app.
    + rewrite !app_assoc. reflexivity.
Qed.

(** A repeat before a continuation that cannot fail takes its whole run. *)
Lemma many_total_inv {R} p n c (k : cursor -> option R) x :
  many p n c k = Some x ->
  (forall c', k c' <> None) ->
  exists w s',
    rest c = w ++ s' /\ all_chars p w = true /\ stops p s' = true /\
    (n <= String.length w)%nat /\ k (step_over c w s') = Some x.
Proof.
  intros H Tot.
  destruct (run_split p (rest c)) as (w & s' & Rc & A & St).
  exists w, s'. repeat split; auto.
  - destruct (many_inv _ _ _ _ _ H) as (j & c' & B & E & _).
    apply eat_n_le_run in E. rewrite Rc, (run_length_app _ _ _ A St) in E. lia.
  - destruct (k (step_over c w s')) as [y|] eqn:K; [|now elim (Tot _ K)].
    assert (B : (n <= String.length w)%nat).
    { destruct (many_inv _ _ _ _ _ H) as (j & c' & B & E & _).
      apply eat_n_le_run in E. rewrite Rc, (run_length_app _ _ _ A St) in E. lia. }
    rewrite (many_total p n c k w s' y Rc A St B K) in H. exact H.
Qed.

Lemma all_chars_ext (p q : ascii -> bool) (s : string) :
  (forall a, p a = q a) -> all_chars p s = all_chars q s.
Proof. intros H. induction s as [|a s IH]; simpl; [reflexivity|]. now rewrite H, IH. Qed.

Lemma cs_mem_ws ic a : cs_mem ic ws a = isspace a.
Proof. unfold cs_mem, ws; simpl. now rewrite orb_false_r. Qed.

Lemma cs_mem_digit ic a : cs_mem ic digit a = isdigit a.
Proof. unfold cs_mem, digit; simpl. now rewrite orb_false_r. Qed.

Lemma stops_ext (p q : ascii -> bool) (s : string) :
  (forall a, p a = q a) -> stops p s = stops q s.
Proof. intros H. destruct s; simpl; [reflexivity | now rewrite H]. Qed.

Lemma ws_run_intro ic w :
  (1 <= String.length w)%nat -> all_chars (cs_mem ic ws) w = true -> ws_run w = true.
Proof.
  intros L A. unfold ws_run.
  rewrite (all_chars_ext _ _ w (cs_mem_ws ic)) in A. rewrite A.
  destruct w; simpl in *; [lia | reflexivity].
Qed.

Lemma digit_run_intro ic w :
  (1 <= String.length w)%nat -> all_chars (cs_mem ic digit) w = true ->
  digit_run w = true.
Proof.
  intros L A. unfold digit_run.
  rewrite (all_chars_ext _ _ w (cs_mem_digit ic)) in A. rewrite A.
  destruct w; simpl in *; [lia | reflexivity].
Qed.

Lemma ws_run_elim ic w :
  ws_run w = true ->
  (1 <= String.length w)%nat /\ all_chars (cs_mem ic ws) w = true.
Proof.
  unfold ws_run. rewrite andb_true_iff. intros [N A].
  rewrite (all_chars_ext _ _ w (cs_mem_ws ic)). split; [|assumption].
  destruct w; simpl in *; [discriminate | lia].
Qed.

Lemma digit_run_elim ic w :
  digit_run w = true ->
  (1 <= String.length w)%nat /\ all_chars (cs_mem ic digit) w = true.
Proof.
  unfold digit_run. rewrite andb_true_iff. intros [N A].
  rewrite (all_chars_ext _ _ w (cs_mem_digit ic)). split; [|assumption].
  destruct w; simpl in *; [discriminate | lia].
Qed.

(** *** The labelled secret code *)

Lemma secret_code_match pos p s m :
  match_at false re_secret_code pos p s = Some m ->
  exists d, m_group1 m = Some d /\ labeled_code_at s "" d.
Proof.
  intros H. unfold re_secret_code in H.
  unfold match_at in H. cbn [rmatch seq_of] in H. cbn [rest prev group1] in H.
  do 7 inv_piece H.
  apply many_total_inv in H; [|discriminate].
  destruct H as (d & post & Rd & Ad & Std & Bd & H).
  cbn [rest prev group1 step_over set_group] in Rd, H.
  assert (Hc : a = "S"%char \/ a = "s"%char).
  { unfold cs_mem, cls in L. cbn [negated items existsb item_mem char_eq xorb] in L.
    rewrite orb_false_r in L.
    apply orb_true_iff in L as [L|L]; apply Ascii.eqb_eq in L; auto. }
  apply lit_eq_true_eq in L0. apply lit_eq_true_eq in L1. apply lit_eq_true_eq in L2.
  inversion H; subst; clear H. cbn [m_group1].
  exists d. rewrite consumed_app. split; [reflexivity|].
  exists a, w0, w2, w4, post.
  repeat split; eauto using ws_run_intro, digit_run_intro.
  rewrite <- Std. apply stops_ext. intros; symmetry; apply cs_mem_digit.
Qed.

(** Steps of a proof that a pattern matches where its pieces lie. *)
Ltac lit_step :=
  erewrite eat_lit_intro; [ | apply lit_eq_refl | cbn [rest step_over]; reflexivity ].

Ltac run_step run :=
  eapply many_complete with (j := String.length run);
  [ | apply (eat_n_intro _ run); [ | cbn [rest step_over]; reflexivity ] | ].

Lemma secret_code_found text pre d :
  labeled_code_at text pre d -> search false re_secret_code text <> None.
Proof.
  intros (c & s1 & s2 & s3 & post & -> & Hc & W1 & W2 & W3 & D & St) S.
  pose proof (search_none _ _ _ _ S 0%nat) as M. revert M.
  destruct (ws_run_elim false _ W1) as [L1 A1].
  destruct (ws_run_elim false _ W2) as [L2 A2].
  destruct (ws_run_elim false _ W3) as [L3 A3].
  destruct (digit_run_elim false _ D) as [Ld Ad].
  unfold match_at, re_secret_code. cbn [rmatch seq_of].
  erewrite eat_intro; [ | cbn [rest]; reflexivity | ].
  2:{ destruct Hc as [-> | ->]; reflexivity. }
  lit_step.
  run_step s1; [assumption | assumption |]. lit_step.
  run_step s2; [assumption | assumption |]. lit_step.
  run_step s3; [assumption | assumption |].
  run_step d; [assumption | assumption |]. discriminate.
Qed.

(** *** The standalone run of digits *)

Lemma digit_is_word a : isdigit a = true -> isword a = true.
Proof. unfold isword. now intros ->. Qed.

Lemma last_of_run (q : ascii -> bool) p w :
  all_chars q w = true -> w <> "" ->
  exists a, last_of p w = Some a /\ q a = true.
Proof.
  revert p; induction w as [|a w IH]; intros p A N; [congruence|].
  simpl in *. apply andb_true_iff in A as [Qa A].
  destruct w as [|b w]; [exists a; auto|].
  apply IH; [assumption | discriminate].
Qed.

Lemma digit_run_match pos p s m :
  match_at false re_digit_run pos p s = Some m ->
  exists d post,
    s = d ++ post /\ all_chars isdigit d = true /\ (5 <= String.length d)%nat /\
    is_word_opt p = false /\ is_word_opt (head_char post) = false /\
    m_group1 m = Some d.
Proof.
  intros H. unfold re_digit_run in H. inv_match H.
  inversion H; subst; clear H. cbn [m_group1].
  rewrite (all_chars_ext _ _ w (cs_mem_digit false)) in A.
  assert (Nw : w <> "") by (apply length_pos_neq; lia).
  exists w, s0. rewrite consumed_app. repeat split; auto.
  - unfold at_boundary in Bd. cbn [prev rest next_char] in Bd.
    destruct w as [|a w]; [congruence|]. simpl in A, Bd.
    apply andb_true_iff in A as [Da _]. rewrite (digit_is_word _ Da) in Bd.
    now destruct (is_word_opt p).
  - unfold at_boundary, next_char in Bd0.
    cbn [prev rest set_group step_over] in Bd0.
    destruct (last_of_run isdigit p w A Nw) as (a & La & Da).
    rewrite La in Bd0. cbn [is_word_opt] in Bd0. rewrite (digit_is_word _ Da) in Bd0.
    unfold head_char. destruct s0 as [|b s0]; [reflexivity|].
    cbn [is_word_opt] in *. now destruct (isword b).
Qed.

Lemma digit_run_found text pre d post :
  standalone_at text pre d post ->
  forall pos, match_at false re_digit_run pos (last_of None pre) (d ++ post) <> None.
Proof.
  intros (-> & A & L & Wb & Wa) pos.
  assert (Nd : d <> "") by (apply length_pos_neq; lia).
  unfold match_at, re_digit_run. cbn [rmatch seq_of].
  replace (at_boundary {| prev := last_of None pre; rest := d ++ post; group1 := None |})
    with true.
  2:{ unfold at_boundary. cbn [prev rest next_char]. rewrite Wb.
      destruct d as [|a d]; [congruence|]. simpl in A |- *.
      apply andb_true_iff in A as [Da _]. now rewrite (digit_is_word _ Da). }
  run_step d; [assumption | | ].
  - now rewrite (all_chars_ext _ _ d (cs_mem_digit false)).
  - cbn beta. unfold at_boundary. cbn [prev rest next_char step_over set_group].
    destruct (last_of_run isdigit (last_of None pre) d A Nd) as (a & La & Da).
    rewrite La. cbn [is_word_opt]. rewrite (digit_is_word _ Da).
    unfold head_char in Wa. destruct post; simpl in *; [discriminate|].
    rewrite Wa. discriminate.
Qed.

(** *** The cutoff *)

Lemma cutoff_match pos p s m :
  match_at false re_cutoff pos p s = Some m ->
  exists d, m_group1 m = Some d /\ digit_run d = true.
Proof.
  intros H. unfold re_cutoff in H. inv_match H.
  inversion H; subst; clear H. cbn [m_group1].
  eexists. split; [reflexivity|]. rewrite consumed_app.
  eapply digit_run_intro; eauto.
Qed.

(** *** The scrape instruction *)

(** The path of a scrape instruction is the run of characters other than
    whitespace that follows the word and its whitespace. *)
Lemma scrape_match pos p s m :
  match_at true re_scrape pos p s = Some m ->
  exists w sp path after,
    s = w ++ sp ++ path ++ after /\ lit_eq true "Scrape" w = true /\
    ws_run sp = true /\ path <> "" /\
    all_chars (fun a => negb (isspace a)) path = true /\
    stops (fun a => negb (isspace a)) after = true /\
    m_group1 m = Some path.
Proof.
  intros H. unfold re_scrape in H.
  unfold match_at in H. cbn [rmatch seq_of] in H. cbn [rest prev group1] in H.
  do 2 inv_piece H.
  apply many_total_inv in H; [|discriminate].
  destruct H as (path & after & Rp & Ap & Stp & Bp & H).
  cbn [rest prev group1 step_over set_group] in Rp, H.
  inversion H; subst; clear H. cbn [m_group1].
  assert (X : forall a, cs_mem true (ncls [Space]) a = negb (isspace a)).
  { intros a. unfold cs_mem, ncls; simpl. now rewrite orb_false_r. }
  exists w, w0, path, after. rewrite consumed_app.
  repeat split; eauto using ws_run_intro, length_pos_neq.
  - now rewrite <- (all_chars_ext _ _ path X).
  - now rewrite <- (stops_ext _ _ after X).
Qed.

End PatternFacts.

(* ===================================================================== *)
(** ** Facts about traces and the effect monad *)
(* ===================================================================== *)

Module MFacts.
Import PyStr Re Py Quiz Spec.
Local Open Scope py_scope.
Local Open Scope list_scope.

Lemma count_events_app p (a b : trace) :
  count_events p (a ++ b) = (count_events p a + count_events p b)%nat.
Proof. unfold count_events. now rewrite filter_app, length_app. Qed.

Lemma count_events_nil p : count_events p [] = 0%nat.
Proof. reflexivity. Qed.

Lemma extends_weaken {A} (c : M A) n n' p :
  (n <= n')%nat -> extends c n p -> extends c n' p.
Proof.
  intros Le H tr. destruct (H tr) as (evs & E & C). exists evs. split; [assumption | lia].
Qed.

Lemma extends_ret {A} (a : A) p : extends (ret a) 0 p.
Proof. intros tr. exists []. simpl. now rewrite app_nil_r. Qed.

Lemma extends_raise {A} msg p : extends (@raise A msg) 0 p.
Proof. intros tr. exists []. simpl. now rewrite app_nil_r. Qed.

Lemma extends_lift {A} (o : outcome A) p : extends (lift o) 0 p.
Proof. intros tr. exists []. simpl. now rewrite app_nil_r. Qed.

Lemma extends_emit (e : event) (p : event -> bool) :
  extends (emit e) (if p e then 1 else 0)%nat p.
Proof.
  intros tr. exists [e]. simpl. split; [reflexivity|].
  unfold count_events; simpl. destruct (p e); simpl; lia.
Qed.

Lemma extends_call {A} (e : event) (o : trace -> outcome A) (p : event -> bool) :
  extends (call e o) (if p e then 1 else 0)%nat p.
Proof.
  intros tr. exists [e]. simpl. split; [reflexivity|].
  unfold count_events; simpl. destruct (p e); simpl; lia.
Qed.

Lemma extends_bind {A B} (c : M A) (f : A -> M B) n1 n2 p :
  extends c n1 p -> (forall a, extends (f a) n2 p) ->
  extends (bind c f) (n1 + n2) p.
Proof.
  intros Hc Hf tr. unfold bind.
  destruct (Hc tr) as (e1 & E1 & C1). destruct (c tr) as [[a|msg] tr1]; simpl in E1; subst tr1.
  - destruct (Hf a (tr ++ e1)) as (e2 & E2 & C2).
    exists (e1 ++ e2). rewrite E2, app_assoc, count_events_app. split; [reflexivity | lia].
  - exists e1. simpl. split; [reflexivity | lia].
Qed.

Lemma extends_try {A} (c : M A) (h : string -> M A) n1 n2 p :
  extends c n1 p -> (forall e, extends (h e) n2 p) ->
  extends (try_catch c h) (n1 + n2) p.
Proof.
  intros Hc Hh tr. unfold try_catch.
  destruct (Hc tr) as (e1 & E1 & C1). destruct (c tr) as [[a|msg] tr1]; simpl in E1; subst tr1.
  - exists e1. simpl. split; [reflexivity | lia].
  - destruct (Hh msg (tr ++ e1)) as (e2 & E2 & C2).
    exists (e1 ++ e2). rewrite E2, app_assoc, count_events_app. split; [reflexivity | lia].
Qed.

Lemma extends_for_each {A} (body : nat -> M (flow A)) n p :
  (forall i, extends (body i) n p) ->
  forall l, extends (for_each l body) (List.length l * n) p.
Proof.
  intros Hb l. induction l as [|i l IH]; simpl.
  - exact (extends_ret None p).
  - refine (extends_bind _ _ _ _ p (Hb i) _).
    intros [a|]; [|exact IH].
    refine (extends_weaken _ 0 _ p _ (extends_ret _ p)). lia.
Qed.

(** Binding after a computation whose result is known. *)
Lemma bind_ok {A B} (c : M A) (f : A -> M B) tr a tr' :
  c tr = (Ok a, tr') -> bind c f tr = f a tr'.
Proof. intros H. unfold bind. now rewrite H. Qed.

Lemma bind_raise {A B} (c : M A) (f : A -> M B) tr e tr' :
  c tr = (Raise e, tr') -> bind c f tr = (Raise e, tr').
Proof. intros H. unfold bind. now rewrite H. Qed.

Lemma extends_for_each0 {A} (body : nat -> M (flow A)) p :
  (forall i, extends (body i) 0 p) ->
  forall l, extends (for_each l body) 0 p.
Proof.
  intros Hb l. refine (extends_weaken _ _ 0 p _ (extends_for_each body 0 p Hb l)).
  rewrite Nat.mul_0_r. lia.
Qed.

Lemma ignores_io_post : ignores_io is_post.
Proof. intros [] H; try discriminate; exact I. Qed.

Lemma ignores_io_quiz_log : ignores_io is_quiz_log.
Proof. intros [] H; try discriminate; exact I. Qed.

Lemma extends_emit0 (e : event) (p : event -> bool) :
  p e = false -> extends (emit e) 0 p.
Proof. intros H. pose proof (extends_emit e p) as X. now rewrite H in X. Qed.

Lemma extends_call0 {A} (e : event) (o : trace -> outcome A) (p : event -> bool) :
  p e = false -> extends (call e o) 0 p.
Proof. intros H. pose proof (extends_call e o p) as X. now rewrite H in X. Qed.

Ltac not_counted Hp :=
  match goal with
  | |- ?p ?e = false =>
      let X := fresh in
      destruct (p e) eqn:X; [apply Hp in X; contradiction | reflexivity]
  end.

(** Syntax-directed proof that a computation emits no event of a kind. *)
Ltac quiet Hp :=
  repeat (intros;
    match goal with
    | |- extends (ret _) _ _ => refine (extends_ret _ _)
    | |- extends (raise _) _ _ => refine (extends_raise _ _)
    | |- extends (lift _) _ _ => refine (extends_lift _ _)
    | |- extends (unpack ?x) _ _ => destruct x; unfold unpack
    | |- extends (sleep _) _ _ => refine (extends_emit0 _ _ _); not_counted Hp
    | |- extends (call _ _) _ _ => refine (extends_call0 _ _ _ _); not_counted Hp
    | |- extends (bind _ _) _ _ => refine (extends_bind _ _ 0 0 _ _ _)
    | |- extends (try_catch _ _) _ _ => refine (extends_try _ _ 0 0 _ _ _)
    | |- extends (for_each _ _) _ _ => refine (extends_for_each0 _ _ _ _)
    | |- extends (match ?x with _ => _ end) _ _ => destruct x
    end).

Lemma begins_call_bind {A B} (e : event) (o : trace -> outcome A) (f : A -> M B) n p :
  (forall a, extends (f a) n p) -> begins e (bind (call e o) f).
Proof.
  intros Hf tr. unfold bind, call.
  destruct (o tr) as [a|msg].
  - destruct (Hf a (tr ++ [e])) as (evs & Ev & _). exists evs.
    rewrite Ev, <- app_assoc. reflexivity.
  - exists []. reflexivity.
Qed.

Lemma begins_bind {A B} (e : event) (c : M A) (f : A -> M B) n p :
  begins e c -> (forall a, extends (f a) n p) -> begins e (bind c f).
Proof.
  intros Hc Hf tr. unfold bind. destruct (Hc tr) as (e1 & E1).
  destruct (c tr) as [[a|msg] tr1]; simpl in E1; subst tr1.
  - destruct (Hf a (tr ++ e :: e1)) as (e2 & E2 & _). exists (e1 ++ e2).
    rewrite E2, <- app_assoc. reflexivity.
  - exists e1. reflexivity.
Qed.

Lemma begins_try {A} (e : event) (c : M A) (h : string -> M A) n p :
  begins e c -> (forall x, extends (h x) n p) -> begins e (try_catch c h).
Proof.
  intros Hc Hh tr. unfold try_catch. destruct (Hc tr) as (e1 & E1).
  destruct (c tr) as [[a|msg] tr1]; simpl in E1; subst tr1.
  - exists e1. reflexivity.
  - destruct (Hh msg (tr ++ e :: e1)) as (e2 & E2 & _). exists (e1 ++ e2).
    rewrite E2, <- app_assoc. reflexivity.
Qed.

Section Components.
Variable E : Env.
Variable p : event -> bool.
Hypothesis Hp : ignores_io p.

Lemma fetch_quiet url retries :
  extends (fetch_page_with_playwright E url retries) 0 p.
Proof. unfold fetch_page_with_playwright, fetch_attempt. quiet Hp. Qed.

Lemma analyze_quiet page_text : extends (analyze_quiz_page E page_text) 0 p.
Proof. unfold analyze_quiz_page. quiet Hp. Qed.

Lemma solve_question_quiet question page_text page_html base_url :
  extends (solve_question E question page_text page_html base_url) 0 p.
Proof.
  unfold solve_question, gemini_answer, csv_try. quiet Hp; apply fetch_quiet.
Qed.
End Components.


Lemma post_with_retries_posts E u payload :
  extends (post_with_retries E u payload 3) 3 is_post.
Proof.
  unfold post_with_retries.
  refine (extends_bind _ _ 3 0 _ _ _); [|intros; refine (extends_ret _ _)].
  refine (extends_for_each _ 1 is_post _ (range 3)). intros i.
  refine (extends_try _ _ 1 0 _ _ _).
  - refine (extends_bind _ _ 1 0 _ _ _); [|intros; refine (extends_ret _ _)].
    unfold post_attempt.
    refine (extends_bind _ _ 1 0 _ (extends_call (EvPost u payload) _ is_post) _).
    intros r. destruct (Z.eqb _ _); [refine (extends_lift _ _) | refine (extends_ret _ _)].
  - intros e. destruct (Nat.ltb _ _); [|refine (extends_ret _ _)].
    refine (extends_bind _ _ 0 0 _ (extends_emit (EvSleep 5) is_post) _). intros; refine (extends_ret _ _).
Qed.

Lemma submit_posts E su email secret quiz_url answer :
  extends (submit_answer E su email secret quiz_url answer 3) 3 is_post.
Proof.
  unfold submit_answer.
  refine (extends_bind _ _ 0 3 _ _ (fun u => post_with_retries_posts E u _)).
  unfold absolute_submit_url. quiet ignores_io_post.
Qed.

Lemma submit_no_quiz_log E su email secret quiz_url answer retries :
  extends (submit_answer E su email secret quiz_url answer retries) 0 is_quiz_log.
Proof.
  unfold submit_answer, absolute_submit_url, post_with_retries, post_attempt.
  repeat (intros;
    match goal with
    | |- extends (ret _) _ _ => refine (extends_ret _ _)
    | |- extends (raise _) _ _ => refine (extends_raise _ _)
    | |- extends (lift _) _ _ => refine (extends_lift _ _)
    | |- extends (sleep _) _ _ => refine (extends_emit _ _)
    | |- extends (call _ _) _ _ => refine (extends_call _ _ _)
    | |- extends (bind _ _) _ _ => refine (extends_bind _ _ 0 0 _ _ _)
    | |- extends (try_catch _ _) _ _ => refine (extends_try _ _ 0 0 _ _ _)
    | |- extends (for_each _ _) _ _ => refine (extends_for_each0 _ _ _ _)
    | |- extends (match ?x with _ => _ end) _ _ => destruct x
    end).
Qed.

(** One quiz step makes at most three submissions and prints no step
    line. *)
Lemma single_posts E email secret quiz_url :
  extends (solve_single_quiz E email secret quiz_url) 3 is_post.
Proof.
  unfold solve_single_quiz.
  refine (extends_bind _ _ 0 3 _ (fetch_quiet E _ ignores_io_post _ _) _). intros f.
  refine (extends_bind _ _ 0 3 _ _ _); [quiet ignores_io_post|]. intros r.
  refine (extends_bind _ _ 0 3 _ _ _); [quiet ignores_io_post|]. intros _.
  refine (extends_bind _ _ 0 3 _ (analyze_quiet E _ ignores_io_post _) _). intros a.
  refine (extends_bind _ _ 0 3 _ _ _); [quiet ignores_io_post|]. intros _.
  refine (extends_bind _ _ 0 3 _ (solve_question_quiet E _ ignores_io_post _ _ _ _) _).
  intros answer. apply submit_posts.
Qed.

Lemma single_no_quiz_log E email secret quiz_url :
  extends (solve_single_quiz E email secret quiz_url) 0 is_quiz_log.
Proof.
  unfold solve_single_quiz.
  refine (extends_bind _ _ 0 0 _ (fetch_quiet E _ ignores_io_quiz_log _ _) _). intros f.
  refine (extends_bind _ _ 0 0 _ _ _); [quiet ignores_io_quiz_log|]. intros r.
  refine (extends_bind _ _ 0 0 _ _ _); [quiet ignores_io_quiz_log|]. intros _.
  refine (extends_bind _ _ 0 0 _ (analyze_quiet E _ ignores_io_quiz_log _) _). intros a.
  refine (extends_bind _ _ 0 0 _ _ _); [quiet ignores_io_quiz_log|]. intros _.
  refine (extends_bind _ _ 0 0 _ (solve_question_quiet E _ ignores_io_quiz_log _ _ _ _) _).
  intros answer. apply submit_no_quiz_log.
Qed.

End MFacts.

(* ===================================================================== *)
(** ** The chain driver *)
(* ===================================================================== *)

Module ChainFacts.
Import PyStr Re Py Quiz Spec MFacts.
Local Open Scope py_scope.
Local Open Scope list_scope.

Section Driver.
Variable single : value -> M value.

(** One pass of the loop, by what the quiz step gives. *)
Lemma loop_body_run st tr :
  let n := (quiz_count st + 1)%Z in
  let stay := {| current_url := current_url st; quiz_count := n |} in
  loop_body single st tr =
  match single (current_url st) (tr ++ [EvLog (LogQuiz n (current_url st))]) with
  | (Ok result, tr1) =>
      if truthy result && is_dict result then
        if truthy (get result "url") then
          (Ok ({| current_url := get result "url"; quiz_count := n |}, None),
           tr1 ++ [verdict result; EvLog (LogNext (get result "url"))])
        else
          (Ok (stay, Some ChainComplete),
           tr1 ++ [verdict result; EvLog LogComplete])
      else (Ok (stay, Some InvalidResponse), tr1 ++ [EvLog LogInvalid])
  | (Raise e, tr1) =>
      (Ok (stay, Some ErrorCaught), tr1 ++ [EvLog (LogError n e)])
  end.
Proof.
  intros n stay. unfold loop_body, bind, try_catch, log, emit. simpl.
  fold n. destruct (single (current_url st) _) as [[result|e] tr1]; [|reflexivity].
  destruct (truthy result && is_dict result); [|reflexivity].
  unfold verdict. destruct (truthy (get result "correct")); simpl;
    destruct (truthy (get result "url")); simpl; rewrite <- app_assoc; reflexivity.
Qed.

Lemma while_loop_pass fuel st tr st' o tr' :
  loop_test st = true ->
  loop_body single st tr = (Ok (st', o), tr') ->
  while_loop single (S fuel) st tr =
  match o with
  | None => while_loop single fuel st' tr'
  | Some how => (Ok (st', how), tr')
  end.
Proof.
  intros T B. simpl. fold (loop_test st). rewrite T. unfold bind. rewrite B.
  destruct o; reflexivity.
Qed.

(** A pass leaves the trace of its quiz step followed by printed lines. *)
Lemma loop_body_trace st tr :
  exists st' o logs,
    loop_body single st tr =
    (Ok (st', o),
     snd (single (current_url st)
            (tr ++ [EvLog (LogQuiz (quiz_count st + 1) (current_url st))])) ++ logs).
Proof.
  rewrite loop_body_run.
  destruct (single _ _) as [[result|e] tr1]; simpl.
  - destruct (truthy result && is_dict result);
      [destruct (truthy (get result "url"))|]; eauto.
  - eauto.
Qed.

Variable posts : nat.
Hypothesis single_quiet : forall u, extends (single u) 0 is_quiz_log.
Hypothesis single_posts : forall u, extends (single u) posts is_post.

Lemma verdict_not_quiz_log result : is_quiz_log (verdict result) = false.
Proof. unfold verdict. now destruct (truthy (get result "correct")). Qed.

Lemma verdict_not_post result : is_post (verdict result) = false.
Proof. unfold verdict. now destruct (truthy (get result "correct")). Qed.

Lemma count_events_cons p e (l : trace) :
  count_events p (e :: l) = ((if p e then 1 else 0) + count_events p l)%nat.
Proof. unfold count_events. simpl. now destruct (p e). Qed.

(** A pass never raises; it counts one step, prints one step line and
    makes no submission of its own. *)
Lemma loop_body_summary st tr :
  exists st' o evs,
    loop_body single st tr = (Ok (st', o), tr ++ evs) /\
    quiz_count st' = (quiz_count st + 1)%Z /\
    count_events is_quiz_log evs = 1%nat /\
    (count_events is_post evs <= posts)%nat.
Proof.
  rewrite loop_body_run.
  set (q := EvLog (LogQuiz (quiz_count st + 1) (current_url st))).
  destruct (single_quiet (current_url st) (tr ++ [q])) as (es & E & Cq).
  destruct (single_posts (current_url st) (tr ++ [q])) as (es' & E' & Cp).
  assert (es' = es) by (rewrite E in E'; now apply app_inv_head in E').
  subst es'. clear E'.
  assert (Cq0 : count_events is_quiz_log es = 0%nat) by lia.
  destruct (single (current_url st) (tr ++ [q])) as [[result|e] tr1];
    simpl in E; subst tr1.
  - destruct (truthy result && is_dict result);
      [destruct (truthy (get result "url"))|].
    + exists {| current_url := get result "url"; quiz_count := quiz_count st + 1 |}, None,
        (q :: es ++ [verdict result; EvLog (LogNext (get result "url"))]).
      split; [now rewrite <- !app_assoc|]. split; [reflexivity|].
      rewrite !count_events_cons, !count_events_app, !count_events_cons.
      rewrite verdict_not_quiz_log, verdict_not_post, Cq0.
      unfold q, count_events in *. simpl. split; lia.
    + exists {| current_url := current_url st; quiz_count := quiz_count st + 1 |},
        (Some ChainComplete), (q :: es ++ [verdict result; EvLog LogComplete]).
      split; [now rewrite <- !app_assoc|]. split; [reflexivity|].
      rewrite !count_events_cons, !count_events_app, !count_events_cons.
      rewrite verdict_not_quiz_log, verdict_not_post, Cq0.
      unfold q, count_events in *. simpl. split; lia.
    + exists {| current_url := current_url st; quiz_count := quiz_count st + 1 |},
        (Some InvalidResponse), (q :: es ++ [EvLog LogInvalid]).
      split; [now rewrite <- !app_assoc|]. split; [reflexivity|].
      rewrite !count_events_cons, !count_events_app, !count_events_cons.
      rewrite Cq0. unfold q, count_events in *. simpl. split; lia.
  - exists {| current_url := current_url st; quiz_count := quiz_count st + 1 |},
      (Some ErrorCaught), (q :: es ++ [EvLog (LogError (quiz_count st + 1) e)]).
    split; [now rewrite <- !app_assoc|]. split; [reflexivity|].
    rewrite !count_events_cons, !count_events_app, !count_events_cons.
    rewrite Cq0. unfold q, count_events in *. simpl. split; lia.
Qed.

Lemma loop_test_true st :
  loop_test st = true ->
  truthy (current_url st) = true /\ (quiz_count st < max_quizzes)%Z.
Proof.
  unfold loop_test. rewrite andb_true_iff, Z.ltb_lt. auto.
Qed.

(** The loop from any state: it returns, the model's bound is not what
    stops it, and it counts its passes. *)
Lemma while_loop_bound : forall fuel st tr,
  enough fuel st ->
  exists st' how evs,
    while_loop single fuel st tr = (Ok (st', how), tr ++ evs) /\
    how <> OutOfFuel /\
    (quiz_count st <= quiz_count st' <= Z.max (quiz_count st) max_quizzes)%Z /\
    count_events is_quiz_log evs = Z.to_nat (quiz_count st' - quiz_count st) /\
    (count_events is_post evs <= posts * Z.to_nat (quiz_count st' - quiz_count st))%nat /\
    (how = LoopTestFalse -> loop_test st' = false).
Proof.
  unfold enough.
  induction fuel as [|fuel IH]; intros st tr F.
  - simpl. fold (loop_test st). destruct (loop_test st) eqn:T.
    + apply loop_test_true in T as [_ T]. unfold max_quizzes in *. lia.
    + exists st, LoopTestFalse, []. rewrite app_nil_r, Z.sub_diag. simpl.
      unfold count_events; simpl. repeat split; try discriminate; try lia; auto.
  - simpl. fold (loop_test st). destruct (loop_test st) eqn:T.
    + apply loop_test_true in T as [_ T].
      destruct (loop_body_summary st tr) as (st1 & o & e1 & B & Q1 & C1 & P1).
      rewrite (bind_ok _ _ _ _ _ B). simpl.
      destruct o as [how|].
      * exists st1, how, e1. split; [reflexivity|].
        split.
        { intros ->. pose proof (loop_body_run st tr) as R. simpl in R.
          rewrite R in B.
          destruct (single _ _) as [[r|e] t]; [|inversion B].
          destruct (truthy r && is_dict r); [|inversion B].
          destruct (truthy (get r "url")); inversion B. }
        rewrite Q1. replace (quiz_count st + 1 - quiz_count st)%Z with 1%Z by lia.
        simpl. repeat split; try lia. intros ->.
        pose proof (loop_body_run st tr) as R. simpl in R. rewrite R in B.
        destruct (single _ _) as [[r|e] t]; [|inversion B].
        destruct (truthy r && is_dict r); [|inversion B].
        destruct (truthy (get r "url")); inversion B.
      * destruct (IH st1 (tr ++ e1)) as (st' & how & e2 & W & NF & Bd & Cq & Cp & LT).
        { rewrite Q1. unfold max_quizzes in *. lia. }
        exists st', how, (e1 ++ e2). rewrite W, app_assoc.
        split; [reflexivity|]. split; [assumption|].
        rewrite !count_events_app, C1, Cq. rewrite Q1 in *.
        unfold max_quizzes in *.
        repeat split; try lia; try assumption.
        replace (Z.to_nat (quiz_count st' - quiz_count st))
          with (S (Z.to_nat (quiz_count st' - (quiz_count st + 1)))) by lia.
        lia.
    + exists st, LoopTestFalse, []. rewrite app_nil_r, Z.sub_diag. simpl.
      unfold count_events; simpl. repeat split; try discriminate; try lia; auto.
Qed.

(** More fuel than enough changes nothing. *)
Lemma while_loop_fuel : forall fuel1 fuel2 st tr,
  enough fuel1 st -> enough fuel2 st ->
  while_loop single fuel1 st tr = while_loop single fuel2 st tr.
Proof.
  unfold enough.
  induction fuel1 as [|fuel1 IH]; intros fuel2 st tr F1 F2.
  - destruct fuel2; simpl; fold (loop_test st); destruct (loop_test st) eqn:T; auto.
    apply loop_test_true in T as [_ T]. unfold max_quizzes in *. lia.
  - destruct fuel2; simpl; fold (loop_test st); destruct (loop_test st) eqn:T; auto.
    + apply loop_test_true in T as [_ T]. unfold max_quizzes in *. lia.
    + apply loop_test_true in T as [_ T].
      destruct (loop_body_summary st tr) as (st1 & o & e1 & B & Q1 & _).
      rewrite !(bind_ok _ _ _ _ _ B). simpl.
      destruct o; [reflexivity|].
      apply IH; rewrite Q1; unfold max_quizzes in *; lia.
Qed.

(** The loop run from a head it reaches is the rest of the run. *)
Lemma reaches_while x y :
  reaches single x y ->
  forall fuel fuel', enough fuel (fst x) -> enough fuel' (fst y) ->
    while_loop single fuel (fst x) (snd x) = while_loop single fuel' (fst y) (snd y).
Proof.
  induction 1 as [x | st tr st' tr' y T B _ IH]; intros fuel fuel' F F'; simpl in *.
  - now apply while_loop_fuel.
  - destruct (loop_body_summary st tr) as (st1 & o & e1 & B' & Q1 & _).
    rewrite B in B'. inversion B'; subst st1 o. clear B'.
    apply loop_test_true in T as [T1 T2].
    destruct fuel as [|fuel].
    { unfold enough, max_quizzes in *. lia. }
    simpl. fold (loop_test st).
    replace (loop_test st) with true
      by (unfold loop_test; rewrite T1; symmetry; now apply andb_true_iff, conj, Z.ltb_lt).
    rewrite (bind_ok _ _ _ _ _ B). simpl.
    apply IH; [|assumption]. unfold enough, max_quizzes in *. lia.
Qed.

Lemma reaches_trans x y z :
  reaches single x y -> reaches single y z -> reaches single x z.
Proof.
  induction 1 as [x | st tr st' tr' y T B _ IH]; intros H; [assumption|].
  eapply reaches_pass; eauto.
Qed.

Lemma reaches_count x y :
  reaches single x y -> (quiz_count (fst x) <= quiz_count (fst y))%Z.
Proof.
  induction 1 as [x | st tr st' tr' y T B _ IH]; simpl in *; [lia|].
  destruct (loop_body_summary st tr) as (st1 & o & e1 & B' & Q1 & _).
  rewrite B in B'. inversion B'; subst. lia.
Qed.

End Driver.

(** The chain is its loop between two printed lines. *)
Lemma chain_run single email start_url tr st how tr' :
  while_loop single (Z.to_nat max_quizzes)
             {| current_url := start_url; quiz_count := 0 |}
             (tr ++ [EvLog (LogStart email)]) = (Ok (st, how), tr') ->
  chain single email start_url tr =
  (Ok (st, how), tr' ++ [EvLog (LogCompleted (quiz_count st))]).
Proof.
  intros W. unfold chain, bind, log, emit. cbv beta iota. rewrite W. reflexivity.
Qed.

(** A quiz step begins by opening its URL. *)
Lemma single_begins_with_goto E email secret url :
  begins (EvGoto url) (solve_single_quiz E email secret url).
Proof.
  unfold solve_single_quiz.
  refine (begins_bind _ _ _ 0 is_quiz_log _ _).
  - unfold fetch_page_with_playwright. simpl.
    refine (begins_bind _ _ _ 0 is_quiz_log _ _).
    + refine (begins_try _ _ _ 0 is_quiz_log _ _).
      * refine (begins_bind _ _ _ 0 is_quiz_log _ _); [|quiet ignores_io_quiz_log].
        unfold fetch_attempt.
        refine (begins_call_bind _ _ _ 0 is_quiz_log _).
        quiet ignores_io_quiz_log.
      * quiet ignores_io_quiz_log.
    + intros f.
      change (extends (match f with
                       | Return a => ret (Some a)
                       | Continue =>
                           for_each [1; 2]%nat (fun attempt =>
                             try_catch (r <- fetch_attempt E url ;; ret (Return r))
                               (fun e => if Nat.ltb attempt 2
                                         then sleep 5 ;;; ret Continue
                                         else raise e))
                       end) 0 is_quiz_log).
      unfold fetch_attempt. quiet ignores_io_quiz_log.
  - intros f.
    refine (extends_bind _ _ 0 0 _ _ _); [quiet ignores_io_quiz_log|]. intros r.
    refine (extends_bind _ _ 0 0 _ _ _); [quiet ignores_io_quiz_log|]. intros _.
    refine (extends_bind _ _ 0 0 _ (analyze_quiet E _ ignores_io_quiz_log _) _). intros a.
    refine (extends_bind _ _ 0 0 _ _ _); [quiet ignores_io_quiz_log|]. intros _.
    refine (extends_bind _ _ 0 0 _ (solve_question_quiet E _ ignores_io_quiz_log _ _ _ _) _).
    intros answer. apply submit_no_quiz_log.
Qed.

(** C1.  Whatever the starting URL and whatever the environment answers,
    the chain returns after at most ten quiz steps: the step counter ends
    between 0 and 10, exactly one step line was printed per counted step,
    and at most three submissions were made per step.  With the counter
    at the maximum the loop makes no further pass, whatever the URL. *)
Theorem chain_at_most_ten_steps
        (E : Env) (email secret : string) (start_url : value) (tr : trace) :
  (exists st how evs,
      solve_quiz_chain E email secret start_url tr = (Ok (st, how), tr ++ evs) /\
      how <> OutOfFuel /\
      (0 <= quiz_count st <= max_quizzes)%Z /\
      count_events is_quiz_log evs = Z.to_nat (quiz_count st) /\
      (count_events is_quiz_log evs <= 10)%nat /\
      (count_events is_post evs <= 30)%nat) /\
  (forall fuel url tr',
      while_loop (solve_single_quiz E email secret) fuel
                 {| current_url := url; quiz_count := max_quizzes |} tr' =
      (Ok ({| current_url := url; quiz_count := max_quizzes |}, LoopTestFalse), tr')).
Proof.
  split.
  - unfold solve_quiz_chain.
    set (single := solve_single_quiz E email secret).
    destruct (while_loop_bound single 3
                (single_no_quiz_log E email secret) (single_posts E email secret)
                (Z.to_nat max_quizzes) {| current_url := start_url; quiz_count := 0 |}
                (tr ++ [EvLog (LogStart email)]))
      as (st & how & evs & W & NF & Bd & Cq & Cp & _).
    { unfold enough. simpl. lia. }
    simpl in Bd, Cq, Cp. rewrite Z.sub_0_r in Cq, Cp.
    exists st, how,
      (EvLog (LogStart email) :: evs ++ [EvLog (LogCompleted (quiz_count st))]).
    rewrite (chain_run _ _ _ _ _ _ _ W).
    split; [now rewrite <- !app_assoc|].
    split; [assumption|].
    rewrite !count_events_cons, !count_events_app, !count_events_cons.
    unfold count_events in *; simpl. unfold max_quizzes in *.
    repeat split; lia.
  - intros fuel url tr'. unfold max_quizzes.
    destruct fuel; simpl; now rewrite andb_false_r.
Qed.

(** C4.  Take any head of the loop the run reaches.  If the quiz step
    made there returns a well-formed result (a non-empty dict) whose
    [url] is missing (or null, or empty), the chain ends there: the driver
    prints the verdict, the completion line and the summary and does
    nothing else, so no page is fetched and nothing is submitted after
    that result.  The loop is left through the break that reports the
    chain complete (the DONE outcome), with that step counted. *)
Theorem chain_halts_without_next_url
        (E : Env) (email secret : string) (start_url : value) (tr0 : trace)
        (st : QuizState) (tr : trace) (result : value) (tr1 : trace) :
  reaches (solve_single_quiz E email secret)
          (chain_start email start_url tr0) (st, tr) ->
  loop_test st = true ->
  solve_single_quiz E email secret (current_url st)
    (tr ++ [EvLog (LogQuiz (quiz_count st + 1) (current_url st))]) = (Ok result, tr1) ->
  truthy result && is_dict result = true ->
  truthy (get result "url") = false ->
  solve_quiz_chain E email secret start_url tr0 =
  (Ok ({| current_url := current_url st; quiz_count := quiz_count st + 1 |}, ChainComplete),
   tr1 ++ [verdict result; EvLog LogComplete;
           EvLog (LogCompleted (quiz_count st + 1))]).
Proof.
  intros Hr T Step WF NoUrl.
  unfold solve_quiz_chain.
  set (single := solve_single_quiz E email secret) in *.
  pose proof (reaches_count single 3 (single_no_quiz_log E email secret)
                (single_posts E email secret) _ _ Hr) as Cnt. simpl in Cnt.
  pose proof (loop_test_true _ T) as [_ Lt].
  assert (W : while_loop single (Z.to_nat max_quizzes)
                {| current_url := start_url; quiz_count := 0 |}
                (tr0 ++ [EvLog (LogStart email)]) =
              (Ok ({| current_url := current_url st; quiz_count := quiz_count st + 1 |},
                   ChainComplete),
               tr1 ++ [verdict result; EvLog LogComplete])).
  { pose proof (reaches_while single 3 (single_no_quiz_log E email secret)
                  (single_posts E email secret) _ _ Hr
                  (Z.to_nat max_quizzes) (S (Z.to_nat (max_quizzes - quiz_count st)))) as RW.
    unfold chain_start in RW. cbn [fst snd] in RW. rewrite RW.
    - apply (while_loop_pass single _ st tr _ (Some ChainComplete)); [exact T|].
      rewrite loop_body_run. fold single. rewrite Step, WF, NoUrl. reflexivity.
    - unfold enough. simpl. lia.
    - unfold enough. simpl. lia. }
  rewrite (chain_run _ _ _ _ _ _ _ W). simpl.
  rewrite <- app_assoc. reflexivity.
Qed.

(** C10.  Take any head of the loop the run reaches.  If the quiz step
    made there returns a well-formed result with a next-hop [url], the
    loop comes back to its head with that URL as the current one, whether
    the result says [correct] or not; and unless ten steps are done, the
    next step is taken on it: the run goes on by printing the step line
    of the next URL and opening it. *)
Theorem chain_follows_next_url
        (E : Env) (email secret : string) (start_url : value) (tr0 : trace)
        (st : QuizState) (tr : trace) (result : value) (tr1 : trace) :
  reaches (solve_single_quiz E email secret)
          (chain_start email start_url tr0) (st, tr) ->
  loop_test st = true ->
  solve_single_quiz E email secret (current_url st)
    (tr ++ [EvLog (LogQuiz (quiz_count st + 1) (current_url st))]) = (Ok result, tr1) ->
  truthy result && is_dict result = true ->
  truthy (get result "url") = true ->
  let next_url := get result "url" in
  reaches (solve_single_quiz E email secret)
          (chain_start email start_url tr0)
          ({| current_url := next_url; quiz_count := quiz_count st + 1 |},
           tr1 ++ [verdict result; EvLog (LogNext next_url)]) /\
  ((quiz_count st + 1 < max_quizzes)%Z ->
   exists evs,
     snd (solve_quiz_chain E email secret start_url tr0) =
     tr1 ++ [verdict result; EvLog (LogNext next_url);
             EvLog (LogQuiz (quiz_count st + 2) next_url); EvGoto next_url] ++ evs).
Proof.
  intros Hr T Step WF Url next_url.
  set (single := solve_single_quiz E email secret) in *.
  set (st2 := {| current_url := next_url; quiz_count := quiz_count st + 1 |}).
  set (tr2 := tr1 ++ [verdict result; EvLog (LogNext next_url)]).
  assert (Pass : loop_body single st tr = (Ok (st2, None), tr2)).
  { rewrite loop_body_run. fold single. rewrite Step, WF, Url. reflexivity. }
  assert (Hr2 : reaches single (chain_start email start_url tr0) (st2, tr2)).
  { eapply reaches_trans; [exact Hr|].
    eapply reaches_pass; [exact T | exact Pass | apply reaches_here]. }
  split; [exact Hr2|].
  intros Lt.
  pose proof (single_no_quiz_log E email secret) as Hq.
  pose proof (single_posts E email secret) as Hp.
  fold single in Hq, Hp.
  assert (T2 : loop_test st2 = true).
  { unfold loop_test, st2. simpl. fold next_url in Url. rewrite Url.
    now apply Z.ltb_lt. }
  destruct (loop_body_trace single st2 tr2) as (st3 & o & logs & B).
  destruct (single_begins_with_goto E email secret next_url
              (tr2 ++ [EvLog (LogQuiz (quiz_count st + 1 + 1) next_url)])) as (es & Es).
  fold single in Es.
  change (current_url st2) with next_url in B.
  change (quiz_count st2) with (quiz_count st + 1)%Z in B.
  rewrite Es in B.
  pose proof (loop_body_summary single 3 Hq Hp st2 tr2) as (st3' & o' & e3 & B' & Q3 & _).
  assert (st3' = st3) by (rewrite B in B'; now inversion B'). subst st3'. clear B' o' e3.
  set (tr3 := ((tr2 ++ [EvLog (LogQuiz (quiz_count st + 1 + 1) next_url)]) ++
               EvGoto next_url :: es) ++ logs) in *.
  assert (W : exists st' how evs,
             while_loop single (Z.to_nat max_quizzes)
               {| current_url := start_url; quiz_count := 0 |}
               (tr0 ++ [EvLog (LogStart email)]) = (Ok (st', how), tr3 ++ evs)).
  { pose proof (reaches_while single 3 Hq Hp _ _ Hr2
                  (Z.to_nat max_quizzes) (S (Z.to_nat (max_quizzes - quiz_count st3)))) as RW.
    unfold chain_start in RW. cbn [fst snd] in RW. rewrite RW.
    - rewrite (while_loop_pass single _ st2 tr2 _ _ _ T2 B).
      destruct o as [how|].
      + exists st3, how, []. now rewrite app_nil_r.
      + destruct (while_loop_bound single 3 Hq Hp
                    (Z.to_nat (max_quizzes - quiz_count st3)) st3 tr3)
          as (st' & how & evs & W & _).
        { unfold enough. lia. }
        exists st', how, evs. exact W.
    - unfold enough. simpl. lia.
    - unfold enough, max_quizzes in *. cbn [fst]. rewrite Q3.
      change (quiz_count st2) with (quiz_count st + 1)%Z. lia. }
  destruct W as (st' & how & evs & W).
  unfold solve_quiz_chain. fold single.
  rewrite (chain_run _ _ _ _ _ _ _ W). simpl.
  exists (es ++ logs ++ evs ++ [EvLog (LogCompleted (quiz_count st'))]).
  unfold tr3, tr2, st2. simpl.
  replace (quiz_count st + 1 + 1)%Z with (quiz_count st + 2)%Z by lia.
  repeat (rewrite <- app_assoc; simpl). reflexivity.
Qed.

End ChainFacts.

(* ===================================================================== *)
(** ** Retries of the fetch and of the submission *)
(* ===================================================================== *)

Module RetryFacts.
Import PyStr Re Py Quiz Spec MFacts.
Local Open Scope py_scope.
Local Open Scope list_scope.

(** The fetch: up to three attempts five seconds apart; it returns the
    page of the first attempt that does not raise, and raises what the
    third attempt raised. *)
Lemma fetch_retries E url tr :
  exists n r tr',
    (1 <= n <= 3)%nat /\
    retried (fetch_attempt E url) n tr r tr' /\
    (raised r = true -> n = 3%nat) /\
    fetch_page_with_playwright E url 3 tr =
    (match r with Ok page => Ok (Some page) | Raise e => Raise e end, tr').
Proof.
  unfold fetch_page_with_playwright. simpl.
  cbv beta iota delta [sleep emit bind ret try_catch raise].
  destruct (fetch_attempt E url tr) as [[a1|e1] t1] eqn:X1.
  - exists 1%nat, (Ok a1), t1. repeat split; try lia; try discriminate.
    now apply retried_last.
  - destruct (fetch_attempt E url (t1 ++ [EvSleep 5])) as [[a2|e2] t2] eqn:X2.
    + exists 2%nat, (Ok a2), t2. repeat split; try lia; try discriminate.
      eapply retried_again; [exact X1|]. now apply retried_last.
    + destruct (fetch_attempt E url (t2 ++ [EvSleep 5])) as [[a3|e3] t3] eqn:X3.
      * exists 3%nat, (Ok a3), t3. repeat split; try lia; try discriminate.
        eapply retried_again; [exact X1|].
        eapply retried_again; [exact X2|]. now apply retried_last.
      * exists 3%nat, (Raise e3), t3. repeat split; try lia.
        eapply retried_again; [exact X1|].
        eapply retried_again; [exact X2|]. now apply retried_last.
Qed.

(** One POST: an exception of the client or of [.json()] is raised; a
    status other than 200 is turned into a failure result. *)
Lemma post_attempt_run E u payload tr :
  post_attempt E u payload tr =
  (match requests_post E tr u payload with
   | Ok response =>
       if Z.eqb (status_code response) 200 then json response
       else Ok (failure ("HTTP " ++ str_of_int (status_code response)))
   | Raise e => Raise e
   end, tr ++ [EvPost u payload]).
Proof.
  unfold post_attempt, bind, call, lift, ret.
  destruct (requests_post E tr u payload) as [response|e]; [|reflexivity].
  now destruct (Z.eqb (status_code response) 200).
Qed.

(** The submission: up to three POSTs five seconds apart; it returns what
    the first attempt that does not raise returns, and the failure result
    made of what the third attempt raised; it never raises. *)
Lemma post_retries E u payload tr :
  exists n r tr',
    (1 <= n <= 3)%nat /\
    retried (post_attempt E u payload) n tr r tr' /\
    (raised r = true -> n = 3%nat) /\
    post_with_retries E u payload 3 tr =
    (Ok (match r with Ok v => v | Raise e => failure e end), tr').
Proof.
  unfold post_with_retries. simpl.
  cbv beta iota delta [sleep emit bind ret try_catch raise].
  destruct (post_attempt E u payload tr) as [[a1|e1] t1] eqn:X1.
  - exists 1%nat, (Ok a1), t1. repeat split; try lia; try discriminate.
    now apply retried_last.
  - destruct (post_attempt E u payload (t1 ++ [EvSleep 5])) as [[a2|e2] t2] eqn:X2.
    + exists 2%nat, (Ok a2), t2. repeat split; try lia; try discriminate.
      eapply retried_again; [exact X1|]. now apply retried_last.
    + destruct (post_attempt E u payload (t2 ++ [EvSleep 5])) as [[a3|e3] t3] eqn:X3.
      * exists 3%nat, (Ok a3), t3. repeat split; try lia; try discriminate.
        eapply retried_again; [exact X1|].
        eapply retried_again; [exact X2|]. now apply retried_last.
      * exists 3%nat, (Raise e3), t3. repeat split; try lia.
        eapply retried_again; [exact X1|].
        eapply retried_again; [exact X2|]. now apply retried_last.
Qed.

(** C8.  The fetch and the submission each make at most three attempts,
    with a sleep of five seconds after every failed attempt but the last.
    The fetch returns the page of the first attempt that succeeds and
    re-raises the failure of the third.  The submission posts the dict of
    the email, the secret, the quiz URL and the answer and, once its URL
    is absolute, never raises: it returns what the first attempt that does
    not raise returns and, when the third attempt raises too, the dict
    with [correct] false and the error text as [reason].  An attempt that
    does not raise returns the decoded body on status 200, and else the
    dict with [correct] false and, as [reason], HTTP and the status. *)
Theorem retry_policy (E : Env) (tr : trace) :
  (forall url,
      exists n r tr',
        (1 <= n <= 3)%nat /\
        retried (fetch_attempt E url) n tr r tr' /\
        (raised r = true -> n = 3%nat) /\
        fetch_page_with_playwright E url 3 tr =
        (match r with Ok page => Ok (Some page) | Raise e => Raise e end, tr')) /\
  (forall submit_url email secret quiz_url answer u,
      absolute_submit_url E submit_url quiz_url tr = (Ok u, tr) ->
      let payload := VDict [("email", VStr email); ("secret", VStr secret);
                            ("url", quiz_url); ("answer", answer)] in
      exists n r tr',
        (1 <= n <= 3)%nat /\
        retried (post_attempt E u payload) n tr r tr' /\
        (raised r = true -> n = 3%nat) /\
        submit_answer E submit_url email secret quiz_url answer 3 tr =
        (Ok (match r with
             | Ok v => v
             | Raise e => VDict [("correct", VBool false); ("reason", VStr e)]
             end), tr')) /\
  (forall u payload tr0,
      post_attempt E u payload tr0 =
      (match requests_post E tr0 u payload with
       | Ok response =>
           if Z.eqb (status_code response) 200 then json response
           else Ok (VDict [("correct", VBool false);
                           ("reason",
                            VStr ("HTTP " ++ str_of_int (status_code response)))])
       | Raise e => Raise e
       end, tr0 ++ [EvPost u payload])).
Proof.
  split; [|split].
  - intros url. apply fetch_retries.
  - intros su email secret quiz_url answer u Abs payload.
    destruct (post_retries E u payload tr) as (n & r & tr' & B & Rt & Rs & Run).
    exists n, r, tr'. repeat split; try assumption; try lia.
    unfold submit_answer. rewrite (bind_ok _ _ _ _ _ Abs). exact Run.
  - intros. apply post_attempt_run.
Qed.

End RetryFacts.

(* ===================================================================== *)
(** ** Typing of the model's answer *)
(* ===================================================================== *)

Module AnswerFacts.
Import PyStr Re Py Quiz Spec StrFacts TextFacts MFacts.
Local Open Scope py_scope.

Lemma contains_char_cons (x c : ascii) (s : string) :
  contains (String x "") (String c s) = Ascii.eqb x c || contains (String x "") s.
Proof. simpl. now rewrite andb_true_r. Qed.

Lemma contains_char_nil (x : ascii) : contains (String x "") "" = false.
Proof. reflexivity. Qed.

(** A string all of whose characters differ from [x] does not contain it. *)
Lemma not_contains_char (x : ascii) (q : ascii -> bool) (s : string) :
  q x = false -> all_chars q s = true -> contains (String x "") s = false.
Proof.
  intros Qx. induction s as [|c s IH]; [reflexivity|].
  rewrite contains_char_cons. simpl. rewrite andb_true_iff. intros [Qc A].
  rewrite (IH A), orb_false_r. apply Ascii.eqb_neq. intros ->. congruence.
Qed.

Lemma lstrip_contains (x : ascii) (p : ascii -> bool) (s : string) :
  p x = false ->
  contains (String x "") (lstrip_by p s) = contains (String x "") s.
Proof.
  intros Px. induction s as [|c s IH]; [reflexivity|].
  simpl lstrip_by. destruct (p c) eqn:Pc; [|reflexivity].
  rewrite IH, contains_char_cons.
  replace (Ascii.eqb x c) with false; [reflexivity|].
  symmetry. apply Ascii.eqb_neq. intros ->. congruence.
Qed.

Lemma rstrip_contains (x : ascii) (p : ascii -> bool) (s : string) :
  p x = false ->
  contains (String x "") (rstrip_by p s) = contains (String x "") s.
Proof.
  intros Px. induction s as [|c s IH]; [reflexivity|].
  simpl rstrip_by. rewrite contains_char_cons, <- IH.
  destruct (rstrip_by p s) as [|d r] eqn:R.
  - destruct (p c) eqn:Pc.
    + rewrite contains_char_nil, orb_false_r.
      symmetry. apply Ascii.eqb_neq. intros ->. congruence.
    + now rewrite contains_char_cons.
  - now rewrite contains_char_cons.
Qed.

Lemma strip_contains (x : ascii) (p : ascii -> bool) (s : string) :
  p x = false ->
  contains (String x "") (strip_by p s) = contains (String x "") s.
Proof.
  intros Px. unfold strip_by. now rewrite rstrip_contains, lstrip_contains.
Qed.

Lemma int_body_chars : forall s b acc n,
  int_body b acc s = Some n ->
  all_chars (fun c => isdigit c || Ascii.eqb c "_") s = true.
Proof.
  induction s as [|c s IH]; intros b acc n H; [reflexivity|].
  simpl in H |- *. destruct (isdigit c) eqn:D; simpl.
  - eapply IH; eauto.
  - destruct (Ascii.eqb c "_" && b) eqn:U; [|discriminate].
    apply andb_true_iff in U as [U _]. rewrite U. simpl.
    destruct s as [|d s']; [discriminate|].
    destruct (isdigit d); [|discriminate]. eapply IH; eauto.
Qed.

(** What [int] accepts is within the limit of digits and reads as a
    signed body. *)
Lemma py_int_some (s : string) (n : Z) :
  py_int s = Some n ->
  (count_chars isdigit (strip_by int_space s) <= int_max_str_digits)%nat /\
  match strip_by int_space s with
  | String "+" body => int_body false 0 body
  | String "-" body => option_map Z.opp (int_body false 0 body)
  | body => int_body false 0 body
  end = Some n.
Proof.
  unfold py_int. cbv zeta.
  destruct (Nat.leb _ _) eqn:L; [|discriminate].
  apply Nat.leb_le in L. intros H. split; [exact L|].
  destruct (strip_by int_space s) as [|c body]; [exact H|].
  destruct c as [[] [] [] [] [] [] [] []]; exact H.
Qed.

(** What [int] accepts has no decimal point. *)
Lemma py_int_no_point (s : string) (n : Z) :
  py_int s = Some n -> contains "." s = false.
Proof.
  intros H. apply py_int_some in H as [_ H].
  rewrite <- (strip_contains "." int_space s eq_refl).
  set (q := fun c => isdigit c || Ascii.eqb c "_") in *.
  destruct (strip_by int_space s) as [|c body]; [reflexivity|].
  assert (Body : forall m, int_body false 0 body = Some m ->
                           contains "." (String c body) = Ascii.eqb "." c).
  { intros m Hm. rewrite contains_char_cons.
    rewrite (not_contains_char "." q body eq_refl (int_body_chars _ _ _ _ Hm)).
    apply orb_false_r. }
  assert (Whole : forall m, int_body false 0 (String c body) = Some m ->
                            contains "." (String c body) = false).
  { intros m Hm. apply (not_contains_char "." q); [reflexivity|].
    now apply (int_body_chars _ _ _ _ Hm). }
  destruct (Ascii.eqb c "+") eqn:Plus.
  - apply Ascii.eqb_eq in Plus. subst c. erewrite Body by eassumption. reflexivity.
  - destruct (Ascii.eqb c "-") eqn:Minus.
    + apply Ascii.eqb_eq in Minus. subst c.
      destruct (int_body false 0 body) as [m|] eqn:Hm; [|discriminate].
      erewrite Body by reflexivity. reflexivity.
    + apply Ascii.eqb_neq in Plus, Minus.
      assert (H' : int_body false 0 (String c body) = Some n).
      { revert H. destruct c as [[] [] [] [] [] [] [] []]; auto; congruence. }
      now apply (Whole n).
Qed.

Lemma contains_point (s : string) : contains "." s = mentions "." s.
Proof.
  induction s as [|c s IH]; [reflexivity|].
  rewrite contains_char_cons, IH.
  change (mentions "." (String c s))
    with ((same_letter "." c && true) || mentions "." s).
  unfold same_letter. change (between 97 122 ".") with false.
  now rewrite andb_true_r, (Ascii.eqb_sym c "."), orb_false_r.
Qed.

(** The two tests of the boolean words, in the words of the
    specification. *)
Lemma type_answer_words (E : Env) (a : string) :
  py_int a = None -> mentions "." a = false \/ py_float E a = None ->
  type_answer E a =
  if spells "true" a || spells "yes" a then VBool true
  else if spells "false" a || spells "no" a then VBool false
  else VStr a.
Proof.
  intros Hn H. unfold type_answer. rewrite contains_point.
  assert (P : (if mentions "." a then option_map VFloat (py_float E a)
               else option_map VInt (py_int a)) = None).
  { destruct H as [Dot|Hf].
    - now rewrite Dot, Hn.
    - destruct (mentions "." a); [now rewrite Hf | now rewrite Hn]. }
  rewrite P. cbn [existsb].
  rewrite (lower_spells "true" a eq_refl), (lower_spells "yes" a eq_refl),
          (lower_spells "false" a eq_refl), (lower_spells "no" a eq_refl).
  now rewrite !orb_false_r.
Qed.

(** C9.  In the fallback one prompt is sent to the model: the first
    2000 characters of the page text as the context, then the question.
    If the call fails the answer is the string error and nothing is
    raised.  Otherwise the text of the model is trimmed of the whitespace
    at its ends, every backtick and quote is left out, and the answer is:
    the integer when what is left parses as one; else the float when it
    has a decimal point and parses as a float; else true when it is the
    word true or yes and false when it is the word false or no, in any
    case of letters; else what is left, as a string. *)
Theorem model_answer_typing (E : Env) (question page_text : string) (tr : trace) :
  exists context prompt,
    first_chars 2000 page_text context /\
    prompt = (newline ++ "Context:" ++ newline ++ context ++ newline ++ newline ++
              "Question: " ++ question ++ newline ++ newline ++
              "Answer (just the value):" ++ newline)%string /\
    match generate_content E tr prompt with
    | Raise _ =>
        gemini_answer E question page_text tr =
        (Ok (VStr "error"), (tr ++ [EvGenerate prompt])%list)
    | Ok text =>
        exists core a v,
          trimmed text core /\ unquoted core a /\
          gemini_answer E question page_text tr =
          (Ok v, (tr ++ [EvGenerate prompt])%list) /\
          (forall n, py_int a = Some n -> v = VInt n) /\
          (forall f, py_int a = None -> mentions "." a = true ->
                     py_float E a = Some f -> v = VFloat f) /\
          (py_int a = None -> mentions "." a = false \/ py_float E a = None ->
           v = if spells "true" a || spells "yes" a then VBool true
               else if spells "false" a || spells "no" a then VBool false
               else VStr a)
    end.
Proof.
  exists (take 2000 page_text), (answer_prompt page_text question).
  split; [apply take_first_chars|]. split; [reflexivity|].
  set (prompt := answer_prompt page_text question).
  unfold gemini_answer. fold prompt.
  unfold try_catch, bind, call, ret.
  destruct (generate_content E tr prompt) as [text|e]; [|reflexivity].
  exists (strip text), (clean_answer text), (type_answer E (clean_answer text)).
  set (a := clean_answer text).
  split; [apply strip_trimmed|]. split; [apply remove_quoting_unquoted|].
  split; [reflexivity|]. repeat split.
  - intros n Hn. unfold type_answer.
    rewrite (py_int_no_point _ _ Hn), Hn. reflexivity.
  - intros f Hn Dot Hf. unfold type_answer.
    rewrite contains_point. now rewrite Dot, Hf.
  - apply type_answer_words.
Qed.

End AnswerFacts.

(* ===================================================================== *)
(** ** The sum over the first number column *)
(* ===================================================================== *)

Module TableFacts.
Import PyStr Re Py Quiz Spec.
Local Open Scope list_scope.
Local Open Scope Z_scope.

Lemma fold_add_shift (l : list Z) (a : Z) :
  fold_left Z.add l a = a + fold_left Z.add l 0.
Proof.
  revert a; induction l as [|v l IH]; intros a; simpl; [lia|].
  rewrite (IH (a + v)), (IH v). lia.
Qed.


Lemma wrap_uint64_range z : uint64_range (wrap_uint64 z).
Proof.
  unfold uint64_range, wrap_uint64.
  pose proof (Z.mod_pos_bound z (2 ^ 64) ltac:(lia)). lia.
Qed.



(** In its range a number is not changed by wrapping. *)
Lemma wrap_int64_exact z : int64_range z -> wrap_int64 z = z.
Proof.
  unfold int64_range, wrap_int64. intros R.
  rewrite Z.mod_small by lia. lia.
Qed.

Lemma wrap_uint64_exact z : uint64_range z -> wrap_uint64 z = z.
Proof. unfold uint64_range, wrap_uint64. intros R. now apply Z.mod_small. Qed.

Lemma wrap_int64_add a v : wrap_int64 (wrap_int64 a + v) = wrap_int64 (a + v).
Proof.
  unfold wrap_int64. f_equal.
  replace ((a + 2 ^ 63) mod 2 ^ 64 - 2 ^ 63 + v + 2 ^ 63)
    with ((a + 2 ^ 63) mod 2 ^ 64 + v) by lia.
  rewrite Zplus_mod_idemp_l. f_equal. lia.
Qed.

Lemma wrap_uint64_add a v : wrap_uint64 (wrap_uint64 a + v) = wrap_uint64 (a + v).
Proof. unfold wrap_uint64. now rewrite Zplus_mod_idemp_l. Qed.

(** Adding with wrap-around at every step is wrapping the exact sum. *)
Lemma fold_wrap (wrap : Z -> Z) (l : list Z) :
  (forall a v, wrap (wrap a + v) = wrap (a + v)) ->
  forall a, fold_left (fun acc v => wrap (acc + v)) l (wrap a) =
            wrap (a + fold_left Z.add l 0).
Proof.
  intros W. induction l as [|v l IH]; intros a; simpl.
  - f_equal. lia.
  - rewrite W, IH. f_equal.
    rewrite (fold_add_shift l v). lia.
Qed.

Lemma select_gt (vals : list Z) (cutoff : Z) :
  fold_left Z.add (select (map (fun v => Z.gtb v cutoff) vals) vals) 0 =
  sum_greater cutoff vals.
Proof.
  induction vals as [|v vals IH]; [reflexivity|].
  simpl. rewrite Z.gtb_ltb. destruct (Z.ltb cutoff v); [|exact IH].
  simpl. rewrite fold_add_shift, IH. reflexivity.
Qed.

(** Masking an integer column with its own comparison and adding up what
    is left is the sum of the values above the cutoff, wrapped. *)
Lemma masked_sum_int64 (vals : list Z) (cutoff : Z) :
  fold_left (fun acc v => wrap_int64 (acc + v))
            (select (map (fun v => Z.gtb v cutoff) vals) vals) 0 =
  wrap_int64 (sum_greater cutoff vals).
Proof.
  change 0 with (wrap_int64 0) at 1.
  now rewrite (fold_wrap wrap_int64 _ wrap_int64_add), select_gt.
Qed.

Lemma masked_sum_uint64 (vals : list Z) (cutoff : Z) :
  fold_left (fun acc v => wrap_uint64 (acc + v))
            (select (map (fun v => Z.gtb v cutoff) vals) vals) 0 =
  wrap_uint64 (sum_greater cutoff vals).
Proof.
  change 0 with (wrap_uint64 0) at 1.
  now rewrite (fold_wrap wrap_uint64 _ wrap_uint64_add), select_gt.
Qed.

Lemma select_floats (vals : list float) (cutoff : Z) :
  select (map (fun v => PrimFloat.ltb (float_of_int cutoff) v) vals) vals =
  floats_above cutoff vals.
Proof.
  unfold floats_above. induction vals as [|v vals IH]; [reflexivity|].
  simpl. destruct (PrimFloat.ltb _ v); now rewrite IH.
Qed.

Lemma numeric_labels_objects (texts : list (list string)) (rest : DataFrame) (k : nat) :
  numeric_labels k (map ObjectColumn texts ++ rest) =
  numeric_labels (k + List.length texts) rest.
Proof.
  revert k; induction texts as [|t texts IH]; intros k; simpl.
  - now rewrite Nat.add_0_r.
  - rewrite IH. f_equal. lia.
Qed.

Lemma nth_error_objects (texts : list (list string)) (x : column) (post : DataFrame) :
  nth_error (map ObjectColumn texts ++ x :: post) (List.length texts) = Some x.
Proof. induction texts; simpl; auto. Qed.

Lemma filter_rows_objects mask (texts : list (list string)) (rest : DataFrame) :
  filter_rows mask (map ObjectColumn texts ++ rest) =
  map ObjectColumn (map (select mask) texts) ++ filter_rows mask rest.
Proof.
  unfold filter_rows. rewrite map_app, !map_map. reflexivity.
Qed.

(** With a first number column the branch sums what that column holds
    above the cutoff, in the column's own arithmetic. *)
Lemma sum_above_cutoff_first E (df : DataFrame) (col : column) (cutoff : Z) :
  first_number_column df col ->
  sum_above_cutoff E df cutoff =
  match col with
  | IntColumn vals => Some (NInt (wrap_int64 (sum_greater cutoff vals)))
  | UIntColumn vals => Some (NInt (wrap_uint64 (sum_greater cutoff vals)))
  | FloatColumn vals => Some (NFloat (float_sum E (floats_above cutoff vals)))
  | ObjectColumn _ => None
  end.
Proof.
  intros (Num & texts & after & ->). unfold sum_above_cutoff.
  rewrite numeric_labels_objects. cbn [numeric_labels]. rewrite Num.
  cbn [Nat.add]. rewrite nth_error_objects.
  destruct col as [vals|vals|vals|vals]; [| | |discriminate Num];
    cbn [gt_mask]; cbv zeta; rewrite filter_rows_objects;
    match goal with
    | |- context [map (select ?mask) texts] =>
        rewrite <- (length_map (select mask) texts)
    end;
    cbn [filter_rows map]; rewrite nth_error_objects; cbn [series_sum].
  - now rewrite masked_sum_int64.
  - now rewrite masked_sum_uint64.
  - now rewrite select_floats.
Qed.

Lemma sum_above_cutoff_none E (texts : list (list string)) (cutoff : Z) :
  sum_above_cutoff E (map ObjectColumn texts) cutoff = None.
Proof.
  unfold sum_above_cutoff.
  rewrite <- (app_nil_r (map ObjectColumn texts)), numeric_labels_objects.
  reflexivity.
Qed.

(** A frame has a first number column or no number column at all. *)
Lemma frame_cases (df : DataFrame) :
  (exists col, first_number_column df col) \/
  (exists texts, df = map ObjectColumn texts).
Proof.
  induction df as [|col df IH].
  - right. now exists [].
  - destruct (is_number col) eqn:Num.
    + left. exists col. split; [exact Num|]. now exists [], df.
    + destruct col as [vals|vals|vals|text]; try discriminate Num.
      destruct IH as [(c & N & texts & after & ->) | (texts & ->)].
      * left. exists c. split; [exact N|]. now exists (text :: texts), after.
      * right. now exists (text :: texts).
Qed.

Lemma sum_greater_nonneg (cutoff : Z) (vals : list Z) :
  0 <= cutoff -> 0 <= sum_greater cutoff vals.
Proof.
  intros H. induction vals as [|v vals IH]; simpl; [lia|].
  destruct (Z.ltb_spec cutoff v); lia.
Qed.

Lemma sum_greater_monotone (c1 c2 : Z) (vals : list Z) :
  0 <= c1 <= c2 -> sum_greater c2 vals <= sum_greater c1 vals.
Proof.
  intros H. induction vals as [|v vals IH]; simpl; [lia|].
  destruct (Z.ltb_spec c2 v); destruct (Z.ltb_spec c1 v); lia.
Qed.

(** The digits a pattern captures are read by [int] as their value. *)
Lemma int_body_digits : forall s b acc,
  all_chars isdigit s = true -> (b = true \/ s <> "")%string ->
  int_body b acc s = Some (digits_value acc s).
Proof.
  induction s as [|c s IH]; intros b acc A N; simpl in *.
  - destruct N as [-> | N]; [reflexivity | congruence].
  - apply andb_true_iff in A as [D A]. rewrite D. apply IH; auto.
Qed.

Lemma digits_value_nonneg : forall s acc,
  all_chars isdigit s = true -> 0 <= acc -> 0 <= digits_value acc s.
Proof.
  induction s as [|c s IH]; intros acc A H;
    cbn [digits_value all_chars] in *; [assumption|].
  apply andb_true_iff in A as [D A]. apply IH; [assumption|].
  unfold isdigit, between in D. apply andb_true_iff in D as [D1 D2].
  apply N.leb_le in D1. apply N.leb_le in D2. lia.
Qed.

Lemma count_chars_all (p : ascii -> bool) (s : string) :
  all_chars p s = true -> count_chars p s = String.length s.
Proof.
  induction s as [|c s IH]; simpl; [reflexivity|].
  intros H. apply andb_true_iff in H as [Pc H]. rewrite Pc. now rewrite IH.
Qed.

Lemma digit_not_int_space c : isdigit c = true -> int_space c = false.
Proof.
  destruct c as [[] [] [] [] [] [] [] []]; vm_compute; congruence.
Qed.

(** [int] on a run of digits: its value, unless the run is longer than
    the limit of digits. *)
Lemma py_int_digits (s : string) :
  all_chars isdigit s = true -> s <> ""%string ->
  py_int s = (if Nat.leb (String.length s) int_max_str_digits
              then Some (digits_value 0 s) else None) /\
  0 <= digits_value 0 s.
Proof.
  intros A N. split; [|now apply digits_value_nonneg].
  unfold py_int. cbv zeta.
  assert (Strip : strip_by int_space s = s).
  { unfold strip_by.
    assert (L : forall t, all_chars isdigit t = true -> lstrip_by int_space t = t).
    { intros [|c t] H; [reflexivity|]. simpl in *.
      apply andb_true_iff in H as [D _].
      now rewrite (digit_not_int_space c D). }
    rewrite (L s A).
    clear N L. induction s as [|c t IH]; [reflexivity|]. simpl in *.
    apply andb_true_iff in A as [D A]. rewrite (IH A).
    destruct t; [|reflexivity].
    now rewrite (digit_not_int_space c D). }
  rewrite Strip, (count_chars_all _ _ A).
  destruct (Nat.leb (String.length s) int_max_str_digits); [|reflexivity].
  destruct s as [|c t]; [congruence|].
  assert (D : isdigit c = true) by (simpl in A; now apply andb_true_iff in A as [D _]).
  assert (R : int_body false 0 (String c t) = Some (digits_value 0 (String c t))).
  { apply int_body_digits; [assumption | right; discriminate]. }
  destruct c as [[] [] [] [] [] [] [] []]; vm_compute in D; try discriminate D; exact R.
Qed.

(** C6, as the code has it.  Take a frame whose first number column is
    an integer column ([int64] or [uint64]) and two cutoffs c1 <= c2,
    natural numbers as read from a run of digits.  If the sum of the
    values above c1 fits the column's dtype, the branch computes for c1
    and for c2 the exact sums of the values above them, and the sum for
    c2 is at most the sum for c1. *)
Theorem sum_monotone_in_cutoff
        (E : Env) (df : DataFrame) (vals : list Z) (c1 c2 : N) :
  (c1 <= c2)%N ->
  first_number_column df (IntColumn vals) /\ sum_greater (Z.of_N c1) vals < 2 ^ 63 \/
  first_number_column df (UIntColumn vals) /\ sum_greater (Z.of_N c1) vals < 2 ^ 64 ->
  sum_above_cutoff E df (Z.of_N c1) = Some (NInt (sum_greater (Z.of_N c1) vals)) /\
  sum_above_cutoff E df (Z.of_N c2) = Some (NInt (sum_greater (Z.of_N c2) vals)) /\
  sum_greater (Z.of_N c2) vals <= sum_greater (Z.of_N c1) vals.
Proof.
  intros Le Fits.
  pose proof (sum_greater_monotone (Z.of_N c1) (Z.of_N c2) vals ltac:(lia)) as Mono.
  pose proof (sum_greater_nonneg (Z.of_N c2) vals ltac:(lia)) as Pos.
  destruct Fits as [[F Fit] | [F Fit]];
    rewrite !(sum_above_cutoff_first E df _ _ F).
  - rewrite !wrap_int64_exact by (unfold int64_range; lia). auto.
  - rewrite !wrap_uint64_exact by (unfold uint64_range; lia). auto.
Qed.

End TableFacts.

(* ===================================================================== *)
(** ** The page analyzer *)
(* ===================================================================== *)

Module AnalyzeFacts.
Import PyStr Re Py Quiz Spec StrFacts ReFacts PatternFacts MFacts.
Local Open Scope py_scope.

Lemma falsy_false (x : option string) :
  falsy x = false -> exists u, x = Some u /\ u <> "".
Proof.
  destruct x as [[|c u]|]; simpl; try discriminate.
  intros _. exists (String c u). split; [reflexivity | discriminate].
Qed.

(** The last resort always yields a URL, and the hardcoded one when the
    text holds none. *)
Lemma fallback_submit_url_some (page_text : string) :
  exists u, fallback_submit_url page_text = Some u /\ u <> "" /\
            (findall false re_https_url page_text = [] -> u = default_submit_url).
Proof.
  unfold fallback_submit_url.
  set (urls := findall false re_https_url page_text).
  set (first := find (fun u => contains "submit" (lower u)) urls).
  set (second := if falsy first && negb (Nat.eqb (List.length urls) 0)
                 then hd_error urls else first).
  destruct (falsy second) eqn:F.
  - exists default_submit_url. repeat split; auto. discriminate.
  - destruct (falsy_false _ F) as (u & Hu & Ne). exists u. rewrite Hu.
    repeat split; auto. intros Nil. exfalso.
    subst second first. rewrite Nil in *. simpl in *. discriminate.
Qed.

(** C2.  The analyzer returns for every page text, whatever the model
    does: it never raises, and the submit URL of its result is present
    and not empty.  When none of its steps discovers a URL (no pattern
    matches, the model fails or names no URL, the text holds no URL) the
    submit URL is the hardcoded endpoint; so it is, in particular, for a
    text that holds neither the word POST nor the scheme https, in any
    case of letters, when the model is silent. *)
Theorem analyzer_total (E : Env) (page_text : string) (tr : trace) :
  exists a tr' u,
    analyze_quiz_page E page_text tr = (Ok a, tr') /\
    submit_url a = Some u /\ u <> "" /\
    question a = take 500 page_text /\
    (nothing_discovered E page_text tr -> u = default_submit_url) /\
    (occurs true "POST" page_text = false ->
     occurs true "https://" page_text = false ->
     model_silent E page_text tr -> u = default_submit_url).
Proof.
  cut (exists a tr' u,
          analyze_quiz_page E page_text tr = (Ok a, tr') /\
          submit_url a = Some u /\ u <> "" /\
          question a = take 500 page_text /\
          (nothing_discovered E page_text tr -> u = default_submit_url)).
  { intros (a & tr' & u & Run & Su & Ne & Q & D).
    exists a, tr', u. repeat split; auto.
    intros NoPost NoScheme Silent. apply D.
    destruct (no_scheme_no_url _ NoScheme) as (S2 & _ & F).
    repeat split; auto using no_post_word. }
  unfold analyze_quiz_page, nothing_discovered, model_silent.
  destruct (search true re_post_submit page_text) as [m|] eqn:S1.
  { destruct (search_inv _ _ _ _ S1) as (pre & suf & _ & Hm & _).
    destruct (post_submit_match _ _ _ _ Hm) as (g & G & Ne).
    exists {| submit_url := m_group1 m; question := take 500 page_text |}, tr, g.
    repeat split; auto. intros (X & _). discriminate. }
  destruct (search true re_submit_url page_text) as [m|] eqn:S2.
  { destruct (search_inv _ _ _ _ S2) as (pre & suf & _ & Hm & _).
    destruct (submit_url_match _ _ _ _ Hm) as (w1 & w2 & w3 & _ & L1 & _ & _ & _ & G & _).
    exists {| submit_url := m_group1 m; question := take 500 page_text |}, tr,
           (w1 ++ w2 ++ w3)%string.
    repeat split; auto.
    - destruct w1; [discriminate L1 | discriminate].
    - intros (_ & X & _). discriminate. }
  unfold bind, try_catch, call, ret.
  destruct (fallback_submit_url_some page_text) as (u & Fu & Ne & Dflt).
  destruct (generate_content E tr (analyze_prompt page_text)) as [text|e].
  - destruct (search false re_https_url (strip text)) as [m|] eqn:S3.
    + destruct (search_inv _ _ _ _ S3) as (pre & suf & _ & Hm & _).
      destruct (https_url_match _ _ _ _ Hm) as (w1 & w2 & _ & L1 & N2 & G).
      eexists; eexists; exists (m_group0 m). repeat split; auto.
      * rewrite G. intros X. destruct w1; [discriminate L1 | discriminate X].
      * intros (_ & _ & X & _). discriminate.
    + eexists; eexists; exists u. repeat split; auto.
      intros (_ & _ & _ & X). auto.
  - eexists; eexists; exists u. repeat split; auto.
    intros (_ & _ & _ & X). auto.
Qed.

(** C3, as the code has it.  Take a page text that holds an https URL
    with at least one character between the scheme and a [/submit] (the
    scheme and the [/submit] in any case of letters), no such URL
    beginning earlier in the text.  Let the POST pattern find nothing as it
    is written, and find nothing or this very URL as it is meant (without
    the bracket before the scheme).  The analyzer returns that URL up to
    and including its last [/submit], from the second pattern and without
    calling the model (the trace is unchanged).  With nothing after that
    [/submit] (an empty [tail]) this is the exact URL.  What the analyzer
    does where the bracket changes what the POST pattern finds is not
    stated here. *)
Theorem analyzer_first_submit_url
        (E : Env) (pre scheme body sub tail post : string) (tr : trace) :
  let url := (scheme ++ body ++ sub)%string in
  let page_text := (pre ++ scheme ++ body ++ sub ++ tail ++ post)%string in
  lit_eq true "https://" scheme = true ->
  lit_eq true "/submit" sub = true ->
  body <> "" ->
  all_chars (cs_mem true url_char) body = true ->
  all_chars (cs_mem true url_char) tail = true ->
  stops (cs_mem true url_char) post = true ->
  occurs true "/submit" (drop 1 sub ++ tail) = false ->
  submit_url_before (String.length pre) page_text = false ->
  match search true re_post_intended page_text with
  | Some m => m_group1 m = Some url
  | None => True
  end ->
  search true re_post_submit page_text = None ->
  analyze_quiz_page E page_text tr =
  (Ok {| submit_url := Some url; question := take 500 page_text |}, tr).
Proof.
  intros url page_text Ls Lsub Nb Ab At St Last First _ NoPost.
  destruct (submit_url_found pre scheme body sub tail post Ls Lsub Nb Ab At St Last First)
    as (m & S & G).
  fold page_text in S.
  unfold analyze_quiz_page. rewrite NoPost, S, G. reflexivity.
Qed.

End AnalyzeFacts.

(* ===================================================================== *)
(** ** The answer resolver *)
(* ===================================================================== *)

Module ResolveFacts.
Import PyStr Re Py Quiz Spec StrFacts TextFacts ReFacts PatternFacts MFacts TableFacts.
Local Open Scope py_scope.

Lemma labeled_code_shift pre suf d :
  labeled_code_at suf "" d -> labeled_code_at (pre ++ suf) pre d.
Proof.
  intros (c & s1 & s2 & s3 & post & E & H). simpl in E. subst suf.
  exists c, s1, s2, s3, post. auto.
Qed.

(** What is taken from the scraped text. *)
Lemma extract_secret_spec (scraped : string) :
  exists answer,
    extract_secret scraped = Some answer /\
    ((exists d, labeled_code scraped d) -> labeled_code scraped answer) /\
    (~ (exists d, labeled_code scraped d) ->
     (exists d, standalone_run scraped d) -> first_standalone_run scraped answer) /\
    (~ (exists d, labeled_code scraped d) ->
     ~ (exists d, standalone_run scraped d) -> trimmed scraped answer).
Proof.
  unfold extract_secret.
  destruct (search false re_secret_code scraped) as [m|] eqn:S1.
  { destruct (search_inv _ _ _ _ S1) as (pre & suf & -> & Hm & _).
    destruct (secret_code_match _ _ _ _ Hm) as (d & G & L).
    assert (Lab : labeled_code (pre ++ suf) d).
    { exists pre. now apply labeled_code_shift. }
    exists d. rewrite G. repeat split; auto.
    - intros N. elim N. now exists d.
    - intros N. elim N. now exists d. }
  assert (NoLab : ~ (exists d, labeled_code scraped d)).
  { intros (d & pre & L). exact (secret_code_found _ _ _ L S1). }
  destruct (search false re_digit_run scraped) as [m|] eqn:S2.
  - destruct (search_inv _ _ _ _ S2) as (pre & suf & -> & Hm & Hn).
    destruct (digit_run_match _ _ _ _ Hm) as (d & post & -> & A & L & Wb & Wa & G).
    assert (St : standalone_at (pre ++ d ++ post) pre d post).
    { repeat split; auto. }
    exists d. rewrite G. repeat split; auto.
    + intros X. now elim NoLab.
    + intros _ _. exists pre, post. split; [exact St|].
      intros pre' d' post' St'.
      destruct (Nat.le_gt_cases (String.length pre) (String.length pre')) as [|Lt];
        [assumption|].
      exfalso. pose proof St' as (Eq & _).
      apply (digit_run_found _ _ _ _ St' 0%nat). now apply Hn.
    + intros _ N. elim N. exists d, pre, post. exact St.
  - exists (strip scraped). split; [reflexivity|].
    split; [|split]; [| |intros _ _; apply strip_trimmed].
    + intros X. now elim NoLab.
    + intros _ (d & pre & post & St). exfalso.
      pose proof St as (Eq & _). rewrite Eq in S2.
      exact (digit_run_found _ _ _ _ St 0%nat (search_none _ _ _ _ S2 0%nat)).
Qed.

(** C7.  When the question holds a scrape instruction, whose path is the
    run of non-space characters after the word Scrape and its whitespace,
    and the page at that path joined to the base URL is fetched, the
    answer is a string: the digits of a phrase Secret code is N of the
    scraped text if it has one; else its first run of five or more digits
    that no word character touches, if it has one; else the scraped text
    without the whitespace at its two ends (what is left neither begins
    nor ends with whitespace).  Whitespace and word characters are those
    of Python on the code points below 256.  Nothing else is done: the
    trace is the one the fetch left. *)
Theorem scrape_branch
        (E : Env) (question page_text page_html : string) (base_url : value)
        (tr : trace) (m : match_obj) (path url scraped html : string) (tr' : trace) :
  search true re_scrape question = Some m ->
  m_group1 m = Some path ->
  urljoin E base_url path = Ok url ->
  fetch_page_with_playwright E (VStr url) 3 tr = (Ok (Some (scraped, html)), tr') ->
  (exists before w sp after,
      question = before ++ w ++ sp ++ path ++ after /\
      lit_eq true "Scrape" w = true /\ ws_run sp = true /\ path <> "" /\
      all_chars (fun a => negb (isspace a)) path = true /\
      stops (fun a => negb (isspace a)) after = true) /\
  exists answer,
    solve_question E question page_text page_html base_url tr = (Ok (VStr answer), tr') /\
    ((exists d, labeled_code scraped d) -> labeled_code scraped answer) /\
    (~ (exists d, labeled_code scraped d) ->
     (exists d, standalone_run scraped d) -> first_standalone_run scraped answer) /\
    (~ (exists d, labeled_code scraped d) ->
     ~ (exists d, standalone_run scraped d) -> trimmed scraped answer).
Proof.
  intros S G U F. split.
  - destruct (search_inv _ _ _ _ S) as (before & suf & -> & Hm & _).
    destruct (scrape_match _ _ _ _ Hm) as (w & sp & path' & after & -> & L & W & N & A & St & G').
    rewrite G in G'. inversion G'; subst path'.
    exists before, w, sp, after. repeat split; assumption.
  - destruct (extract_secret_spec scraped) as (answer & X & P1 & P2 & P3).
    exists answer. split; [|auto].
    unfold solve_question. rewrite S, G. unfold bind, lift. rewrite U, F.
    simpl. unfold ret. rewrite X. reflexivity.
Qed.

(** The cutoff read from a text is a natural number. *)
Lemma cutoff_value combined m :
  search false re_cutoff combined = Some m ->
  exists digits,
    m_group1 m = Some digits /\ digit_run digits = true /\
    py_int digits = (if Nat.leb (String.length digits) int_max_str_digits
                     then Some (digits_value 0 digits) else None) /\
    (0 <= digits_value 0 digits)%Z.
Proof.
  intros S. destruct (search_inv _ _ _ _ S) as (pre & suf & _ & Hm & _).
  destruct (cutoff_match _ _ _ _ Hm) as (d & G & D).
  exists d. unfold digit_run in D. apply andb_true_iff in D as [N A].
  destruct (py_int_digits d A) as [P Z0].
  { now apply nonempty_neq. }
  repeat split; auto. unfold digit_run. now rewrite N, A.
Qed.



End ResolveFacts.
(* ===================================================================== *)
(** ** What a computation emits and returns *)
(* ===================================================================== *)

Module TraceFacts.
Import PyStr Re Py Quiz Spec Props MFacts.
Local Open Scope py_scope.
Local Open Scope list_scope.

Lemma emits_weaken {A} (P P' : event -> Prop) (Q Q' : A -> Prop) (c : M A) :
  (forall e, P e -> P' e) -> (forall a, Q a -> Q' a) ->
  emits P Q c -> emits P' Q' c.
Proof.
  intros HP HQ H tr. destruct (H tr) as (evs & E & F & R).
  exists evs. repeat split; auto.
  eapply Forall_impl; [|exact F]. exact HP.
Qed.

Lemma emits_ret {A} P (Q : A -> Prop) (a : A) : Q a -> emits P Q (ret a).
Proof.
  intros H tr. exists []. simpl. rewrite app_nil_r.
  repeat split; auto. intros a' X. inversion X. subst a'. exact H.
Qed.

Lemma emits_raise {A} P (Q : A -> Prop) msg : emits P Q (raise msg).
Proof.
  intros tr. exists []. simpl. rewrite app_nil_r.
  repeat split; auto. intros a' X. discriminate X.
Qed.

Lemma emits_lift {A} P (Q : A -> Prop) (o : outcome A) :
  (forall a, o = Ok a -> Q a) -> emits P Q (lift o).
Proof.
  intros H tr. exists []. simpl. rewrite app_nil_r. repeat split; auto.
Qed.

Lemma emits_emit P (Q : unit -> Prop) (e : event) :
  P e -> Q tt -> emits P Q (emit e).
Proof.
  intros He Ht tr. exists [e]. simpl. repeat split; auto.
  intros [] _. exact Ht.
Qed.

Lemma emits_call {A} P (Q : A -> Prop) (e : event) (o : trace -> outcome A) :
  P e -> (forall tr a, o tr = Ok a -> Q a) -> emits P Q (call e o).
Proof.
  intros He Ho tr. exists [e]. simpl. repeat split; auto. apply Ho.
Qed.

Lemma emits_bind {A B} P (Q : A -> Prop) (R : B -> Prop) (c : M A) (f : A -> M B) :
  emits P Q c -> (forall a, Q a -> emits P R (f a)) -> emits P R (bind c f).
Proof.
  intros Hc Hf tr. unfold bind.
  destruct (Hc tr) as (e1 & E1 & F1 & R1).
  destruct (c tr) as [[a|msg] tr1]; simpl in E1, R1; subst tr1.
  - destruct (Hf a (R1 a eq_refl) (tr ++ e1)) as (e2 & E2 & F2 & R2).
    exists (e1 ++ e2). rewrite E2, app_assoc. repeat split; auto.
    apply Forall_app. split; assumption.
  - exists e1. simpl. repeat split; auto. intros b X. discriminate X.
Qed.

Lemma emits_try {A} P (Q : A -> Prop) (c : M A) (h : string -> M A) :
  emits P Q c -> (forall e, emits P Q (h e)) -> emits P Q (try_catch c h).
Proof.
  intros Hc Hh tr. unfold try_catch.
  destruct (Hc tr) as (e1 & E1 & F1 & R1).
  destruct (c tr) as [[a|msg] tr1]; simpl in E1, R1; subst tr1.
  - exists e1. simpl. repeat split; auto.
  - destruct (Hh msg (tr ++ e1)) as (e2 & E2 & F2 & R2).
    exists (e1 ++ e2). rewrite E2, app_assoc. repeat split; auto.
    apply Forall_app. split; assumption.
Qed.

Lemma emits_for_each {A} P (Q : A -> Prop) (body : nat -> M (flow A)) :
  (forall i, emits P (fun f => match f with Return a => Q a | Continue => True end)
                   (body i)) ->
  forall l, emits P (fun r => match r with Some a => Q a | None => True end)
                  (for_each l body).
Proof.
  intros Hb l. induction l as [|i l IH]; simpl.
  - now apply emits_ret.
  - eapply emits_bind; [apply Hb|].
    intros [a|] Ha; [now apply emits_ret | exact IH].
Qed.

(** Computations that always return. *)

Lemma returns_ret {A} (Q : A -> Prop) (a : A) : Q a -> returns Q (ret a).
Proof. intros H tr. exists a, tr. split; [reflexivity | exact H]. Qed.

Lemma returns_emit (Q : unit -> Prop) (e : event) : Q tt -> returns Q (emit e).
Proof. intros H tr. exists tt, (tr ++ [e]). split; [reflexivity | exact H]. Qed.

Lemma returns_bind {A B} (Q : A -> Prop) (R : B -> Prop) (c : M A) (f : A -> M B) :
  returns Q c -> (forall a, Q a -> returns R (f a)) -> returns R (bind c f).
Proof.
  intros Hc Hf tr. destruct (Hc tr) as (a & tr1 & E1 & Qa).
  destruct (Hf a Qa tr1) as (b & tr2 & E2 & Rb).
  exists b, tr2. unfold bind. rewrite E1. split; assumption.
Qed.

Lemma returns_try {A} (Q : A -> Prop) (c : M A) (h : string -> M A) :
  (forall tr a tr', c tr = (Ok a, tr') -> Q a) ->
  (forall e, returns Q (h e)) -> returns Q (try_catch c h).
Proof.
  intros Hc Hh tr. unfold try_catch.
  destruct (c tr) as [[a|msg] tr1] eqn:X.
  - exists a, tr1. split; [reflexivity|]. eapply Hc; exact X.
  - apply Hh.
Qed.

Lemma returns_weaken {A} (Q Q' : A -> Prop) (c : M A) :
  (forall a, Q a -> Q' a) -> returns Q c -> returns Q' c.
Proof.
  intros HQ H tr. destruct (H tr) as (a & tr' & E & Qa). exists a, tr'. auto.
Qed.

Lemma only_for_each {A} P (body : nat -> M (flow A)) (l : list nat) :
  (forall i, only P (body i)) -> only P (for_each l body).
Proof.
  intros Hb. unfold only in *. induction l as [|i l IH]; simpl.
  - apply emits_ret. exact I.
  - eapply emits_bind with (Q := fun _ => True); [apply Hb|].
    intros [a|] _; [apply emits_ret; exact I | exact IH].
Qed.

(** Syntax-directed proof that a computation leaves only events that
    [HP] lets through, when nothing is claimed of its result. *)
Ltac only_events HP :=
  repeat (intros;
    match goal with
    | |- only _ _ => unfold only
    | |- emits _ _ (ret _) => apply emits_ret; exact I
    | |- emits _ _ (raise _) => apply emits_raise
    | |- emits _ _ (lift _) => apply emits_lift; intros; exact I
    | |- emits _ _ (unpack ?x) => destruct x; unfold unpack
    | |- emits _ _ (sleep _) => apply emits_emit; [apply HP; reflexivity | exact I]
    | |- emits _ _ (call _ _) =>
        apply emits_call; [apply HP; reflexivity | intros; exact I]
    | |- emits _ _ (bind _ _) => eapply emits_bind with (Q := fun _ => True)
    | |- emits _ _ (try_catch _ _) => apply emits_try
    | |- emits _ _ (for_each _ _) => apply only_for_each
    | |- emits _ _ (match ?x with _ => _ end) => destruct x
    end).

(** Syntax-directed proof that a computation leaves no event of a kind,
    the kind of each event being computed. *)
Ltac silent :=
  repeat (intros;
    match goal with
    | |- extends (ret _) _ _ => refine (extends_ret _ _)
    | |- extends (raise _) _ _ => refine (extends_raise _ _)
    | |- extends (lift _) _ _ => refine (extends_lift _ _)
    | |- extends (unpack ?x) _ _ => destruct x; unfold unpack
    | |- extends (sleep _) _ _ => refine (extends_emit0 _ _ eq_refl)
    | |- extends (call _ _) _ _ => refine (extends_call0 _ _ _ eq_refl)
    | |- extends (bind _ _) _ _ => refine (extends_bind _ _ 0 0 _ _ _)
    | |- extends (try_catch _ _) _ _ => refine (extends_try _ _ 0 0 _ _ _)
    | |- extends (for_each _ _) _ _ => refine (extends_for_each0 _ _ _ _)
    | |- extends (match ?x with _ => _ end) _ _ => destruct x
    end).

End TraceFacts.
(* ===================================================================== *)
(** ** The retry loops for any number of retries *)
(* ===================================================================== *)

Module LoopFacts.
Import PyStr Re Py Quiz Spec Props MFacts TraceFacts.
Local Open Scope py_scope.
Local Open Scope list_scope.

(** One attempt of the fetch, by what the browser does. *)
Lemma fetch_attempt_run E url tr :
  fetch_attempt E url tr =
  match page_goto E tr url with
  | Ok _ =>
      (page_read E ((tr ++ [EvGoto url]) ++ [EvSleep 2]) url,
       ((tr ++ [EvGoto url]) ++ [EvSleep 2]) ++ [EvRead url])
  | Raise e => (Raise e, tr ++ [EvGoto url])
  end.
Proof.
  unfold fetch_attempt, bind, call, sleep, emit.
  destruct (page_goto E tr url); reflexivity.
Qed.

Lemma fetch_unfold E url retries :
  fetch_page_with_playwright E url retries =
  for_each (range retries) (fetch_body E url retries).
Proof. reflexivity. Qed.

Lemma post_unfold E u payload retries :
  post_with_retries E u payload retries =
  (r <- for_each (range retries) (post_body E u payload retries) ;;
   ret (match r with Some v => v | None => VNone end)).
Proof. reflexivity. Qed.

(** A loop whose last round cannot go on never runs out. *)
Lemma for_each_ends {A} (body : nat -> M (flow A)) (retries : nat) :
  (forall tr tr', body (retries - 1)%nat tr <> (Ok Continue, tr')) ->
  forall m a tr tr',
    (a + S m = retries)%nat ->
    for_each (seq a (S m)) body tr <> (Ok None, tr').
Proof.
  intros Last m. induction m as [|m IH]; intros a tr tr' Sum.
  - simpl. unfold bind. replace a with (retries - 1)%nat by lia.
    destruct (body (retries - 1)%nat tr) as [[[x|]|e] t] eqn:B;
      try discriminate. exfalso. exact (Last _ _ B).
  - change (seq a (S (S m))) with (a :: seq (S a) (S m)).
    cbn [for_each]. unfold bind at 1.
    destruct (body a tr) as [[[x|]|e] t] eqn:B; try discriminate.
    apply IH. lia.
Qed.

Lemma fetch_body_last E url retries tr tr' :
  fetch_body E url retries (retries - 1) tr <> (Ok Continue, tr').
Proof.
  unfold fetch_body, try_catch, bind, ret, raise.
  destruct (fetch_attempt E url tr) as [[r|e] t]; [discriminate|].
  rewrite Nat.ltb_irrefl. discriminate.
Qed.

Lemma post_body_last E u payload retries tr tr' :
  post_body E u payload retries (retries - 1) tr <> (Ok Continue, tr').
Proof.
  unfold post_body, try_catch, bind, ret.
  destruct (post_attempt E u payload tr) as [[r|e] t]; [discriminate|].
  rewrite Nat.ltb_irrefl. discriminate.
Qed.

(** Rounds that all fail: every round but the last sleeps and goes on. *)
Lemma for_each_all_fail {A} (body : nat -> M (flow A)) (retries : nat)
      (e : event) (last : string -> outcome (flow A)) (known : string -> Prop) :
  (forall i tr, (i < retries - 1)%nat ->
                body i tr = (Ok Continue, (tr ++ [e]) ++ [EvSleep 5])) ->
  (forall tr, exists msg, body (retries - 1)%nat tr = (last msg, tr ++ [e]) /\ known msg) ->
  forall m a tr,
    (a + S m = retries)%nat ->
    exists msg,
      for_each (seq a (S m)) body tr =
      (match last msg with
       | Ok (Return x) => Ok (Some x)
       | Ok Continue => Ok None
       | Raise x => Raise x
       end, tr ++ attempts_trace (S m) e) /\ known msg.
Proof.
  intros Go Last m. induction m as [|m IH]; intros a tr Sum.
  - destruct (Last tr) as (msg & B & K). exists msg. split; [|exact K].
    simpl. unfold bind. replace a with (retries - 1)%nat by lia. rewrite B.
    destruct (last msg) as [[x|]|x]; reflexivity.
  - change (seq a (S (S m))) with (a :: seq (S a) (S m)).
    cbn [for_each]. unfold bind at 1. rewrite Go by lia.
    destruct (IH (S a) ((tr ++ [e]) ++ [EvSleep 5])) as (msg & R & K); [lia|].
    exists msg. split; [|exact K]. rewrite R. f_equal.
    change (attempts_trace (S (S m)) e) with (e :: EvSleep 5 :: attempts_trace (S m) e).
    rewrite <- !app_assoc. reflexivity.
Qed.

Lemma fetch_attempt_gotos E url : extends (fetch_attempt E url) 1 is_goto.
Proof.
  unfold fetch_attempt.
  refine (extends_bind _ _ 1 0 _ (extends_call (EvGoto url) _ is_goto) _). intros _.
  refine (extends_bind _ _ 0 0 _ (extends_emit (EvSleep 2) is_goto) _). intros _.
  exact (extends_call (EvRead url) _ is_goto).
Qed.

Lemma fetch_gotos E url retries :
  extends (fetch_page_with_playwright E url retries) retries is_goto.
Proof.
  rewrite fetch_unfold.
  pose proof (extends_for_each (fetch_body E url retries) 1 is_goto) as X.
  specialize (fun H => X H (range retries)).
  unfold range in *. rewrite length_seq, Nat.mul_1_r in X. apply X. intros i.
  unfold fetch_body.
  refine (extends_try _ _ 1 0 _ _ _).
  - refine (extends_bind _ _ 1 0 _ (fetch_attempt_gotos E url) _).
    intros r. refine (extends_ret _ _).
  - intros e. destruct (Nat.ltb _ _); [|refine (extends_raise _ _)].
    refine (extends_bind _ _ 0 0 _ (extends_emit (EvSleep 5) is_goto) _).
    intros _. refine (extends_ret _ _).
Qed.

Lemma post_attempt_posts E u payload : extends (post_attempt E u payload) 1 is_post.
Proof.
  unfold post_attempt.
  refine (extends_bind _ _ 1 0 _ (extends_call (EvPost u payload) _ is_post) _).
  intros r. destruct (Z.eqb _ _); [refine (extends_lift _ _) | refine (extends_ret _ _)].
Qed.

Lemma post_loop_posts E u payload retries :
  extends (post_with_retries E u payload retries) retries is_post.
Proof.
  rewrite post_unfold.
  pose proof (extends_for_each (post_body E u payload retries) 1 is_post) as X.
  specialize (fun H => X H (range retries)).
  unfold range in *. rewrite length_seq, Nat.mul_1_r in X.
  refine (extends_weaken _ (retries + 0) retries _ _ _); [lia|].
  refine (extends_bind _ _ retries 0 _ _ _); [|intros; refine (extends_ret _ _)].
  apply X. intros i. unfold post_body.
  refine (extends_try _ _ 1 0 _ _ _).
  - refine (extends_bind _ _ 1 0 _ (post_attempt_posts E u payload) _).
    intros r. refine (extends_ret _ _).
  - intros e. destruct (Nat.ltb _ _); [|refine (extends_ret _ _)].
    refine (extends_bind _ _ 0 0 _ (extends_emit (EvSleep 5) is_post) _).
    intros _. refine (extends_ret _ _).
Qed.

(** The submission loop emits its POST and sleeps of five seconds. *)
Lemma post_loop_emits E u payload retries :
  only (fun e => e = EvSleep 5 \/ e = EvPost u payload)
       (post_with_retries E u payload retries).
Proof.
  rewrite post_unfold. unfold only.
  eapply emits_bind;
    [apply (emits_for_each _ (fun _ : value => True)) | intros; now apply emits_ret].
  intros i. unfold post_body.
  apply emits_try.
  - eapply emits_bind with (Q := fun _ => True); [|intros; now apply emits_ret].
    unfold post_attempt.
    eapply emits_bind with (Q := fun _ => True).
    + apply emits_call; auto.
    + intros r _. destruct (Z.eqb _ _); [now apply emits_lift | now apply emits_ret].
  - intros e. destruct (Nat.ltb _ _); [|now apply emits_ret].
    eapply emits_bind with (Q := fun _ => True); [|intros; now apply emits_ret].
    apply emits_emit; auto.
Qed.

(** With an absolute URL the submission is its retry loop. *)
Lemma submit_absolute E u email secret quiz_url answer retries :
  startswith "http" u = true ->
  submit_answer E (Some u) email secret quiz_url answer retries =
  post_with_retries E u (make_payload email secret quiz_url answer) retries.
Proof.
  intros H. unfold submit_answer, absolute_submit_url. rewrite H. reflexivity.
Qed.

(** The fetch when every attempt to open the page fails. *)
Lemma fetch_all_fail (E : Env) (url : value) (n : nat) (tr : trace) :
  browser_down E ->
  exists msg,
    fetch_page_with_playwright E url (S n) tr =
    (Raise msg, tr ++ attempts_trace (S n) (EvGoto url)) /\
    exists tr0, page_goto E tr0 url = Raise msg.
Proof.
  intros Down. rewrite fetch_unfold.
  destruct (for_each_all_fail (fetch_body E url (S n)) (S n) (EvGoto url)
              (fun msg => Raise msg)
              (fun msg => exists tr0, page_goto E tr0 url = Raise msg)) with
    (m := n) (a := 0%nat) (tr := tr) as (msg & R & K).
  - intros i t Lt. unfold fetch_body, try_catch, bind.
    rewrite fetch_attempt_run. destruct (Down t url) as (msg & G). rewrite G.
    replace (Nat.ltb i (S n - 1)) with true by (symmetry; apply Nat.ltb_lt; lia).
    reflexivity.
  - intros t. unfold fetch_body, try_catch, bind.
    rewrite fetch_attempt_run. destruct (Down t url) as (msg & G). rewrite G.
    rewrite Nat.ltb_irrefl. exists msg. split; [reflexivity | eauto].
  - reflexivity.
  - exists msg. split; [exact R | exact K].
Qed.

(** X1.  For any number of retries the fetch opens the page at most that
    many times.  It returns no page (Python's None, which the callers'
    unpacking turns into a TypeError) exactly when the number of retries
    is zero: with one retry or more it returns a page or raises. *)
Theorem fetch_any_retries (E : Env) (url : value) (retries : nat) :
  extends (fetch_page_with_playwright E url retries) retries is_goto /\
  (forall tr r tr',
      fetch_page_with_playwright E url retries tr = (Ok r, tr') ->
      (r = None <-> retries = 0%nat)).
Proof.
  split; [apply fetch_gotos|].
  intros tr r tr' Run. rewrite fetch_unfold in Run.
  destruct retries as [|n].
  - simpl in Run. inversion Run. tauto.
  - split; [|discriminate]. intros ->. exfalso.
    refine (for_each_ends (fetch_body E url (S n)) (S n) _ n 0 tr tr' _ Run);
      [|reflexivity].
    intros t t'. apply fetch_body_last.
Qed.

(** X2.  When no page can be opened, a fetch with [n + 1] retries
    raises an error of the browser after exactly [n + 1] attempts on
    the same URL, with a sleep of five seconds between two attempts and
    none after the last; the page is never read. *)
Theorem fetch_gives_up (E : Env) (url : value) (n : nat) (tr : trace) :
  browser_down E ->
  exists msg,
    fetch_page_with_playwright E url (S n) tr =
    (Raise msg, tr ++ attempts_trace (S n) (EvGoto url)) /\
    exists tr0, page_goto E tr0 url = Raise msg.
Proof. apply fetch_all_fail. Qed.

(** X3.  An answer of the endpoint with a status other than 200 is
    never retried: whatever the number of retries (one or more), the
    submission makes one POST, of the dict of the email, the secret, the
    quiz URL and the answer, and returns the dict with [correct] false and,
    as [reason], HTTP and the status. *)
Theorem http_error_not_retried
        (E : Env) (u email secret : string) (quiz_url answer : value)
        (n : nat) (tr : trace) (resp : response) :
  let payload := VDict [("email", VStr email); ("secret", VStr secret);
                        ("url", quiz_url); ("answer", answer)] in
  startswith "http" u = true ->
  requests_post E tr u payload = Ok resp ->
  status_code resp <> 200%Z ->
  submit_answer E (Some u) email secret quiz_url answer (S n) tr =
  (Ok (VDict [("correct", VBool false);
              ("reason", VStr ("HTTP " ++ str_of_int (status_code resp)))]),
   tr ++ [EvPost u payload]).
Proof.
  intros payload Abs Post Status.
  change payload with (make_payload email secret quiz_url answer) in *.
  rewrite (submit_absolute E u email secret quiz_url answer (S n) Abs), post_unfold.
  change (range (S n)) with (0%nat :: seq 1 n). cbn [for_each].
  unfold post_body at 1. unfold bind, try_catch, ret.
  rewrite RetryFacts.post_attempt_run, Post.
  apply Z.eqb_neq in Status. rewrite Status. reflexivity.
Qed.

(** X4.  When every POST raises, a submission with [n + 1] retries
    does not raise: it returns the dict with [correct] false and, as
    [reason], an error text of the client, after exactly [n + 1] POSTs of
    the same payload (the dict of the email, the secret, the quiz URL and
    the answer) to the same URL, with a sleep of five seconds between two
    attempts and none after the last. *)
Theorem submit_gives_up
        (E : Env) (u email secret : string) (quiz_url answer : value)
        (n : nat) (tr : trace) :
  let payload := VDict [("email", VStr email); ("secret", VStr secret);
                        ("url", quiz_url); ("answer", answer)] in
  startswith "http" u = true ->
  (forall tr0, exists msg, requests_post E tr0 u payload = Raise msg) ->
  exists msg,
    submit_answer E (Some u) email secret quiz_url answer (S n) tr =
    (Ok (VDict [("correct", VBool false); ("reason", VStr msg)]),
     tr ++ attempts_trace (S n) (EvPost u payload)) /\
    exists tr0, requests_post E tr0 u payload = Raise msg.
Proof.
  intros payload Abs Down.
  change payload with (make_payload email secret quiz_url answer) in *.
  clear payload. set (payload := make_payload email secret quiz_url answer) in *.
  rewrite (submit_absolute E u email secret quiz_url answer (S n) Abs), post_unfold.
  fold payload.
  destruct (for_each_all_fail (post_body E u payload (S n)) (S n) (EvPost u payload)
              (fun msg => Ok (Return (failure msg)))
              (fun msg => exists tr0, requests_post E tr0 u payload = Raise msg)) with
    (m := n) (a := 0%nat) (tr := tr) as (msg & R & K).
  - intros i t Lt. unfold post_body, try_catch, bind.
    rewrite RetryFacts.post_attempt_run. destruct (Down t) as (msg & G). rewrite G.
    replace (Nat.ltb i (S n - 1)) with true by (symmetry; apply Nat.ltb_lt; lia).
    reflexivity.
  - intros t. unfold post_body, try_catch, bind.
    rewrite RetryFacts.post_attempt_run. destruct (Down t) as (msg & G). rewrite G.
    rewrite Nat.ltb_irrefl. exists msg. split; [reflexivity | eauto].
  - reflexivity.
  - exists msg. split; [|exact K].
    unfold bind. unfold range. rewrite R. reflexivity.
Qed.

(** X5.  Whatever its arguments and whatever the endpoint does, a
    submission touches nothing but the endpoint: every event it leaves is
    a sleep of five seconds or a POST, always to one and the same URL, of
    the dict that holds its own email, secret, quiz URL and answer under
    the keys email, secret, url and answer; and it makes at most as many
    POSTs as the number of retries. *)
Theorem submit_only_posts
        (E : Env) (submit_url : option string) (email secret : string)
        (quiz_url answer : value) (retries : nat) (tr : trace) :
  exists u evs,
    snd (submit_answer E submit_url email secret quiz_url answer retries tr) = tr ++ evs /\
    Forall (fun e => e = EvSleep 5 \/
                     e = EvPost u (VDict [("email", VStr email); ("secret", VStr secret);
                                          ("url", quiz_url); ("answer", answer)])) evs /\
    (count_events is_post evs <= retries)%nat.
Proof.
  change (VDict [("email", VStr email); ("secret", VStr secret);
                 ("url", quiz_url); ("answer", answer)])
    with (make_payload email secret quiz_url answer).
  unfold submit_answer, bind.
  destruct (absolute_submit_url E submit_url quiz_url tr) as [[u|e] tr1] eqn:Abs.
  - assert (tr1 = tr) as ->.
    { unfold absolute_submit_url in Abs. destruct submit_url as [s|]; [|discriminate Abs].
      destruct (startswith "http" s); [now inversion Abs|].
      unfold lift in Abs. now inversion Abs. }
    set (payload := make_payload email secret quiz_url answer).
    destruct (post_loop_emits E u payload retries tr) as (evs & Ev & F & _).
    destruct (post_loop_posts E u payload retries tr) as (evs' & Ev' & C).
    assert (evs' = evs) by (rewrite Ev in Ev'; now apply app_inv_head in Ev').
    subst evs'. exists u, evs. auto.
  - assert (tr1 = tr) as ->.
    { unfold absolute_submit_url in Abs. destruct submit_url as [s|]; [|now inversion Abs].
      destruct (startswith "http" s); [discriminate Abs|].
      unfold lift in Abs. now inversion Abs. }
    exists "", []. simpl. rewrite app_nil_r. repeat split; auto.
    unfold count_events. simpl. lia.
Qed.

End LoopFacts.
(* ===================================================================== *)
(** ** How the chain ends *)
(* ===================================================================== *)

Module DriverFacts.
Import PyStr Re Py Quiz Spec Props MFacts TraceFacts ChainFacts LoopFacts.
Local Open Scope py_scope.
Local Open Scope list_scope.

(** A pass that breaks out of the loop at a head the run reaches ends
    the chain. *)
Lemma chain_stops_at E email secret start_url tr0 st tr st' how tr' :
  reaches (solve_single_quiz E email secret)
          (chain_start email start_url tr0) (st, tr) ->
  loop_test st = true ->
  loop_body (solve_single_quiz E email secret) st tr = (Ok (st', Some how), tr') ->
  solve_quiz_chain E email secret start_url tr0 =
  (Ok (st', how), tr' ++ [EvLog (LogCompleted (quiz_count st'))]).
Proof.
  intros Hr T B. unfold solve_quiz_chain.
  set (single := solve_single_quiz E email secret) in *.
  pose proof (reaches_count single 3 (single_no_quiz_log E email secret)
                (single_posts E email secret) _ _ Hr) as Cnt. simpl in Cnt.
  pose proof (loop_test_true _ T) as [_ Lt].
  apply chain_run.
  pose proof (reaches_while single 3 (single_no_quiz_log E email secret)
                (single_posts E email secret) _ _ Hr
                (Z.to_nat max_quizzes) (S (Z.to_nat (max_quizzes - quiz_count st)))) as RW.
  unfold chain_start in RW. cbn [fst snd] in RW. rewrite RW.
  - exact (while_loop_pass single _ st tr _ (Some how) _ T B).
  - unfold enough. simpl. lia.
  - unfold enough. simpl. lia.
Qed.

(** X6.  With a starting URL that is empty (or None) the chain takes no
    step at all: nothing is fetched and nothing is submitted; it prints
    its first line and the summary with zero quizzes. *)
Theorem chain_without_start_url
        (E : Env) (email secret : string) (start_url : value) (tr : trace) :
  truthy start_url = false ->
  solve_quiz_chain E email secret start_url tr =
  (Ok ({| current_url := start_url; quiz_count := 0 |}, LoopTestFalse),
   tr ++ [EvLog (LogStart email); EvLog (LogCompleted 0)]).
Proof.
  intros Empty. unfold solve_quiz_chain.
  rewrite (chain_run _ email start_url tr
             {| current_url := start_url; quiz_count := 0 |} LoopTestFalse
             (tr ++ [EvLog (LogStart email)])).
  - rewrite <- app_assoc. reflexivity.
  - generalize (Z.to_nat max_quizzes). intros fuel.
    destruct fuel; simpl; rewrite Empty; reflexivity.
Qed.

(** X7.  An exception of a quiz step never leaves the chain.  At any
    head of the loop the run reaches, if the step made there raises, the
    chain ends there: the driver prints the error with the number of the
    step and the summary, counts the step, and fetches and submits nothing
    more.  The chain itself returns. *)
Theorem chain_stops_on_error
        (E : Env) (email secret : string) (start_url : value) (tr0 : trace)
        (st : QuizState) (tr : trace) (e : string) (tr1 : trace) :
  reaches (solve_single_quiz E email secret)
          (chain_start email start_url tr0) (st, tr) ->
  loop_test st = true ->
  solve_single_quiz E email secret (current_url st)
    (tr ++ [EvLog (LogQuiz (quiz_count st + 1) (current_url st))]) = (Raise e, tr1) ->
  solve_quiz_chain E email secret start_url tr0 =
  (Ok ({| current_url := current_url st; quiz_count := quiz_count st + 1 |}, ErrorCaught),
   tr1 ++ [EvLog (LogError (quiz_count st + 1) e);
           EvLog (LogCompleted (quiz_count st + 1))]).
Proof.
  intros Hr T Step.
  rewrite (chain_stops_at E email secret start_url tr0 st tr
             {| current_url := current_url st; quiz_count := quiz_count st + 1 |}
             ErrorCaught (tr1 ++ [EvLog (LogError (quiz_count st + 1) e)]) Hr T).
  - rewrite <- app_assoc. reflexivity.
  - rewrite loop_body_run, Step. reflexivity.
Qed.

(** X8.  At any head of the loop the run reaches, if the step made
    there returns something that is not a non-empty dict (None, a list, a
    string, an empty dict, ...), the chain ends there: the driver prints
    that the response is invalid and the summary, and the [url] of the
    result, if it has one, is not followed. *)
Theorem chain_stops_on_invalid
        (E : Env) (email secret : string) (start_url : value) (tr0 : trace)
        (st : QuizState) (tr : trace) (result : value) (tr1 : trace) :
  reaches (solve_single_quiz E email secret)
          (chain_start email start_url tr0) (st, tr) ->
  loop_test st = true ->
  solve_single_quiz E email secret (current_url st)
    (tr ++ [EvLog (LogQuiz (quiz_count st + 1) (current_url st))]) = (Ok result, tr1) ->
  well_formed result = false ->
  solve_quiz_chain E email secret start_url tr0 =
  (Ok ({| current_url := current_url st; quiz_count := quiz_count st + 1 |},
       InvalidResponse),
   tr1 ++ [EvLog LogInvalid; EvLog (LogCompleted (quiz_count st + 1))]).
Proof.
  intros Hr T Step Bad. unfold well_formed in Bad.
  rewrite (chain_stops_at E email secret start_url tr0 st tr
             {| current_url := current_url st; quiz_count := quiz_count st + 1 |}
             InvalidResponse (tr1 ++ [EvLog LogInvalid]) Hr T).
  - rewrite <- app_assoc. reflexivity.
  - rewrite loop_body_run, Step, Bad. reflexivity.
Qed.

(** Under [always_next] the loop is only left by its test, with a URL
    still at hand. *)
Lemma while_always_next single :
  always_next single ->
  forall fuel st tr st' how tr',
    truthy (current_url st) = true ->
    while_loop single fuel st tr = (Ok (st', how), tr') ->
    how <> OutOfFuel ->
    how = LoopTestFalse /\ truthy (current_url st') = true.
Proof.
  intros Next fuel. induction fuel as [|fuel IH]; intros st tr st' how tr' T W NF.
  - simpl in W. destruct (truthy (current_url st) && Z.ltb (quiz_count st) max_quizzes);
      inversion W; subst; [congruence | auto].
  - simpl in W. fold (loop_test st) in W. destruct (loop_test st) eqn:LT.
    + destruct (Next (current_url st)
                  (tr ++ [EvLog (LogQuiz (quiz_count st + 1) (current_url st))]))
        as (result & tr1 & Step & WF & Url).
      pose proof (loop_body_run single st tr) as B. cbv zeta in B.
      unfold well_formed in WF. rewrite Step, WF, Url in B.
      rewrite (bind_ok _ _ _ _ _ B) in W. cbn [snd fst] in W.
      eapply IH; [|exact W|exact NF]. exact Url.
    + inversion W; subst. auto.
Qed.

(** X9.  The cap is the only thing that stops a chain that always has
    a next quiz: if the starting URL is not empty and every quiz step
    returns a well-formed result with a next URL, the chain takes exactly
    ten steps and leaves the loop by its test, with a URL still at hand. *)
Theorem chain_runs_ten_steps
        (E : Env) (email secret : string) (start_url : value) (tr : trace) :
  truthy start_url = true ->
  always_next (solve_single_quiz E email secret) ->
  exists st evs,
    solve_quiz_chain E email secret start_url tr = (Ok (st, LoopTestFalse), tr ++ evs) /\
    quiz_count st = 10%Z /\
    truthy (current_url st) = true /\
    count_events is_quiz_log evs = 10%nat.
Proof.
  intros Start Next. unfold solve_quiz_chain.
  set (single := solve_single_quiz E email secret) in *.
  destruct (while_loop_bound single 3
              (single_no_quiz_log E email secret) (single_posts E email secret)
              (Z.to_nat max_quizzes) {| current_url := start_url; quiz_count := 0 |}
              (tr ++ [EvLog (LogStart email)]))
    as (st & how & evs & W & NF & Bd & Cq & _ & LT).
  { unfold enough. simpl. lia. }
  destruct (while_always_next single Next _
              {| current_url := start_url; quiz_count := 0 |} _ _ _ _ Start W NF)
    as (-> & Url).
  specialize (LT eq_refl). unfold loop_test in LT. rewrite Url in LT. simpl in LT.
  apply Z.ltb_ge in LT. simpl in Bd, Cq. unfold max_quizzes in *.
  assert (Ten : quiz_count st = 10%Z) by lia.
  exists st, (EvLog (LogStart email) :: evs ++ [EvLog (LogCompleted (quiz_count st))]).
  rewrite (chain_run _ _ _ _ _ _ _ W).
  split; [now rewrite <- !app_assoc|].
  split; [exact Ten|]. split; [exact Url|].
  rewrite count_events_cons, count_events_app, Cq, Ten.
  unfold count_events. simpl. lia.
Qed.

(** X10.  When no page can be opened, a chain with a starting URL
    takes exactly one step: it tries three times to open the starting URL,
    five seconds apart, prints the error of the browser and the summary,
    and never calls the model, loads a file or submits anything. *)
Theorem chain_when_browser_down
        (E : Env) (email secret : string) (start_url : value) (tr : trace) :
  truthy start_url = true ->
  browser_down E ->
  exists msg,
    solve_quiz_chain E email secret start_url tr =
    (Ok ({| current_url := start_url; quiz_count := 1 |}, ErrorCaught),
     tr ++ [EvLog (LogStart email); EvLog (LogQuiz 1 start_url);
            EvGoto start_url; EvSleep 5; EvGoto start_url; EvSleep 5;
            EvGoto start_url;
            EvLog (LogError 1 msg); EvLog (LogCompleted 1)]) /\
    exists tr0, page_goto E tr0 start_url = Raise msg.
Proof.
  intros Start Down.
  set (st := {| current_url := start_url; quiz_count := 0 |}).
  set (tr1 := tr ++ [EvLog (LogStart email)]).
  destruct (LoopFacts.fetch_all_fail E start_url 2
              (tr1 ++ [EvLog (LogQuiz 1 start_url)]) Down) as (msg & F & K).
  exists msg. split; [|exact K].
  rewrite (chain_stops_at E email secret start_url tr st tr1
             {| current_url := start_url; quiz_count := 1 |} ErrorCaught
             (((tr1 ++ [EvLog (LogQuiz 1 start_url)]) ++
               attempts_trace 3 (EvGoto start_url)) ++ [EvLog (LogError 1 msg)])).
  - unfold tr1. simpl. repeat (rewrite <- app_assoc; simpl). reflexivity.
  - apply reaches_here.
  - unfold loop_test, st. simpl. now rewrite Start.
  - rewrite loop_body_run. unfold st. cbn [current_url quiz_count Z.add Pos.add].
    unfold solve_single_quiz. rewrite (bind_raise _ _ _ _ _ F). reflexivity.
Qed.

End DriverFacts.
(* ===================================================================== *)
(** ** Where the submit URL comes from *)
(* ===================================================================== *)

Module DiscoveryFacts.
Import PyStr Re Py Quiz Spec Props StrFacts ReFacts PatternFacts MFacts TraceFacts.
Local Open Scope py_scope.

(** Group 1 of the first pattern: a run of its class, the word submit
    after a slash, and a run of URL characters. *)
Lemma post_submit_parts pos p s m :
  match_at true re_post_submit pos p s = Some m ->
  exists w1 w2 w3,
    m_group1 m = Some (w1 ++ w2 ++ w3) /\
    w1 <> "" /\ all_chars (cs_mem true post_class) w1 = true /\
    lit_eq true "/submit" w2 = true /\
    all_chars (cs_mem true url_char) w3 = true.
Proof.
  intros H. unfold re_post_submit in H. inv_match H;
    inversion H; subst; clear H;
    cbn [m_group1 m_group0 m_rest group1 set_group rest prev].
  all: match goal with
       | A : all_chars (cs_mem true post_class) ?a = true,
         L : lit_eq true "/submit" ?b = true,
         U : all_chars (cs_mem true url_char) ?c = true |- _ =>
           exists a, b, c;
           split; [f_equal; rewrite <- !app_assoc, consumed_app; reflexivity|];
           repeat split; auto using length_pos_neq
       end.
Qed.

Lemma occurs_middle ic l a w b :
  lit_eq ic l w = true -> occurs ic l (a ++ w ++ b) = true.
Proof. intros L. apply occurs_intro. now apply prefix_eq_intro. Qed.

Lemma prefix_eq_any_case l s : prefix_eq false l s = true -> prefix_eq true l s = true.
Proof.
  revert s. induction l as [|x l IH]; intros [|a s] H; simpl in *; auto.
  apply andb_true_iff in H as [E H]. apply Ascii.eqb_eq in E. subst.
  rewrite Ascii.eqb_refl. simpl. auto.
Qed.

(** Every URL that [findall] gives begins with the scheme. *)
Lemma findall_from_https fuel : forall p s,
  Forall (fun u => prefix_eq false "https://" u = true)
         (findall_from fuel false re_https_url p s).
Proof.
  induction fuel as [|fuel IH]; intros p s; simpl; [constructor|].
  destruct (search_from false re_https_url 0 p s) as [m|] eqn:S; [|constructor].
  destruct (search_from_inv _ _ _ _ _ _ S) as (pre & suf & _ & Hm & _).
  destruct (https_url_match _ _ _ _ Hm) as (w1 & w2 & _ & L1 & _ & G).
  assert (P : prefix_eq false "https://" (m_group0 m) = true).
  { rewrite G. now apply prefix_eq_intro. }
  destruct (nonempty (m_group0 m)); constructor; auto.
Qed.

Lemma findall_https page_text :
  Forall (fun u => prefix_eq false "https://" u = true)
         (findall false re_https_url page_text).
Proof. apply findall_from_https. Qed.

Lemma prefix_nonempty u : prefix_eq false "https://" u = true -> falsy (Some u) = false.
Proof. destruct u; [discriminate | reflexivity]. Qed.

(** The last resort, with its tests for emptiness resolved. *)
Lemma fallback_run page_text :
  fallback_submit_url page_text =
  Some (match first_with_submit (findall false re_https_url page_text) with
        | Some u => u
        | None =>
            match findall false re_https_url page_text with
            | u :: _ => u
            | [] => default_submit_url
            end
        end).
Proof.
  unfold fallback_submit_url, first_with_submit.
  pose proof (findall_https page_text) as F.
  set (urls := findall false re_https_url page_text) in *.
  destruct (find (fun u => contains "submit" (lower u)) urls) as [u|] eqn:Fd.
  - apply find_some in Fd as [In _].
    rewrite Forall_forall in F. specialize (F u In).
    destruct u as [|c u]; [discriminate F | reflexivity].
  - destruct urls as [|u urls]; [reflexivity|].
    inversion F as [|? ? P _]; subst.
    destruct u as [|c u]; [discriminate P | reflexivity].
Qed.

(** The analyzer by cases: which of its steps gives the URL. *)
Lemma analyze_run E page_text tr :
  analyze_quiz_page E page_text tr =
  match search true re_post_submit page_text with
  | Some m => (Ok {| submit_url := m_group1 m; question := take 500 page_text |}, tr)
  | None =>
      match search true re_submit_url page_text with
      | Some m => (Ok {| submit_url := m_group1 m; question := take 500 page_text |}, tr)
      | None =>
          (Ok {| submit_url :=
                   match generate_content E tr (analyze_prompt page_text) with
                   | Ok text =>
                       match search false re_https_url (strip text) with
                       | Some url_match => Some (m_group0 url_match)
                       | None => fallback_submit_url page_text
                       end
                   | Raise _ => fallback_submit_url page_text
                   end;
                 question := take 500 page_text |},
           (tr ++ [EvGenerate (analyze_prompt page_text)])%list)
      end
  end.
Proof.
  unfold analyze_quiz_page.
  destruct (search true re_post_submit page_text); [reflexivity|].
  destruct (search true re_submit_url page_text); [reflexivity|].
  unfold bind, try_catch, call, ret.
  destruct (generate_content E tr (analyze_prompt page_text)); [|reflexivity].
  destruct (search false re_https_url (strip _)); reflexivity.
Qed.

(** The analyzer never raises and always names a URL. *)
Lemma analyze_returns_url E page_text :
  returns (fun a => exists u, submit_url a = Some u) (analyze_quiz_page E page_text).
Proof.
  intros tr. rewrite analyze_run.
  destruct (search true re_post_submit page_text) as [m|] eqn:S1.
  { destruct (search_inv _ _ _ _ S1) as (pre & suf & _ & Hm & _).
    destruct (post_submit_match _ _ _ _ Hm) as (g & G & _).
    eexists; eexists; split; [reflexivity|]. exists g. exact G. }
  destruct (search true re_submit_url page_text) as [m|] eqn:S2.
  { destruct (search_inv _ _ _ _ S2) as (pre & suf & _ & Hm & _).
    destruct (submit_url_match _ _ _ _ Hm) as (w1 & w2 & w3 & _ & _ & _ & _ & _ & G & _).
    eexists; eexists; split; [reflexivity|]. eexists. exact G. }
  eexists; eexists; split; [reflexivity|]. cbn [submit_url].
  rewrite fallback_run.
  destruct (generate_content E tr (analyze_prompt page_text)) as [text|e]; [|eauto].
  destruct (search false re_https_url (strip text)); eauto.
Qed.

(** X11.  The analyzer consults the model only when both patterns find
    nothing in the page, and then exactly once; the prompt is the request
    to extract the submit URL, the whole page text between two lines of
    three dashes, and the request to return only the URL.  It leaves no
    other event.  When a pattern matches, the trace is left as it was. *)
Theorem analyzer_model_calls (E : Env) (page_text : string) (tr : trace) :
  let prompt :=
    (newline ++ "Extract the submit URL from this page." ++ newline ++ newline ++
     "Page:" ++ newline ++ "---" ++ newline ++ page_text ++ newline ++ "---" ++
     newline ++ newline ++ "Return ONLY the URL, nothing else." ++ newline)%string in
  snd (analyze_quiz_page E page_text tr) =
  match search true re_post_submit page_text, search true re_submit_url page_text with
  | None, None => (tr ++ [EvGenerate prompt])%list
  | _, _ => tr
  end.
Proof.
  intros prompt. rewrite analyze_run.
  destruct (search true re_post_submit page_text); [reflexivity|].
  destruct (search true re_submit_url page_text); reflexivity.
Qed.

(** X12.  A submit URL taken from the page by one of the two patterns
    mentions submit after a slash, in some case of letters. *)
Theorem pattern_url_mentions_submit
        (E : Env) (page_text : string) (tr : trace) (a : analysis) (tr' : trace) :
  search true re_post_submit page_text <> None \/
  search true re_submit_url page_text <> None ->
  analyze_quiz_page E page_text tr = (Ok a, tr') ->
  exists u, submit_url a = Some u /\ occurs true "/submit" u = true.
Proof.
  intros Matched Run. rewrite analyze_run in Run.
  destruct (search true re_post_submit page_text) as [m|] eqn:S1.
  { destruct (search_inv _ _ _ _ S1) as (pre & suf & _ & Hm & _).
    destruct (post_submit_parts _ _ _ _ Hm) as (w1 & w2 & w3 & G & _ & _ & L & _).
    inversion Run; subst. cbn [submit_url]. eexists. split; [exact G|].
    now apply occurs_middle. }
  destruct (search true re_submit_url page_text) as [m|] eqn:S2.
  { destruct (search_inv _ _ _ _ S2) as (pre & suf & _ & Hm & _).
    destruct (submit_url_match _ _ _ _ Hm) as (w1 & w2 & w3 & _ & _ & _ & _ & L & G & _).
    inversion Run; subst. cbn [submit_url]. eexists. split; [exact G|].
    rewrite <- (StrFacts.app_nil_r w3), <- StrFacts.app_assoc.
    now apply occurs_middle. }
  destruct Matched as [X|X]; congruence.
Qed.

(** X13.  Unless the POST pattern matches, the submit URL of the
    analyzer is an absolute https URL: it begins with the scheme, in some
    case of letters, whether it comes from the second pattern, from the
    model, from the URLs of the page or from the hardcoded endpoint. *)
Theorem analyzer_url_is_https
        (E : Env) (page_text : string) (tr : trace) (a : analysis) (tr' : trace) :
  search true re_post_submit page_text = None ->
  analyze_quiz_page E page_text tr = (Ok a, tr') ->
  exists u, submit_url a = Some u /\ prefix_eq true "https://" u = true.
Proof.
  intros NoPost Run. rewrite analyze_run, NoPost in Run.
  destruct (search true re_submit_url page_text) as [m|] eqn:S2.
  { destruct (search_inv _ _ _ _ S2) as (pre & suf & _ & Hm & _).
    destruct (submit_url_match _ _ _ _ Hm) as (w1 & w2 & w3 & _ & L & _ & _ & _ & G & _).
    inversion Run; subst. cbn [submit_url]. eexists. split; [exact G|].
    now apply prefix_eq_intro. }
  inversion Run; subst. cbn [submit_url].
  assert (Fb : exists u, fallback_submit_url page_text = Some u /\
                         prefix_eq true "https://" u = true).
  { rewrite fallback_run. eexists. split; [reflexivity|].
    pose proof (findall_https page_text) as F. unfold first_with_submit.
    destruct (find _ (findall false re_https_url page_text)) as [u|] eqn:Fd.
    - apply find_some in Fd as [In _]. rewrite Forall_forall in F.
      apply prefix_eq_any_case. now apply F.
    - destruct (findall false re_https_url page_text) as [|u urls]; [reflexivity|].
      inversion F; subst. now apply prefix_eq_any_case. }
  destruct (generate_content E tr (analyze_prompt page_text)) as [text|e]; [|exact Fb].
  destruct (search false re_https_url (strip text)) as [m|] eqn:S3; [|exact Fb].
  destruct (search_inv _ _ _ _ S3) as (pre & suf & _ & Hm & _).
  destruct (https_url_match _ _ _ _ Hm) as (w1 & w2 & _ & L & _ & G).
  eexists. split; [reflexivity|]. rewrite G.
  apply prefix_eq_intro. now apply lit_eq_any_case.
Qed.

Lemma find_first {A} (p : A -> bool) (before : list A) (w : A) (after : list A) :
  p w = true -> Forall (fun x => p x = false) before ->
  find p (before ++ w :: after) = Some w.
Proof.
  intros Pw Nb. induction Nb as [|x before Px _ IH]; simpl.
  - now rewrite Pw.
  - now rewrite Px.
Qed.

Lemma find_nowhere {A} (p : A -> bool) (l : list A) :
  Forall (fun x => p x = false) l -> find p l = None.
Proof.
  intros N. induction N as [|x l Px _ IH]; simpl; [reflexivity|]. now rewrite Px.
Qed.

(** X14.  The last resort of the analyzer always names a URL.  Among
    the https URLs of the page in their order, it is the first one in
    which the word submit stands, in small or capital letters; if submit
    stands in none, it is the first URL of the page, and the hardcoded
    endpoint when the page holds no https URL.  Its tests for an empty URL
    never fire: every URL found begins with the scheme. *)
Theorem fallback_order (page_text : string) :
  let urls := findall false re_https_url page_text in
  exists u,
    fallback_submit_url page_text = Some u /\
    (forall before w after,
        urls = (before ++ w :: after)%list ->
        mentions "submit" w = true ->
        Forall (fun x => mentions "submit" x = false) before ->
        u = w) /\
    (Forall (fun x => mentions "submit" x = false) urls ->
     u = hd "https://tds-llm-analysis.s-anand.net/submit" urls) /\
    Forall (fun x => prefix_eq false "https://" x = true) urls.
Proof.
  intros urls. rewrite fallback_run. fold urls. eexists.
  split; [reflexivity|]. unfold first_with_submit.
  assert (P : forall x, (fun u => contains "submit" (lower u)) x = mentions "submit" x).
  { intros x. apply (TextFacts.lower_mentions "submit" x eq_refl). }
  split; [|split].
  - intros before w after Eq M Nb. rewrite Eq.
    rewrite find_first; [reflexivity | now rewrite P |].
    eapply Forall_impl; [|exact Nb]. intros x Hx. now rewrite P.
  - intros N. rewrite find_nowhere.
    + now destruct urls.
    + eapply Forall_impl; [|exact N]. intros x Hx. now rewrite P.
  - apply findall_https.
Qed.

End DiscoveryFacts.
(* ===================================================================== *)
(** ** The tools of the solver *)
(* ===================================================================== *)

Module ToolFacts.
Import PyStr Re Py Quiz Spec Props StrFacts ReFacts PatternFacts MFacts TraceFacts LoopFacts.
Local Open Scope py_scope.

Lemma type_answer_scalar E answer_text : scalar (type_answer E answer_text) = true.
Proof.
  unfold type_answer.
  destruct (contains "." answer_text);
    [destruct (py_float E answer_text) | destruct (py_int answer_text)];
    cbn [option_map]; try reflexivity;
    repeat match goal with |- context [if ?b then _ else _] => destruct b end;
    reflexivity.
Qed.

(** The scraped answer is always a string. *)
Lemma scraped_answer_scalar scraped :
  scalar (value_of_group (extract_secret scraped)) = true.
Proof.
  destruct (ResolveFacts.extract_secret_spec scraped) as (answer & X & _).
  rewrite X. reflexivity.
Qed.

Lemma fetch_only P E url retries :
  (forall e, is_post e = false -> P e) ->
  only P (fetch_page_with_playwright E url retries).
Proof.
  intros HP. unfold fetch_page_with_playwright, fetch_attempt. only_events HP.
Qed.

Lemma gemini_emits P E question page_text :
  (forall e, is_post e = false -> P e) ->
  emits P (fun v => scalar v = true) (gemini_answer E question page_text).
Proof.
  intros HP. unfold gemini_answer. apply emits_try.
  - eapply emits_bind with (Q := fun _ => True).
    + apply emits_call; [apply HP; reflexivity | intros; exact I].
    + intros text _. apply emits_ret. apply type_answer_scalar.
  - intros e. apply emits_ret. reflexivity.
Qed.

(** What the solver leaves is no submission, and what it returns is a
    scalar. *)
Lemma solve_question_emits P E question page_text page_html base_url :
  (forall e, is_post e = false -> P e) ->
  emits P (fun v => scalar v = true)
        (solve_question E question page_text page_html base_url).
Proof.
  intros HP. unfold solve_question.
  destruct (search true re_scrape question) as [m|].
  - destruct (m_group1 m) as [path|]; [|apply emits_raise].
    eapply emits_bind with (Q := fun _ => True); [only_events HP|]. intros u _.
    eapply emits_bind with (Q := fun _ => True); [now apply fetch_only|].
    intros fetched _.
    eapply emits_bind with (Q := fun _ => True); [only_events HP|]. intros r _.
    apply emits_ret. apply scraped_answer_scalar.
  - eapply emits_bind with (Q := fun _ => True).
    + unfold csv_try. only_events HP.
    + intros [n|] _; [now apply emits_ret | now apply gemini_emits].
Qed.

(** A match of a CSV pattern gives as the URL a text that ends with
    the extension and lies in the subject. *)
Ltac csv_case b :=
  match goal with
  | L : lit_eq true ".csv" ?x = true |- exists a w b c, ?s = _ /\ _ /\ _ = _ =>
      eexists _, x, b, _;
      split; [|split; [exact L|]];
      [|rewrite <- ?app_assoc; rewrite consumed_app; reflexivity]
  end.

Lemma csv_bare_match pos p s m :
  match_at true re_csv_bare pos p s = Some m ->
  exists a w b c, s = b ++ a ++ w ++ c /\ lit_eq true ".csv" w = true /\
                  csv_text m = a ++ w.
Proof.
  intros H. unfold re_csv_bare in H. inv_match H;
    inversion H; subst; clear H; unfold csv_text;
    cbn [m_group1 m_group0 m_rest group1 set_group rest prev].
  all: csv_case ""%string; cbn [append]; rewrite !app_assoc; reflexivity.
Qed.

Lemma csv_href_match pos p s m :
  match_at true re_csv_href pos p s = Some m ->
  exists a w b c, s = b ++ a ++ w ++ c /\ lit_eq true ".csv" w = true /\
                  csv_text m = a ++ w.
Proof.
  intros H. unfold re_csv_href in H. inv_match H;
    inversion H; subst; clear H; unfold csv_text;
    cbn [m_group1 m_group0 m_rest group1 set_group rest prev].
  exists w0, w1, (w ++ String a ""), (String a0 s4).
  split; [now rewrite app_assoc|]. split; [assumption|].
  rewrite <- app_assoc. now rewrite consumed_app.
Qed.

Lemma csv_paren_match pos p s m :
  match_at true re_csv_paren pos p s = Some m ->
  exists a w b c, s = b ++ a ++ w ++ c /\ lit_eq true ".csv" w = true /\
                  csv_text m = a ++ w.
Proof.
  intros H. unfold re_csv_paren in H. inv_match H;
    inversion H; subst; clear H; unfold csv_text;
    cbn [m_group1 m_group0 m_rest group1 set_group rest prev].
  exists w0, w1, w, (w2 ++ s3).
  split; [reflexivity|]. split; [assumption|].
  rewrite <- (app_assoc w0 w1). now rewrite consumed_app.
Qed.

Lemma csv_pattern_match r pos p s m :
  In r csv_patterns ->
  match_at true r pos p s = Some m ->
  exists a w b c, s = b ++ a ++ w ++ c /\ lit_eq true ".csv" w = true /\
                  csv_text m = a ++ w.
Proof.
  intros [<-|[<-|[<-|[]]]];
    [apply csv_bare_match | apply csv_href_match | apply csv_paren_match].
Qed.

Lemma not_stripped x d :
  char_eq true x d = true -> x = "."%char \/ x = "v"%char -> csv_strip_set d = false.
Proof.
  intros H [-> | ->]; destruct d as [[] [] [] [] [] [] [] []];
    vm_compute in H |- *; congruence.
Qed.

Lemma lstrip_keeps p c s : forall a,
  p c = false -> exists a', lstrip_by p (a ++ String c s) = a' ++ String c s.
Proof.
  intros a Pc. induction a as [|x a IH]; simpl.
  - rewrite Pc. now exists "".
  - destruct (p x); [exact IH|]. now exists (String x a).
Qed.

Lemma rstrip_keeps p c : forall a,
  p c = false -> rstrip_by p (a ++ String c "") = a ++ String c "".
Proof.
  intros a Pc. induction a as [|x a IH]; simpl.
  - now rewrite Pc.
  - rewrite IH. destruct a; reflexivity.
Qed.

(** Stripping leaves the extension in place. *)
Lemma strip_keeps_extension a w :
  lit_eq true ".csv" w = true ->
  exists a', strip_by csv_strip_set (a ++ w) = a' ++ w.
Proof.
  intros L. pose proof (lit_eq_length _ _ _ L) as Len.
  destruct w as [|d1 [|d2 [|d3 [|d4 [|d5 w]]]]]; try discriminate Len.
  assert (P1 : csv_strip_set d1 = false).
  { apply (not_stripped "."); [|now left].
    simpl in L. now apply andb_true_iff in L as [L _]. }
  assert (P4 : csv_strip_set d4 = false).
  { apply (not_stripped "v"); [|now right].
    simpl in L. apply andb_true_iff in L as [_ L].
    apply andb_true_iff in L as [_ L]. apply andb_true_iff in L as [_ L].
    now apply andb_true_iff in L as [L _]. }
  unfold strip_by.
  destruct (lstrip_keeps csv_strip_set d1 (String d2 (String d3 (String d4 ""))) a P1)
    as (a' & X).
  rewrite X. exists a'.
  change (a' ++ String d1 (String d2 (String d3 (String d4 ""))))
    with (a' ++ (String d1 (String d2 (String d3 "")) ++ String d4 "")).
  rewrite <- app_assoc. now apply rstrip_keeps.
Qed.

Lemma find_csv_url_inv : forall patterns combined csv_url,
  (forall r, In r patterns -> In r csv_patterns) ->
  find_csv_url patterns combined = Some csv_url ->
  exists m a w b c,
    csv_url = strip_by csv_strip_set (a ++ w) /\
    lit_eq true ".csv" w = true /\ combined = b ++ a ++ w ++ c /\ csv_text m = a ++ w.
Proof.
  induction patterns as [|r patterns IH]; intros combined csv_url Sub F; [discriminate F|].
  simpl in F. destruct (search true r combined) as [m|] eqn:S.
  - destruct (search_inv _ _ _ _ S) as (pre & suf & Split & Hm & _).
    destruct (csv_pattern_match r _ _ _ _ (Sub r (or_introl eq_refl)) Hm)
      as (a & w & b & c & Suf & L & T).
    exists m, a, w, (pre ++ b), c. inversion F; subst.
    unfold csv_text in T. rewrite T.
    repeat split; auto. now rewrite app_assoc.
  - apply IH; [|exact F]. intros r' In'. apply Sub. now right.
Qed.

Lemma startswith_nonempty u : startswith "http" u = true -> nonempty u = true.
Proof. destruct u; [discriminate | reflexivity]. Qed.

(** Without the extension in the text no CSV pattern matches. *)
Lemma find_csv_url_none combined :
  occurs true ".csv" combined = false -> find_csv_url csv_patterns combined = None.
Proof.
  intros No. destruct (find_csv_url csv_patterns combined) as [u|] eqn:F; [|reflexivity].
  destruct (find_csv_url_inv _ _ _ (fun r H => H) F) as (m & a & w & b & c & _ & L & S & _).
  exfalso. rewrite S in No. rewrite <- (app_assoc b a) in No.
  rewrite (occurs_intro true ".csv" (b ++ a) (w ++ c)) in No; [discriminate|].
  now apply prefix_eq_intro.
Qed.

Lemma gemini_generates E question page_text :
  extends (gemini_answer E question page_text) 1 is_generate.
Proof.
  unfold gemini_answer.
  refine (extends_try _ _ 1 0 _ _ _); [|silent].
  refine (extends_bind _ _ 1 0 _ (extends_call (EvGenerate _) _ is_generate) _). silent.
Qed.

(** How often the solver opens a page, calls the model and loads a
    file, by whether the question names a page to scrape. *)
Lemma solve_question_counts
        (E : Env) (question page_text page_html : string) (base_url : value) :
  let run := solve_question E question page_text page_html base_url in
  match search true re_scrape question with
  | Some _ => extends run 3 is_goto /\ extends run 0 is_generate /\
              extends run 0 is_read_csv
  | None => extends run 0 is_goto /\ extends run 1 is_generate /\
            extends run 1 is_read_csv
  end.
Proof.
  intros run. unfold run, solve_question.
  destruct (search true re_scrape question) as [m|].
  - split; [|split].
    + destruct (m_group1 m) as [path|];
        [|refine (extends_weaken _ 0 _ _ _ (extends_raise _ _)); lia].
      refine (extends_bind _ _ 0 3 _ (extends_lift _ _) _). intros u.
      refine (extends_bind _ _ 3 0 _ (fetch_gotos E _ 3) _). silent.
    + unfold fetch_page_with_playwright, fetch_attempt. silent.
    + unfold fetch_page_with_playwright, fetch_attempt. silent.
  - split; [|split].
    + unfold csv_try, gemini_answer. silent.
    + refine (extends_bind _ _ 0 1 _ _ _); [unfold csv_try; silent|].
      intros [n|]; [|apply gemini_generates].
      refine (extends_weaken _ 0 _ _ _ (extends_ret _ _)). lia.
    + refine (extends_bind _ _ 1 0 _ _ _); [|unfold gemini_answer; silent].
      destruct (find_csv_url _ _) as [csv_url|];
        [|refine (extends_weaken _ 0 _ _ _ (extends_ret _ _)); lia].
      destruct (nonempty csv_url);
        [|refine (extends_weaken _ 0 _ _ _ (extends_ret _ _)); lia].
      refine (extends_bind _ _ 0 1 _ _ _); [silent|]. intros u.
      refine (extends_try _ _ 1 0 _ _ _); [|silent].
      unfold csv_try.
      refine (extends_bind _ _ 1 0 _ (extends_call (EvReadCsv _) _ is_read_csv) _). silent.
Qed.

(** X15.  Whatever the solver returns is a scalar: an integer, a
    float, a boolean or a string, never None, a list or a dict; so the
    answer of a payload is always one JSON scalar. *)
Theorem answer_is_scalar
        (E : Env) (question page_text page_html : string) (base_url : value)
        (tr : trace) (answer : value) (tr' : trace) :
  solve_question E question page_text page_html base_url tr = (Ok answer, tr') ->
  scalar answer = true.
Proof.
  intros Run.
  destruct (solve_question_emits (fun _ => True) E question page_text page_html base_url
              (fun _ _ => I) tr) as (evs & _ & _ & Q).
  apply Q. now rewrite Run.
Qed.

(** X16.  The tools of the solver exclude each other.  When the
    question names a page to scrape, the solver opens pages (at most three
    times) and neither calls the model nor loads a file.  Otherwise it
    opens no page, loads at most one file and calls the model at most
    once. *)
Theorem tools_exclusive
        (E : Env) (question page_text page_html : string) (base_url : value) :
  let run := solve_question E question page_text page_html base_url in
  match search true re_scrape question with
  | Some _ => extends run 3 is_goto /\ extends run 0 is_generate /\
              extends run 0 is_read_csv
  | None => extends run 0 is_goto /\ extends run 1 is_generate /\
            extends run 1 is_read_csv
  end.
Proof. apply solve_question_counts. Qed.

(** X17.  A table that cannot be used never fails the solver.  When the
    question names no page to scrape and the page links a CSV file by an
    absolute URL, if loading the file raises, or the text states no
    cutoff, or the table has no number column, the solver answers as the
    model does, asked after the attempt to load the file. *)
Theorem csv_failure_falls_back
        (E : Env) (question page_text page_html : string) (base_url : value)
        (tr : trace) (csv_url : string) :
  let combined := page_text ++ " " ++ page_html in
  search true re_scrape question = None ->
  find_csv_url csv_patterns combined = Some csv_url ->
  startswith "http" csv_url = true ->
  match read_csv E tr csv_url with
  | Raise _ => True
  | Ok df => search false re_cutoff combined = None \/
             exists texts, df = map ObjectColumn texts
  end ->
  solve_question E question page_text page_html base_url tr =
  gemini_answer E question page_text (tr ++ [EvReadCsv csv_url])%list.
Proof.
  intros combined NoScrape Url Abs Bad.
  unfold solve_question. rewrite NoScrape. fold combined. rewrite Url.
  rewrite (startswith_nonempty _ Abs), Abs.
  unfold bind at 1. unfold bind at 1. unfold ret at 1.
  unfold try_catch, csv_try, bind, call.
  destruct (read_csv E tr csv_url) as [df|e]; [|reflexivity].
  destruct (search false re_cutoff combined) as [m|] eqn:C; [|reflexivity].
  destruct Bad as [X | (texts & ->)]; [discriminate X|].
  destruct (ResolveFacts.cutoff_value _ _ C) as (digits & G & _ & PI & _).
  rewrite G, PI.
  destruct (Nat.leb (String.length digits) int_max_str_digits); [|reflexivity].
  now rewrite TableFacts.sum_above_cutoff_none.
Qed.

(** X18.  When the question names no page to scrape and neither the
    text nor the HTML of the page mentions the extension .csv, in any case
    of letters, the solver loads nothing and answers as the model does. *)
Theorem no_csv_link_asks_model
        (E : Env) (question page_text page_html : string) (base_url : value)
        (tr : trace) :
  search true re_scrape question = None ->
  occurs true ".csv" (page_text ++ " " ++ page_html) = false ->
  solve_question E question page_text page_html base_url tr =
  gemini_answer E question page_text tr.
Proof.
  intros NoScrape No. unfold solve_question.
  rewrite NoScrape, (find_csv_url_none _ No). reflexivity.
Qed.

(** X19.  The CSV URL taken from the page is never empty and always
    ends with the extension .csv, in some case of letters: stripping
    quotes, parentheses and angle brackets from its ends cannot reach the
    extension.  It also lies in the text it was found in. *)
Theorem csv_url_has_extension (combined csv_url : string) :
  find_csv_url csv_patterns combined = Some csv_url ->
  ends_with_ci ".csv" csv_url /\ nonempty csv_url = true /\
  occurs true ".csv" combined = true.
Proof.
  intros F.
  destruct (find_csv_url_inv _ _ _ (fun r H => H) F) as (m & a & w & b & c & U & L & S & _).
  destruct (strip_keeps_extension a w L) as (a' & X).
  rewrite X in U. subst csv_url. split; [|split].
  - exists a', w. auto.
  - pose proof (lit_eq_length _ _ _ L) as Len.
    destruct a'; [destruct w; [discriminate Len | reflexivity] | reflexivity].
  - rewrite S, <- (app_assoc b a). apply occurs_intro. now apply prefix_eq_intro.
Qed.

(** X20.  On a column of unsigned integers the sum that the tabular
    tool returns is never negative.  On a column of signed integers it is
    not negative, whatever cutoff is read, when the positive values of the
    column add up to less than 2^63; beyond that the sum wraps around and
    can be negative. *)
Theorem tabular_answer_not_negative
        (E : Env) (csv_url combined : string) (tr : trace) (df : DataFrame)
        (col : column) (n : Z) (tr' : trace) :
  read_csv E tr csv_url = Ok df ->
  first_number_column df col ->
  match col with
  | IntColumn vals => (sum_greater 0 vals < 2 ^ 63)%Z
  | UIntColumn _ => True
  | _ => False
  end ->
  csv_try E csv_url combined tr = (Ok (Some n), tr') -> (0 <= n)%Z.
Proof.
  unfold csv_try, bind, call. intros Read First Fits Run. rewrite Read in Run.
  destruct (search false re_cutoff combined) as [m|] eqn:C; [|discriminate Run].
  destruct (ResolveFacts.cutoff_value _ _ C) as (digits & G & _ & PI & Pos).
  rewrite G, PI in Run.
  destruct (Nat.leb (String.length digits) int_max_str_digits); [|discriminate Run].
  rewrite (TableFacts.sum_above_cutoff_first E _ _ _ First) in Run.
  destruct col as [vals|vals|vals|texts]; try contradiction.
  - simpl in Run. inversion Run; subst.
    pose proof (TableFacts.sum_greater_nonneg _ vals Pos).
    pose proof (TableFacts.sum_greater_monotone 0 (digits_value 0 digits) vals
                  ltac:(lia)).
    rewrite TableFacts.wrap_int64_exact; [assumption|].
    unfold int64_range. lia.
  - simpl in Run. inversion Run; subst.
    pose proof (TableFacts.wrap_uint64_range
                  (sum_greater (digits_value 0 digits) vals)) as R.
    unfold uint64_range in R. lia.
Qed.

End ToolFacts.
(* ===================================================================== *)
(** ** One quiz step and the chain of steps *)
(* ===================================================================== *)

Module StepFacts.
Import PyStr Re Py Quiz Spec Props StrFacts ReFacts PatternFacts MFacts TraceFacts.
Import LoopFacts DiscoveryFacts ToolFacts ChainFacts.
Local Open Scope py_scope.
Local Open Scope list_scope.

Lemma analyze_generates E page_text :
  extends (analyze_quiz_page E page_text) 1 is_generate.
Proof.
  intros tr. pose proof (analyze_run E page_text tr) as R.
  destruct (search true re_post_submit page_text);
    [rewrite R; exists []; rewrite List.app_nil_r; split; [reflexivity | unfold count_events; simpl; lia]|].
  destruct (search true re_submit_url page_text);
    [rewrite R; exists []; rewrite List.app_nil_r; split; [reflexivity | unfold count_events; simpl; lia]|].
  rewrite R. eexists. split; [reflexivity|]. unfold count_events. simpl. lia.
Qed.

Lemma solve_question_bounds E question page_text page_html base_url :
  let run := solve_question E question page_text page_html base_url in
  extends run 3 is_goto /\ extends run 1 is_generate /\ extends run 1 is_read_csv.
Proof.
  intros run.
  pose proof (solve_question_counts E question page_text page_html base_url) as C.
  cbv zeta in C. fold run in C.
  destruct (search true re_scrape question); destruct C as (G & M & R);
    repeat split; try assumption;
    (eapply extends_weaken; [|eassumption]; lia).
Qed.

(** The counts of one step. *)
Lemma step_counts E email secret quiz_url :
  let step := solve_single_quiz E email secret quiz_url in
  extends step 6 is_goto /\ extends step 2 is_generate /\ extends step 1 is_read_csv.
Proof.
  intros step. unfold step, solve_single_quiz.
  split; [|split].
  - refine (extends_bind _ _ 3 3 _ (fetch_gotos E _ 3) _). intros f.
    refine (extends_bind _ _ 0 3 _ _ _); [silent|]. intros r.
    refine (extends_bind _ _ 0 3 _ _ _); [silent|]. intros _.
    refine (extends_bind _ _ 0 3 _ _ _); [unfold analyze_quiz_page; silent|]. intros a.
    refine (extends_bind _ _ 0 3 _ _ _); [silent|]. intros _.
    refine (extends_bind _ _ 3 0 _
              (proj1 (solve_question_bounds E _ _ _ _)) _). intros answer.
    unfold submit_answer, absolute_submit_url, post_with_retries, post_attempt. silent.
  - refine (extends_bind _ _ 0 2 _ _ _);
      [unfold fetch_page_with_playwright, fetch_attempt; silent|]. intros f.
    refine (extends_bind _ _ 0 2 _ _ _); [silent|]. intros r.
    refine (extends_bind _ _ 0 2 _ _ _); [silent|]. intros _.
    refine (extends_bind _ _ 1 1 _ (analyze_generates E _) _). intros a.
    refine (extends_bind _ _ 0 1 _ _ _); [silent|]. intros _.
    refine (extends_bind _ _ 1 0 _
              (proj1 (proj2 (solve_question_bounds E _ _ _ _))) _). intros answer.
    unfold submit_answer, absolute_submit_url, post_with_retries, post_attempt. silent.
  - refine (extends_bind _ _ 0 1 _ _ _);
      [unfold fetch_page_with_playwright, fetch_attempt; silent|]. intros f.
    refine (extends_bind _ _ 0 1 _ _ _); [silent|]. intros r.
    refine (extends_bind _ _ 0 1 _ _ _); [silent|]. intros _.
    refine (extends_bind _ _ 0 1 _ _ _); [unfold analyze_quiz_page; silent|]. intros a.
    refine (extends_bind _ _ 0 1 _ _ _); [silent|]. intros _.
    refine (extends_bind _ _ 1 0 _
              (proj2 (proj2 (solve_question_bounds E _ _ _ _))) _). intros answer.
    unfold submit_answer, absolute_submit_url, post_with_retries, post_attempt. silent.
Qed.

Section Counting.
Variable single : value -> M value.
Variable p : event -> bool.
Variable n : nat.
Hypothesis single_counts : forall u, extends (single u) n p.
Hypothesis logs_apart : forall l, p (EvLog l) = false.

Lemma log_apart l : extends (log l) 0 p.
Proof. exact (extends_emit0 _ _ (logs_apart l)). Qed.

Lemma loop_body_counts st : extends (loop_body single st) n p.
Proof.
  unfold loop_body.
  refine (extends_bind _ _ 0 n _ (log_apart _) _). intros _.
  refine (extends_weaken _ (n + 0) n _ _ _); [lia|].
  refine (extends_try _ _ n 0 _ _ _).
  - refine (extends_weaken _ (n + 0) n _ _ _); [lia|].
    refine (extends_bind _ _ n 0 _ (single_counts _) _). intros result.
    repeat (intros;
      match goal with
      | |- extends (ret _) _ _ => refine (extends_ret _ _)
      | |- extends (log _) _ _ => apply log_apart
      | |- extends (bind _ _) _ _ => refine (extends_bind _ _ 0 0 _ _ _)
      | |- extends (if ?x then _ else _) _ _ => destruct x
      end).
  - intros e. refine (extends_bind _ _ 0 0 _ (log_apart _) _). intros _.
    refine (extends_ret _ _).
Qed.

Lemma while_loop_counts : forall fuel st,
  extends (while_loop single fuel st) (fuel * n) p.
Proof.
  induction fuel as [|fuel IH]; intros st; simpl.
  - destruct (truthy _ && _); refine (extends_ret _ _).
  - destruct (truthy _ && _);
      [|refine (extends_weaken _ 0 _ _ _ (extends_ret _ _)); lia].
    refine (extends_bind _ _ n (fuel * n) _ (loop_body_counts st) _).
    intros r. destruct (snd r); [|apply IH].
    refine (extends_weaken _ 0 _ _ _ (extends_ret _ _)). lia.
Qed.

Lemma chain_counts email start_url :
  extends (chain single email start_url) (10 * n) p.
Proof.
  unfold chain.
  refine (extends_bind _ _ 0 (10 * n) _ (log_apart _) _). intros _.
  refine (extends_weaken _ (10 * n + 0) _ _ _ _); [lia|].
  refine (extends_bind _ _ (10 * n) 0 _ (while_loop_counts 10 _) _). intros r.
  refine (extends_bind _ _ 0 0 _ (log_apart _) _). intros _.
  refine (extends_ret _ _).
Qed.
End Counting.

(** X21.  One quiz step opens pages at most six times (three for the
    quiz page, three for a page to scrape), calls the model at most twice
    (once to find the submit URL, once to answer) and loads at most one
    file. *)
Theorem step_resource_bounds
        (E : Env) (email secret : string) (quiz_url : value) :
  let step := solve_single_quiz E email secret quiz_url in
  extends step 6 is_goto /\ extends step 2 is_generate /\ extends step 1 is_read_csv.
Proof. apply step_counts. Qed.

(** X22.  A whole chain, whatever the pages and the endpoint answer,
    opens pages at most sixty times, calls the model at most twenty times
    and loads at most ten files. *)
Theorem chain_resource_bounds
        (E : Env) (email secret : string) (start_url : value) :
  let run := solve_quiz_chain E email secret start_url in
  extends run 60 is_goto /\ extends run 20 is_generate /\ extends run 10 is_read_csv.
Proof.
  intros run. unfold run, solve_quiz_chain.
  split; [|split].
  - apply (chain_counts _ is_goto 6); [|reflexivity].
    intros u. apply step_counts.
  - apply (chain_counts _ is_generate 2); [|reflexivity].
    intros u. apply step_counts.
  - apply (chain_counts _ is_read_csv 1); [|reflexivity].
    intros u. apply step_counts.
Qed.

(** With a browser that works the first attempt of a fetch gives the
    page. *)
Lemma fetch_first_try E url n tr :
  browser_works E ->
  exists page,
    fetch_page_with_playwright E url (S n) tr =
    (Ok (Some page), ((tr ++ [EvGoto url]) ++ [EvSleep 2]) ++ [EvRead url]).
Proof.
  intros Works. rewrite fetch_unfold.
  change (range (S n)) with (0%nat :: seq 1 n). cbn [for_each].
  unfold fetch_body at 1. unfold bind, try_catch, ret.
  rewrite fetch_attempt_run.
  destruct (Works tr url) as (G & _). rewrite G.
  destruct (Works ((tr ++ [EvGoto url]) ++ [EvSleep 2]) url) as (_ & page & R).
  rewrite R. now exists page.
Qed.

Lemma gemini_returns E question page_text :
  returns (fun _ => True) (gemini_answer E question page_text).
Proof.
  unfold gemini_answer. apply returns_try; [auto|].
  intros e. now apply returns_ret.
Qed.

Lemma solve_question_returns E question page_text page_html base_url :
  browser_works E -> urljoin_works E ->
  returns (fun _ => True) (solve_question E question page_text page_html base_url).
Proof.
  intros Works Join tr. unfold solve_question.
  destruct (search true re_scrape question) as [m|] eqn:S.
  - destruct (search_inv _ _ _ _ S) as (pre & suf & _ & Hm & _).
    destruct (scrape_match _ _ _ _ Hm) as (w & sp & path & after & _ & _ & _ & _ & _ & _ & G).
    rewrite G. destruct (Join base_url path) as (u & J).
    unfold bind at 1. unfold lift. rewrite J.
    destruct (fetch_first_try E (VStr u) 2 tr Works) as (page & F).
    rewrite (bind_ok _ _ _ _ _ F). unfold unpack, bind, ret.
    eexists; eexists; split; [reflexivity | exact I].
  - refine (returns_bind (fun _ => True) _ _ _ _ _ tr);
      [|intros [n|] _; [now apply returns_ret | apply gemini_returns]].
    destruct (find_csv_url csv_patterns _) as [csv_url|]; [|now apply returns_ret].
    destruct (nonempty csv_url); [|now apply returns_ret].
    refine (returns_bind (fun _ => True) _ _ _ _ _).
    + destruct (startswith "http" csv_url); [now apply returns_ret|].
      intros t. destruct (Join base_url csv_url) as (u & J).
      unfold lift. rewrite J. eexists; eexists; split; [reflexivity | exact I].
    + intros u _. apply returns_try; [auto|]. intros e. now apply returns_ret.
Qed.

Lemma submit_returns E su email secret quiz_url answer :
  urljoin_works E ->
  returns (fun _ => True) (submit_answer E (Some su) email secret quiz_url answer 3).
Proof.
  intros Join tr. unfold submit_answer, absolute_submit_url.
  assert (Abs : exists u,
             (if startswith "http" su then ret su else lift (urljoin E quiz_url su)) tr =
             (Ok u, tr)).
  { destruct (startswith "http" su); [now exists su|].
    destruct (Join quiz_url su) as (u & J). unfold lift. rewrite J. now exists u. }
  destruct Abs as (u & Abs). rewrite (bind_ok _ _ _ _ _ Abs).
  destruct (RetryFacts.post_retries E u (make_payload email secret quiz_url answer) tr)
    as (k & r & tr' & _ & _ & _ & Run).
  rewrite Run. eexists; eexists; split; [reflexivity | exact I].
Qed.

Lemma step_returns E email secret quiz_url :
  browser_works E -> urljoin_works E ->
  returns (fun _ => True) (solve_single_quiz E email secret quiz_url).
Proof.
  intros Works Join tr. unfold solve_single_quiz.
  destruct (fetch_first_try E quiz_url 2 tr Works) as (page & F).
  rewrite (bind_ok _ _ _ _ _ F). unfold unpack at 1.
  unfold bind at 1. unfold ret at 1.
  unfold bind at 1. unfold sleep at 1. unfold emit at 1.
  refine (returns_bind (fun a => exists u, submit_url a = Some u) _ _ _
            (analyze_returns_url E _) _ _).
  intros a (u & Su). rewrite Su.
  refine (returns_bind (fun _ => True) _ _ _ (returns_emit _ _ I) _). intros _ _.
  refine (returns_bind (fun _ => True) _ _ _
            (solve_question_returns E _ _ _ _ Works Join) _).
  intros answer _. now apply submit_returns.
Qed.

(** A loop whose steps always return is never left by a caught error. *)
Lemma while_no_error single :
  (forall u, returns (fun _ => True) (single u)) ->
  forall fuel st tr st' how tr',
    while_loop single fuel st tr = (Ok (st', how), tr') -> how <> ErrorCaught.
Proof.
  intros Ret fuel. induction fuel as [|fuel IH]; intros st tr st' how tr' W.
  - simpl in W. destruct (truthy _ && _); inversion W; discriminate.
  - simpl in W. destruct (truthy _ && _); [|inversion W; discriminate].
    destruct (Ret (current_url st)
                (tr ++ [EvLog (LogQuiz (quiz_count st + 1) (current_url st))]))
      as (result & tr1 & Step & _).
    pose proof (loop_body_run single st tr) as B. cbv zeta in B. rewrite Step in B.
    destruct (truthy result && is_dict result);
      [destruct (truthy (get result "url"))|];
      rewrite (bind_ok _ _ _ _ _ B) in W; cbn [snd fst] in W.
    + eapply IH. exact W.
    + inversion W. discriminate.
    + inversion W. discriminate.
Qed.

(** X23.  When the browser opens and reads every page and joining URLs
    never fails, a quiz step never raises, whatever the page says and
    whatever the model, the CSV reader and the endpoint do; and the chain
    then never ends on a caught error. *)
Theorem step_never_raises
        (E : Env) (email secret : string) :
  browser_works E -> urljoin_works E ->
  (forall quiz_url tr, exists result tr',
      solve_single_quiz E email secret quiz_url tr = (Ok result, tr')) /\
  (forall start_url tr st how tr',
      solve_quiz_chain E email secret start_url tr = (Ok (st, how), tr') ->
      how <> ErrorCaught).
Proof.
  intros Works Join. split.
  - intros quiz_url tr.
    destruct (step_returns E email secret quiz_url Works Join tr) as (r & tr' & Run & _).
    eauto.
  - intros start_url tr st how tr' Run.
    unfold solve_quiz_chain, chain, bind, log, emit, ret in Run.
    destruct (while_loop _ _ _ _) as [[[st1 how1]|e] tr1] eqn:W; [|discriminate Run].
    inversion Run; subst.
    eapply while_no_error; [|exact W].
    intros u. now apply step_returns.
Qed.

Lemma carries_others email secret e : is_post e = false -> carries email secret e.
Proof. destruct e; simpl; intros H; try exact I. discriminate H. Qed.

(** The submissions of a step carry its email, secret, quiz URL and a
    scalar answer. *)
Lemma submit_carries E su email secret quiz_url answer retries :
  scalar answer = true ->
  only (carries email secret) (submit_answer E su email secret quiz_url answer retries).
Proof.
  intros Sc. unfold submit_answer, only.
  eapply emits_bind with (Q := fun _ => True).
  - unfold absolute_submit_url. only_events (carries_others email secret).
  - intros u _.
    eapply emits_weaken; [| |apply (post_loop_emits E u _ retries)]; [|auto].
    intros e [-> | ->]; simpl; [exact I|].
    exists quiz_url, answer. split; [reflexivity | exact Sc].
Qed.

Lemma step_carries E email secret quiz_url :
  only (carries email secret) (solve_single_quiz E email secret quiz_url).
Proof.
  pose proof (carries_others email secret) as HP.
  unfold solve_single_quiz, only.
  eapply emits_bind with (Q := fun _ => True); [now apply fetch_only|]. intros f _.
  eapply emits_bind with (Q := fun _ => True); [only_events HP|]. intros r _.
  eapply emits_bind with (Q := fun _ => True); [only_events HP|]. intros _ _.
  eapply emits_bind with (Q := fun _ => True);
    [unfold analyze_quiz_page; only_events HP|]. intros a _.
  eapply emits_bind with (Q := fun _ => True); [only_events HP|]. intros _ _.
  eapply emits_bind; [now apply solve_question_emits|].
  intros answer Sc. now apply submit_carries.
Qed.

Section Only.
Variable single : value -> M value.
Variable P : event -> Prop.
Hypothesis single_only : forall u, only P (single u).
Hypothesis logs_pass : forall l, P (EvLog l).

Lemma log_only l : only P (log l).
Proof. apply emits_emit; [apply logs_pass | exact I]. Qed.

Lemma loop_body_only st : only P (loop_body single st).
Proof.
  unfold loop_body, only.
  eapply emits_bind with (Q := fun _ => True); [apply log_only|]. intros _ _.
  apply emits_try.
  - eapply emits_bind with (Q := fun _ => True); [apply single_only|].
    intros result _.
    repeat (intros;
      match goal with
      | |- emits _ _ (ret _) => apply emits_ret; exact I
      | |- emits _ _ (log _) => apply log_only
      | |- emits _ _ (bind _ _) => eapply emits_bind with (Q := fun _ => True)
      | |- emits _ _ (if ?x then _ else _) => destruct x
      end).
  - intros e. eapply emits_bind with (Q := fun _ => True); [apply log_only|].
    intros _ _. apply emits_ret. exact I.
Qed.

Lemma while_loop_only : forall fuel st, only P (while_loop single fuel st).
Proof.
  induction fuel as [|fuel IH]; intros st; simpl.
  - destruct (truthy _ && _); apply emits_ret; exact I.
  - destruct (truthy _ && _); [|apply emits_ret; exact I].
    eapply emits_bind with (Q := fun _ => True); [apply loop_body_only|].
    intros r _. destruct (snd r); [apply emits_ret; exact I | apply IH].
Qed.

Lemma chain_only email start_url : only P (chain single email start_url).
Proof.
  unfold chain, only.
  eapply emits_bind with (Q := fun _ => True); [apply log_only|]. intros _ _.
  eapply emits_bind with (Q := fun _ => True); [apply while_loop_only|]. intros r _.
  eapply emits_bind with (Q := fun _ => True); [apply log_only|]. intros _ _.
  apply emits_ret. exact I.
Qed.
End Only.

(** X24.  Every submission of a chain carries the identity the chain
    was started with: the payload of each POST it makes is the dict that
    holds the caller's email under the key email, the caller's secret
    under secret, the URL of a quiz under url and a scalar answer under
    answer, in this order.  The chain only appends to the trace. *)
Theorem chain_posts_carry_identity
        (E : Env) (email secret : string) (start_url : value) (tr : trace) :
  exists evs,
    snd (solve_quiz_chain E email secret start_url tr) = tr ++ evs /\
    forall u payload, In (EvPost u payload) evs ->
      exists quiz_url answer,
        payload = VDict [("email", VStr email); ("secret", VStr secret);
                         ("url", quiz_url); ("answer", answer)] /\
        scalar answer = true.
Proof.
  destruct (chain_only (solve_single_quiz E email secret) (carries email secret)
              (step_carries E email secret) (fun _ => I) email start_url tr)
    as (evs & Ev & F & _).
  exists evs. split; [exact Ev|].
  intros u payload In. rewrite Forall_forall in F. exact (F _ In).
Qed.

End StepFacts.
(* ===================================================================== *)
(** ** The service endpoint *)
(* ===================================================================== *)

Module ServiceFacts.
Import Py Service.

(** X25.  POST /solve starts a chain exactly for the requests whose
    secret is the configured one.  Such a request is answered 200,
    accepted, and one background task is added with its email, secret and
    URL, whatever these hold.  Any other request is answered 403, invalid
    secret, and no task is added; so when the secret is not configured at
    all, every request is refused. *)
Theorem solve_quiz_checks_secret (MY_SECRET : option string) (request : QuizRequest) :
  (MY_SECRET = Some (secret request) ->
   solve_quiz MY_SECRET request =
   (JSONResponse 200 (VDict [("status", VStr "accepted");
                             ("message", VStr "Quiz is being processed")]),
    [(email request, secret request, url request)])) /\
  (MY_SECRET <> Some (secret request) ->
   solve_quiz MY_SECRET request = (HTTPException 403 "Invalid secret", [])) /\
  (MY_SECRET = None -> snd (solve_quiz MY_SECRET request) = []).
Proof.
  unfold solve_quiz, secret_differs. split; [|split].
  - intros ->. now rewrite String.eqb_refl.
  - intros Ne. destruct MY_SECRET as [s|]; [|reflexivity].
    destruct (String.eqb (secret request) s) eqn:X; [|reflexivity].
    apply String.eqb_eq in X. subst s. now contradiction Ne.
  - intros ->. reflexivity.
Qed.

End ServiceFacts.
(* ===================================================================== *)
(** ** The time the program sleeps *)
(* ===================================================================== *)

Module SleepFacts.
Import PyStr Re Py Quiz Spec Props MFacts TraceFacts LoopFacts.
Local Open Scope py_scope.
Local Open Scope list_scope.

Lemma sleep_total_app (a b : trace) :
  sleep_total (a ++ b) = (sleep_total a + sleep_total b)%nat.
Proof. unfold sleep_total. now rewrite map_app, list_sum_app. Qed.

Lemma sleeps_weaken {A} (c : M A) n n' :
  (n <= n')%nat -> sleeps c n -> sleeps c n'.
Proof.
  intros Le H tr. destruct (H tr) as (evs & E & C). exists evs. split; [assumption | lia].
Qed.

Lemma sleeps_ret {A} (a : A) n : sleeps (ret a) n.
Proof.
  intros tr. exists []. simpl. rewrite app_nil_r.
  split; [reflexivity | unfold sleep_total; simpl; lia].
Qed.

Lemma sleeps_raise {A} msg n : sleeps (@raise A msg) n.
Proof.
  intros tr. exists []. simpl. rewrite app_nil_r.
  split; [reflexivity | unfold sleep_total; simpl; lia].
Qed.

Lemma sleeps_lift {A} (o : outcome A) n : sleeps (lift o) n.
Proof.
  intros tr. exists []. simpl. rewrite app_nil_r.
  split; [reflexivity | unfold sleep_total; simpl; lia].
Qed.

Lemma sleeps_emit (e : event) n : (slept e <= n)%nat -> sleeps (emit e) n.
Proof.
  intros Le tr. exists [e]. split; [reflexivity|].
  unfold sleep_total. simpl. lia.
Qed.

Lemma sleeps_call {A} (e : event) (o : trace -> outcome A) n :
  (slept e <= n)%nat -> sleeps (call e o) n.
Proof.
  intros Le tr. exists [e]. split; [reflexivity|].
  unfold sleep_total. simpl. lia.
Qed.

Lemma sleeps_bind {A B} (c : M A) (f : A -> M B) n1 n2 :
  sleeps c n1 -> (forall a, sleeps (f a) n2) -> sleeps (bind c f) (n1 + n2).
Proof.
  intros Hc Hf tr. unfold bind.
  destruct (Hc tr) as (e1 & E1 & C1). destruct (c tr) as [[a|msg] tr1]; simpl in E1; subst tr1.
  - destruct (Hf a (tr ++ e1)) as (e2 & E2 & C2).
    exists (e1 ++ e2). rewrite E2, app_assoc, sleep_total_app. split; [reflexivity | lia].
  - exists e1. simpl. split; [reflexivity | lia].
Qed.

Lemma sleeps_try {A} (c : M A) (h : string -> M A) n1 n2 :
  sleeps c n1 -> (forall e, sleeps (h e) n2) -> sleeps (try_catch c h) (n1 + n2).
Proof.
  intros Hc Hh tr. unfold try_catch.
  destruct (Hc tr) as (e1 & E1 & C1). destruct (c tr) as [[a|msg] tr1]; simpl in E1; subst tr1.
  - exists e1. simpl. split; [reflexivity | lia].
  - destruct (Hh msg (tr ++ e1)) as (e2 & E2 & C2).
    exists (e1 ++ e2). rewrite E2, app_assoc, sleep_total_app. split; [reflexivity | lia].
Qed.

(** Syntax-directed bound for what does not sleep at all. *)
Ltac awake :=
  repeat (intros;
    match goal with
    | |- sleeps (ret _) _ => apply sleeps_ret
    | |- sleeps (raise _) _ => apply sleeps_raise
    | |- sleeps (lift _) _ => apply sleeps_lift
    | |- sleeps (unpack ?x) _ => destruct x; unfold unpack
    | |- sleeps (call _ _) _ => apply sleeps_call; simpl; lia
    | |- sleeps (log _) _ => apply sleeps_emit; simpl; lia
    | |- sleeps (bind _ _) _ => refine (sleeps_bind _ _ 0 0 _ _)
    | |- sleeps (try_catch _ _) _ => refine (sleeps_try _ _ 0 0 _ _)
    | |- sleeps (match ?x with _ => _ end) _ => destruct x
    end).

(** Retried attempts sleep five seconds between them. *)
Lemma retried_sleeps {A} (attempt : M A) (k : nat) :
  sleeps attempt k ->
  forall n tr r tr',
    retried attempt n tr r tr' ->
    exists evs, tr' = tr ++ evs /\ (sleep_total evs + 5 <= n * (k + 5))%nat.
Proof.
  intros Hk n tr r tr' R.
  induction R as [tr r tr' Run | tr e tr1 n r tr' Run _ IH].
  - destruct (Hk tr) as (evs & E & C). rewrite Run in E. simpl in E.
    exists evs. split; [exact E | lia].
  - destruct (Hk tr) as (e1 & E1 & C1). rewrite Run in E1. simpl in E1. subst tr1.
    destruct IH as (e2 & E2 & C2). exists (e1 ++ [EvSleep 5] ++ e2).
    split; [rewrite E2, <- !app_assoc; reflexivity|].
    rewrite !sleep_total_app. unfold sleep_total at 2. simpl. lia.
Qed.

Lemma fetch_attempt_sleeps E url : sleeps (fetch_attempt E url) 2.
Proof.
  unfold fetch_attempt.
  refine (sleeps_bind _ _ 0 2 _ _); [awake|]. intros _.
  refine (sleeps_bind _ _ 2 0 _ _); [apply sleeps_emit; simpl; lia | awake].
Qed.

Lemma post_attempt_sleeps E u payload : sleeps (post_attempt E u payload) 0.
Proof. unfold post_attempt. awake. Qed.

(** A fetch sleeps at most sixteen seconds: two after each of three
    page loads and five between the attempts. *)
Lemma fetch_sleeps E url : sleeps (fetch_page_with_playwright E url 3) 16.
Proof.
  intros tr.
  destruct (RetryFacts.fetch_retries E url tr) as (n & r & tr' & B & R & _ & Run).
  destruct (retried_sleeps _ 2 (fetch_attempt_sleeps E url) _ _ _ _ R) as (evs & Ev & C).
  exists evs. rewrite Run. simpl. split; [exact Ev|]. nia.
Qed.

Lemma post_loop_sleeps E u payload : sleeps (post_with_retries E u payload 3) 10.
Proof.
  intros tr.
  destruct (RetryFacts.post_retries E u payload tr) as (n & r & tr' & B & R & _ & Run).
  destruct (retried_sleeps _ 0 (post_attempt_sleeps E u payload) _ _ _ _ R)
    as (evs & Ev & C).
  exists evs. rewrite Run. simpl. split; [exact Ev|]. nia.
Qed.

Lemma solve_question_sleeps E question page_text page_html base_url :
  sleeps (solve_question E question page_text page_html base_url) 16.
Proof.
  unfold solve_question.
  destruct (search true re_scrape question) as [m|].
  - destruct (m_group1 m) as [path|]; [|apply sleeps_raise].
    refine (sleeps_bind _ _ 0 16 _ _); [awake|]. intros u.
    refine (sleeps_bind _ _ 16 0 _ _); [apply fetch_sleeps | awake].
  - refine (sleeps_weaken _ 0 _ _ _); [lia|].
    unfold csv_try, gemini_answer. awake.
Qed.

Lemma step_sleeps E email secret quiz_url :
  sleeps (solve_single_quiz E email secret quiz_url) 48.
Proof.
  unfold solve_single_quiz.
  refine (sleeps_bind _ _ 16 32 (fetch_sleeps E _) _). intros f.
  refine (sleeps_bind _ _ 0 32 _ _); [awake|]. intros r.
  refine (sleeps_bind _ _ 3 29 _ _); [apply sleeps_emit; simpl; lia|]. intros _.
  refine (sleeps_bind _ _ 0 29 _ _); [unfold analyze_quiz_page; awake|]. intros a.
  refine (sleeps_bind _ _ 3 26 _ _); [apply sleeps_emit; simpl; lia|]. intros _.
  refine (sleeps_bind _ _ 16 10 (solve_question_sleeps E _ _ _ _) _). intros answer.
  unfold submit_answer.
  refine (sleeps_bind _ _ 0 10 _ _); [unfold absolute_submit_url; awake|]. intros u.
  apply post_loop_sleeps.
Qed.

Section Budget.
Variable single : value -> M value.
Variable n : nat.
Hypothesis single_sleeps : forall u, sleeps (single u) n.

Lemma loop_body_sleeps st : sleeps (loop_body single st) n.
Proof.
  unfold loop_body.
  refine (sleeps_bind _ _ 0 n _ _); [awake|]. intros _.
  refine (sleeps_weaken _ (n + 0) n _ _); [lia|].
  refine (sleeps_try _ _ n 0 _ _).
  - refine (sleeps_weaken _ (n + 0) n _ _); [lia|].
    refine (sleeps_bind _ _ n 0 (single_sleeps _) _). awake.
  - awake.
Qed.

Lemma while_loop_sleeps : forall fuel st,
  sleeps (while_loop single fuel st) (fuel * n).
Proof.
  induction fuel as [|fuel IH]; intros st; simpl.
  - destruct (truthy _ && _); apply sleeps_ret.
  - destruct (truthy _ && _); [|apply sleeps_ret].
    refine (sleeps_bind _ _ n (fuel * n) (loop_body_sleeps st) _).
    intros r. destruct (snd r); [apply sleeps_ret | apply IH].
Qed.

Lemma chain_sleeps email start_url :
  sleeps (chain single email start_url) (10 * n).
Proof.
  unfold chain.
  refine (sleeps_bind _ _ 0 (10 * n) _ _); [awake|]. intros _.
  refine (sleeps_weaken _ (10 * n + 0) _ _ _); [lia|].
  refine (sleeps_bind _ _ (10 * n) 0 (while_loop_sleeps 10 _) _). awake.
Qed.
End Budget.

(** X26.  The program's own waiting is bounded.  One quiz step sleeps
    at most 48 seconds in all (16 for the fetch of the quiz page, 3 before
    and 3 after the analysis, 16 for a page to scrape, 10 between the
    submissions), and a whole chain at most 480 seconds. *)
Theorem sleep_budget (E : Env) (email secret : string) :
  (forall quiz_url, sleeps (solve_single_quiz E email secret quiz_url) 48) /\
  (forall start_url, sleeps (solve_quiz_chain E email secret start_url) 480).
Proof.
  split; [apply step_sleeps|].
  intros start_url. unfold solve_quiz_chain.
  apply (chain_sleeps _ 48). apply step_sleeps.
Qed.

End SleepFacts.

(* ===================================================================== *)
(** ** The properties on concrete runs *)
(* ===================================================================== *)

Module Scenarios.
Import PyStr Re Py Quiz Spec Examples.
Import StrFacts ReFacts PatternFacts MFacts ChainFacts RetryFacts.
Import AnswerFacts TableFacts AnalyzeFacts ResolveFacts.
Local Open Scope list_scope.

(** A page without a URL and a model that is down: the hardcoded
    endpoint. *)
Lemma analyzer_total_witness :
  nothing_discovered env_plain plain_page [] /\
  exists a tr',
    analyze_quiz_page env_plain plain_page [] = (Ok a, tr') /\
    submit_url a = Some default_submit_url.
Proof.
  assert (N : nothing_discovered env_plain plain_page []).
  { vm_compute. repeat split; reflexivity. }
  split; [exact N|].
  destruct (analyzer_total env_plain plain_page [])
    as (a & tr' & u & Run & Su & _ & _ & D & _).
  exists a, tr'. split; [exact Run|]. rewrite Su. f_equal. exact (D N).
Defined.

(** Three pages.  The URL of [query_page] goes on after [/submit] and
    is returned cut there; the URL of [post_page] stands in a POST
    instruction and is returned whole; the submission URL of
    [two_url_page] comes after another URL, is written with capitals, and
    is the one returned, as it is written. *)
Lemma analyzer_first_submit_url_witness :
  analyze_quiz_page env_done query_page [] =
  (Ok {| submit_url := Some "https://quiz.example/submit";
         question := query_page |}, []) /\
  analyze_quiz_page env_done post_page [] =
  (Ok {| submit_url := Some "https://quiz.example/submit";
         question := post_page |}, []) /\
  analyze_quiz_page env_done two_url_page [] =
  (Ok {| submit_url := Some "HTTPS://quiz.example/Submit";
         question := two_url_page |}, []).
Proof.
  split; [|split].
  - apply (analyzer_first_submit_url env_done "Send your answer to "
             "https://" "quiz.example" "/submit" "?id=7" " today" []);
      try reflexivity; try discriminate; vm_compute; auto.
  - apply (analyzer_first_submit_url env_done "Question 1. POST to "
             "https://" "quiz.example" "/submit" "" " before noon" []);
      try reflexivity; try discriminate; vm_compute; auto.
  - apply (analyzer_first_submit_url env_done
             "Read https://quiz.example/help first, then send to "
             "HTTPS://" "quiz.example" "/Submit" "" " today" []);
      try reflexivity; try discriminate; vm_compute; auto.
Defined.

(** The claim read on two pages that hold a URL with a [/submit]
    segment: a URL that goes on after [/submit] is not returned whole,
    and for a URL that is not https the model is called and the URL is
    not returned at all.  Neither page holds the word POST. *)
Lemma analyzer_exact_url_counterexample :
  (contains "https://quiz.example/submit?id=7" query_page = true /\
   occurs true "POST" query_page = false /\
   analyze_quiz_page env_done query_page [] =
   (Ok {| submit_url := Some "https://quiz.example/submit";
          question := query_page |}, []) /\
   "https://quiz.example/submit" <> "https://quiz.example/submit?id=7") /\
  (contains "http://quiz.example/submit" http_page = true /\
   occurs true "POST" http_page = false /\
   (exists prompt,
       analyze_quiz_page env_done http_page [] =
       (Ok {| submit_url := Some "https://tds-llm-analysis.s-anand.net/submit";
              question := http_page |},
        [EvGenerate prompt])) /\
   "https://tds-llm-analysis.s-anand.net/submit" <> "http://quiz.example/submit").
Proof.
  repeat split; try (vm_compute; reflexivity); try discriminate.
  eexists. vm_compute. reflexivity.
Qed.

(** The endpoint answers the first submission with a result that has no
    [url]: one step, then the chain is complete. *)
Lemma chain_halts_without_next_url_witness :
  exists tr1,
    solve_single_quiz env_done me key q1
      ([EvLog (LogStart me)] ++ [EvLog (LogQuiz 1 q1)]) =
    (Ok (VDict [("correct", VBool true)]), tr1) /\
    solve_quiz_chain env_done me key q1 [] =
    (Ok ({| current_url := q1; quiz_count := 1 |}, ChainComplete),
     tr1 ++ [EvLog LogCorrect; EvLog LogComplete; EvLog (LogCompleted 1)]).
Proof.
  eexists. split.
  - vm_compute. reflexivity.
  - apply (chain_halts_without_next_url env_done me key q1 []
             {| current_url := q1; quiz_count := 0 |} [EvLog (LogStart me)]
             (VDict [("correct", VBool true)])).
    + apply reaches_here.
    + reflexivity.
    + vm_compute. reflexivity.
    + reflexivity.
    + reflexivity.
Defined.

(** The endpoint rejects the first answer and names a next quiz: the
    chain goes on to it. *)
Lemma chain_follows_next_url_witness :
  exists tr1 evs,
    solve_single_quiz env_wrong_then_done me key q1
      ([EvLog (LogStart me)] ++ [EvLog (LogQuiz 1 q1)]) =
    (Ok (VDict [("correct", VBool false); ("reason", VStr "wrong");
                ("url", q2)]), tr1) /\
    snd (solve_quiz_chain env_wrong_then_done me key q1 []) =
    tr1 ++ [EvLog (LogWrong (VStr "wrong")); EvLog (LogNext q2);
            EvLog (LogQuiz 2 q2); EvGoto q2] ++ evs.
Proof.
  assert (Step : exists tr1,
             solve_single_quiz env_wrong_then_done me key q1
               ([EvLog (LogStart me)] ++ [EvLog (LogQuiz 1 q1)]) =
             (Ok (VDict [("correct", VBool false); ("reason", VStr "wrong");
                         ("url", q2)]), tr1)).
  { eexists. vm_compute. reflexivity. }
  destruct Step as (tr1 & Step). exists tr1.
  destruct (chain_follows_next_url env_wrong_then_done me key q1 []
              {| current_url := q1; quiz_count := 0 |} [EvLog (LogStart me)]
              _ _ (reaches_here _ _) eq_refl Step eq_refl eq_refl) as [_ Next].
  destruct (Next eq_refl) as (evs & Ev).
  exists evs. split; [exact Step | exact Ev].
Defined.



(** Raising the cutoff from 10 to 20 on the table of the scenario: from
    37 down to 22. *)
Lemma sum_monotone_in_cutoff_witness :
  sum_above_cutoff env_done (frame_of_rows 1 scenario_rows) 10 = Some (NInt 37) /\
  sum_above_cutoff env_done (frame_of_rows 1 scenario_rows) 20 = Some (NInt 22) /\
  (22 <= 37)%Z.
Proof.
  exact (sum_monotone_in_cutoff env_done (frame_of_rows 1 scenario_rows)
           [1; 15; 22; 3]%Z 10 20 ltac:(discriminate)
           (or_introl (conj (conj eq_refl
                                  (ex_intro _ [] (ex_intro _ [] eq_refl)))
                            eq_refl))).
Defined.

(** On a column whose values add up to 2^63 the sum wraps around:
    raising the cutoff from 0 to 1 raises the answer from -2^63 to
    2^63 - 1. *)
Lemma sum_not_monotone_counterexample :
  solve_question (env_table (cutoff_page "0") big_frame)
                 (take 500 (cutoff_page "0")) (cutoff_page "0")
                 "<html></html>" q1 [] =
  (Ok (VInt (-9223372036854775808)), [EvReadCsv "https://quiz.example/data.csv"]) /\
  solve_question (env_table (cutoff_page "1") big_frame)
                 (take 500 (cutoff_page "1")) (cutoff_page "1")
                 "<html></html>" q1 [] =
  (Ok (VInt 9223372036854775807), [EvReadCsv "https://quiz.example/data.csv"]) /\
  sum_above_cutoff env_done big_frame 0 = Some (NInt (-9223372036854775808)) /\
  sum_above_cutoff env_done big_frame 1 = Some (NInt 9223372036854775807) /\
  (0 <= 1)%Z /\ ~ (9223372036854775807 <= -9223372036854775808)%Z.
Proof.
  repeat split; try (vm_compute; reflexivity); try discriminate.
  intros H. apply H. reflexivity.
Qed.

(** The scenario of the scrape branch; a page whose words are a
    no-break space apart; and a page without a number, returned without
    the whitespace at its ends. *)
Lemma scrape_branch_witness :
  (exists tr',
      solve_question env_secret "Scrape /secret.html" "" "" q1 [] =
      (Ok (VStr "48213"), tr') /\
      labeled_code secret_page "48213") /\
  fst (solve_question (env_page nbsp_page) "Scrape /secret.html" "" "" q1 []) =
  Ok (VStr "123") /\
  fst (solve_question (env_page greeting_page) "Scrape /hello.html" "" "" q1 []) =
  Ok (VStr "hello world").
Proof.
  split; [|split; vm_compute; reflexivity].
  assert (S : exists m, search true re_scrape "Scrape /secret.html" = Some m /\
                        m_group1 m = Some "/secret.html").
  { eexists. split; [vm_compute; reflexivity | reflexivity]. }
  destruct S as (m & S & G).
  assert (F : exists tr',
             fetch_page_with_playwright env_secret
               (VStr "https://quiz.example/secret.html") 3 [] =
             (Ok (Some (secret_page, "<html></html>")), tr')).
  { eexists. vm_compute. reflexivity. }
  destruct F as (tr' & F).
  destruct (scrape_branch env_secret "Scrape /secret.html" "" "" q1 [] m
              "/secret.html" "https://quiz.example/secret.html"
              secret_page "<html></html>" tr' S G eq_refl F)
    as (_ & answer & Run & Lab & _).
  assert (L : labeled_code secret_page "48213").
  { exists "The ", "s"%char, " ", " ", " ", ".". repeat split; auto. }
  assert (A : answer = "48213").
  { assert (X : fst (solve_question env_secret "Scrape /secret.html" "" "" q1 []) =
                Ok (VStr "48213")) by (vm_compute; reflexivity).
    rewrite Run in X. simpl in X. now inversion X. }
  subst answer. exists tr'. split; [exact Run | exact L].
Defined.

(** An endpoint that cannot be reached: three attempts, five seconds
    apart, then the failure result with the error text; nothing is
    raised.  An endpoint that answers with status 500: one attempt and the
    failure result with the status. *)
Lemma retry_policy_witness :
  submit_answer env_down (Some "https://quiz.example/submit") me key q1 (VInt 42) 3 [] =
  (Ok (VDict [("correct", VBool false); ("reason", VStr "connection refused")]),
   [EvPost "https://quiz.example/submit"
           (VDict [("email", VStr me); ("secret", VStr key); ("url", q1);
                   ("answer", VInt 42)]);
    EvSleep 5;
    EvPost "https://quiz.example/submit"
           (VDict [("email", VStr me); ("secret", VStr key); ("url", q1);
                   ("answer", VInt 42)]);
    EvSleep 5;
    EvPost "https://quiz.example/submit"
           (VDict [("email", VStr me); ("secret", VStr key); ("url", q1);
                   ("answer", VInt 42)])]) /\
  post_attempt MoreExamples.env_500 "https://quiz.example/submit" (VInt 42) [] =
  (Ok (VDict [("correct", VBool false); ("reason", VStr "HTTP 500")]),
   [EvPost "https://quiz.example/submit" (VInt 42)]).
Proof.
  split.
  - destruct (proj1 (proj2 (retry_policy env_down []))
                (Some "https://quiz.example/submit") me key q1 (VInt 42)
                "https://quiz.example/submit" eq_refl)
      as (n & r & tr' & _ & _ & _ & Run).
    rewrite Run.
    assert (X : submit_answer env_down (Some "https://quiz.example/submit")
                  me key q1 (VInt 42) 3 [] =
                (Ok (VDict [("correct", VBool false);
                            ("reason", VStr "connection refused")]),
                 [EvPost "https://quiz.example/submit"
                         (VDict [("email", VStr me); ("secret", VStr key); ("url", q1);
                                 ("answer", VInt 42)]);
                  EvSleep 5;
                  EvPost "https://quiz.example/submit"
                         (VDict [("email", VStr me); ("secret", VStr key); ("url", q1);
                                 ("answer", VInt 42)]);
                  EvSleep 5;
                  EvPost "https://quiz.example/submit"
                         (VDict [("email", VStr me); ("secret", VStr key); ("url", q1);
                                 ("answer", VInt 42)])]))
      by (vm_compute; reflexivity).
    rewrite <- Run. exact X.
  - rewrite (proj2 (proj2 (retry_policy MoreExamples.env_500 []))
               "https://quiz.example/submit" (VInt 42) []).
    reflexivity.
Defined.

(** What the model says, and the answer: 42 is the integer 42, also
    with a no-break space after it; 2.5 is the float; Yes between
    backticks and spaces is true; words between quotes are the words. *)
Lemma model_answer_typing_witness :
  fst (gemini_answer env_done "What is 6 times 7?" quiz_page []) = Ok (VInt 42) /\
  fst (gemini_answer (env_model ("42" ++ nbsp)) "q" "p" []) = Ok (VInt 42) /\
  fst (gemini_answer (env_model "2.5") "q" "p" []) = Ok (VFloat 2.5) /\
  fst (gemini_answer (env_model (" `Yes` " ++ nbsp)) "q" "p" []) = Ok (VBool true) /\
  fst (gemini_answer (env_model "'forty two'") "q" "p" []) = Ok (VStr "forty two").
Proof.
  split; [|repeat split; vm_compute; reflexivity].
  destruct (model_answer_typing env_done "What is 6 times 7?" quiz_page [])
    as (context & prompt & _ & _ & H).
  change (generate_content env_done [] prompt) with (@Ok string "42") in H.
  destruct H as (core & a & v & _ & _ & Run & _).
  assert (X : fst (gemini_answer env_done "What is 6 times 7?" quiz_page []) =
              Ok (VInt 42)) by (vm_compute; reflexivity).
  exact X.
Defined.

End Scenarios.

(* ===================================================================== *)
(** ** Further properties on concrete runs *)
(* ===================================================================== *)

Module MoreScenarios.
Import PyStr Re Py Quiz Spec Props Examples MoreExamples.
Import MFacts ChainFacts LoopFacts DriverFacts DiscoveryFacts ToolFacts StepFacts.
Local Open Scope list_scope.

(** Three retries and a browser that works: the page, not None. *)
Lemma fetch_any_retries_witness :
  fetch_page_with_playwright env_done q1 3 [] =
  (Ok (Some (quiz_page, "<html></html>"%string)),
   [EvGoto q1; EvSleep 2; EvRead q1]) /\
  (Some (quiz_page, "<html></html>"%string) = None <-> 3%nat = 0%nat).
Proof.
  assert (Run : fetch_page_with_playwright env_done q1 3 [] =
                (Ok (Some (quiz_page, "<html></html>"%string)),
                 [EvGoto q1; EvSleep 2; EvRead q1])).
  { vm_compute. reflexivity. }
  split; [exact Run|].
  exact (proj2 (fetch_any_retries env_done q1 3) _ _ _ Run).
Defined.

Lemma env_down_is_down : browser_down env_down.
Proof. intros tr u. eexists. reflexivity. Qed.

(** Two retries against a browser that is down. *)
Lemma fetch_gives_up_witness :
  exists msg,
    fetch_page_with_playwright env_down q1 2 [] =
    (Raise msg, [] ++ attempts_trace 2 (EvGoto q1)) /\
    exists tr0, page_goto env_down tr0 q1 = Raise msg.
Proof. exact (fetch_gives_up env_down q1 1 [] env_down_is_down). Defined.

(** A server error is returned after one POST. *)
Lemma http_error_not_retried_witness :
  submit_answer env_500 (Some submit_here) me key q1 (VInt 42) 3 [] =
  (Ok (VDict [("correct", VBool false); ("reason", VStr "HTTP 500")]),
   [EvPost "https://quiz.example/submit"
           (VDict [("email", VStr "me@example.com"); ("secret", VStr "s3cret");
                   ("url", VStr "https://quiz.example/q1"); ("answer", VInt 42)])]).
Proof.
  apply (http_error_not_retried env_500 submit_here me key q1 (VInt 42) 2 []
           {| status_code := 500; json := Raise "not JSON" |}).
  - reflexivity.
  - reflexivity.
  - discriminate.
Defined.

(** Three POSTs to an endpoint that cannot be reached. *)
Lemma submit_gives_up_witness :
  submit_answer env_down (Some submit_here) me key q1 (VInt 42) 3 [] =
  (Ok (VDict [("correct", VBool false); ("reason", VStr "connection refused")]),
   [EvPost "https://quiz.example/submit"
           (VDict [("email", VStr "me@example.com"); ("secret", VStr "s3cret");
                   ("url", VStr "https://quiz.example/q1"); ("answer", VInt 42)]);
    EvSleep 5;
    EvPost "https://quiz.example/submit"
           (VDict [("email", VStr "me@example.com"); ("secret", VStr "s3cret");
                   ("url", VStr "https://quiz.example/q1"); ("answer", VInt 42)]);
    EvSleep 5;
    EvPost "https://quiz.example/submit"
           (VDict [("email", VStr "me@example.com"); ("secret", VStr "s3cret");
                   ("url", VStr "https://quiz.example/q1"); ("answer", VInt 42)])]).
Proof.
  destruct (submit_gives_up env_down submit_here me key q1 (VInt 42) 2 [])
    as (msg & Run & tr0 & Msg).
  - reflexivity.
  - intros tr0. eexists. reflexivity.
  - rewrite Run. simpl in Msg. inversion Msg; subst msg. reflexivity.
Defined.

(** An empty starting URL. *)
Lemma chain_without_start_url_witness :
  solve_quiz_chain env_done me key (VStr "") [] =
  (Ok ({| current_url := VStr ""; quiz_count := 0 |}, LoopTestFalse),
   [] ++ [EvLog (LogStart me); EvLog (LogCompleted 0)]).
Proof. apply (chain_without_start_url env_done me key (VStr "") []). reflexivity. Defined.

(** The first step raises: the browser is down. *)
Lemma chain_stops_on_error_witness :
  exists e tr1,
    solve_single_quiz env_down me key q1
      ([EvLog (LogStart me)] ++ [EvLog (LogQuiz 1 q1)]) = (Raise e, tr1) /\
    solve_quiz_chain env_down me key q1 [] =
    (Ok ({| current_url := q1; quiz_count := 1 |}, ErrorCaught),
     tr1 ++ [EvLog (LogError 1 e); EvLog (LogCompleted 1)]).
Proof.
  assert (Step : exists e tr1,
             solve_single_quiz env_down me key q1
               ([EvLog (LogStart me)] ++ [EvLog (LogQuiz 1 q1)]) = (Raise e, tr1)).
  { eexists. eexists. vm_compute. reflexivity. }
  destruct Step as (e & tr1 & Step). exists e, tr1. split; [exact Step|].
  exact (chain_stops_on_error env_down me key q1 []
           {| current_url := q1; quiz_count := 0 |} [EvLog (LogStart me)] e tr1
           (reaches_here _ _) eq_refl Step).
Defined.

(** The endpoint answers with a list. *)
Lemma chain_stops_on_invalid_witness :
  exists tr1,
    solve_single_quiz env_list me key q1
      ([EvLog (LogStart me)] ++ [EvLog (LogQuiz 1 q1)]) = (Ok (VList [VInt 1]), tr1) /\
    solve_quiz_chain env_list me key q1 [] =
    (Ok ({| current_url := q1; quiz_count := 1 |}, InvalidResponse),
     tr1 ++ [EvLog LogInvalid; EvLog (LogCompleted 1)]).
Proof.
  assert (Step : exists tr1,
             solve_single_quiz env_list me key q1
               ([EvLog (LogStart me)] ++ [EvLog (LogQuiz 1 q1)]) =
             (Ok (VList [VInt 1]), tr1)).
  { eexists. vm_compute. reflexivity. }
  destruct Step as (tr1 & Step). exists tr1. split; [exact Step|].
  exact (chain_stops_on_invalid env_list me key q1 []
           {| current_url := q1; quiz_count := 0 |} [EvLog (LogStart me)] _ tr1
           (reaches_here _ _) eq_refl Step eq_refl).
Defined.

Lemma env_endless_next : always_next (solve_single_quiz env_endless me key).
Proof.
  intros u tr. eexists. eexists.
  split; [vm_compute; reflexivity|]. split; reflexivity.
Qed.

(** An endpoint that always names a next quiz: ten steps. *)
Lemma chain_runs_ten_steps_witness :
  exists st evs,
    solve_quiz_chain env_endless me key q1 [] = (Ok (st, LoopTestFalse), [] ++ evs) /\
    quiz_count st = 10%Z /\
    truthy (current_url st) = true /\
    count_events is_quiz_log evs = 10%nat.
Proof.
  exact (chain_runs_ten_steps env_endless me key q1 [] eq_refl env_endless_next).
Defined.

(** A browser that is down: one step, three attempts. *)
Lemma chain_when_browser_down_witness :
  exists msg,
    solve_quiz_chain env_down me key q1 [] =
    (Ok ({| current_url := q1; quiz_count := 1 |}, ErrorCaught),
     [] ++ [EvLog (LogStart me); EvLog (LogQuiz 1 q1);
            EvGoto q1; EvSleep 5; EvGoto q1; EvSleep 5; EvGoto q1;
            EvLog (LogError 1 msg); EvLog (LogCompleted 1)]) /\
    exists tr0, page_goto env_down tr0 q1 = Raise msg.
Proof.
  exact (chain_when_browser_down env_down me key q1 [] eq_refl env_down_is_down).
Defined.

(** The URL of [quiz_page], found by the second pattern. *)
Lemma pattern_url_mentions_submit_witness :
  search true re_submit_url quiz_page <> None /\
  exists u,
    submit_url {| submit_url := Some submit_here; question := quiz_page |} = Some u /\
    occurs true "/submit" u = true.
Proof.
  assert (Found : search true re_submit_url quiz_page <> None).
  { vm_compute. discriminate. }
  split; [exact Found|].
  apply (pattern_url_mentions_submit env_done quiz_page []
           {| submit_url := Some submit_here; question := quiz_page |} []).
  - right. exact Found.
  - vm_compute. reflexivity.
Defined.

(** On a page without a URL and with a model that is down, the
    hardcoded endpoint: an https URL. *)
Lemma analyzer_url_is_https_witness :
  exists u,
    submit_url {| submit_url := Some default_submit_url; question := plain_page |} =
    Some u /\
    prefix_eq true "https://" u = true.
Proof.
  apply (analyzer_url_is_https env_plain plain_page []
           {| submit_url := Some default_submit_url; question := plain_page |}
           [EvGenerate (analyze_prompt plain_page)]).
  - vm_compute. reflexivity.
  - vm_compute. reflexivity.
Defined.

(** Of the two URLs of [submit_host_page] the last resort takes the
    second, which mentions submit in capitals; so does the analyzer when
    the model is down. *)
Lemma fallback_order_witness :
  findall false re_https_url submit_host_page =
  ["https://quiz.example/help"; "https://SUBMIT.quiz.example/form"]%string /\
  fallback_submit_url submit_host_page = Some "https://SUBMIT.quiz.example/form"%string /\
  fst (analyze_quiz_page (env_page submit_host_page) submit_host_page []) =
  Ok {| submit_url := Some "https://SUBMIT.quiz.example/form"%string;
        question := submit_host_page |}.
Proof.
  assert (Urls : findall false re_https_url submit_host_page =
                 ["https://quiz.example/help";
                  "https://SUBMIT.quiz.example/form"]%string).
  { vm_compute. reflexivity. }
  split; [exact Urls|]. split; [|vm_compute; reflexivity].
  destruct (fallback_order submit_host_page) as (u & F & First & _).
  rewrite F. f_equal.
  apply (First ["https://quiz.example/help"%string]
               "https://SUBMIT.quiz.example/form"%string []).
  - exact Urls.
  - reflexivity.
  - constructor; [reflexivity | constructor].
Defined.

(** The model's answer 42 is typed as an integer. *)
Lemma answer_is_scalar_witness :
  solve_question env_done (take 500 quiz_page) quiz_page "<html></html>" q1 [] =
  (Ok (VInt 42), [EvGenerate (answer_prompt quiz_page (take 500 quiz_page))]) /\
  scalar (VInt 42) = true.
Proof.
  assert (Run : solve_question env_done (take 500 quiz_page) quiz_page
                  "<html></html>" q1 [] =
                (Ok (VInt 42),
                 [EvGenerate (answer_prompt quiz_page (take 500 quiz_page))])).
  { vm_compute. reflexivity. }
  split; [exact Run|].
  exact (answer_is_scalar env_done _ _ _ _ _ _ _ Run).
Defined.

(** The file of [csv_only_page] cannot be loaded: the model answers. *)
Lemma csv_failure_falls_back_witness :
  solve_question env_no_file (take 500 csv_only_page) csv_only_page "<html></html>" q1 [] =
  gemini_answer env_no_file (take 500 csv_only_page) csv_only_page
                ([] ++ [EvReadCsv "https://quiz.example/data.csv"]).
Proof.
  apply (csv_failure_falls_back env_no_file (take 500 csv_only_page) csv_only_page
           "<html></html>" q1 [] "https://quiz.example/data.csv").
  - vm_compute. reflexivity.
  - vm_compute. reflexivity.
  - reflexivity.
  - exact I.
Defined.

(** A page that links no file. *)
Lemma no_csv_link_asks_model_witness :
  solve_question env_plain plain_page plain_page "<html></html>" q1 [] =
  gemini_answer env_plain plain_page plain_page [].
Proof.
  apply (no_csv_link_asks_model env_plain plain_page plain_page "<html></html>" q1 []).
  - vm_compute. reflexivity.
  - vm_compute. reflexivity.
Defined.

(** A link in an href attribute, in parentheses inside the quotes. *)
Lemma csv_url_has_extension_witness :
  find_csv_url csv_patterns "<a href='(data.CSV'>the data</a>" = Some "data.CSV" /\
  ends_with_ci ".csv" "data.CSV" /\ nonempty "data.CSV" = true /\
  occurs true ".csv" "<a href='(data.CSV'>the data</a>" = true.
Proof.
  assert (F : find_csv_url csv_patterns "<a href='(data.CSV'>the data</a>" =
              Some "data.CSV"%string).
  { vm_compute. reflexivity. }
  split; [exact F|].
  exact (csv_url_has_extension _ _ F).
Defined.

(** The table of the scenario with the cutoff labelled: 37.  On the
    column that adds up to 2^63 the property does not apply, and the sum
    returned is negative. *)
Lemma tabular_answer_not_negative_witness :
  (csv_try (env_csv cutoff_label_page) "https://quiz.example/data.csv"
           (cutoff_label_page ++ " " ++ "<html></html>") [] =
   (Ok (Some 37%Z), [EvReadCsv "https://quiz.example/data.csv"]) /\
   (0 <= 37)%Z) /\
  csv_try (env_table (cutoff_page "0") big_frame) "https://quiz.example/data.csv"
          (cutoff_page "0" ++ " " ++ "<html></html>") [] =
  (Ok (Some (-9223372036854775808)%Z), [EvReadCsv "https://quiz.example/data.csv"]).
Proof.
  split; [|vm_compute; reflexivity].
  assert (Run : csv_try (env_csv cutoff_label_page) "https://quiz.example/data.csv"
                        (cutoff_label_page ++ " " ++ "<html></html>") [] =
                (Ok (Some 37%Z), [EvReadCsv "https://quiz.example/data.csv"])).
  { vm_compute. reflexivity. }
  split; [exact Run|].
  apply (tabular_answer_not_negative (env_csv cutoff_label_page)
           "https://quiz.example/data.csv"
           (cutoff_label_page ++ " " ++ "<html></html>") []
           [IntColumn [1; 15; 22; 3]%Z] (IntColumn [1; 15; 22; 3]%Z) 37
           [EvReadCsv "https://quiz.example/data.csv"]).
  - reflexivity.
  - split; [reflexivity|]. exists [], []. reflexivity.
  - vm_compute. reflexivity.
  - exact Run.
Defined.

Lemma env_done_works : browser_works env_done /\ urljoin_works env_done.
Proof.
  split.
  - intros tr u. split; [reflexivity|]. eexists. reflexivity.
  - intros base ref. eexists. reflexivity.
Defined.

(** With the pages and the endpoint of [env_done] the step on the
    first quiz returns. *)
Lemma step_never_raises_witness :
  browser_works env_done /\ urljoin_works env_done /\
  exists result tr', solve_single_quiz env_done me key q1 [] = (Ok result, tr').
Proof.
  destruct env_done_works as [Works Join].
  split; [exact Works|]. split; [exact Join|].
  exact (proj1 (step_never_raises env_done me key Works Join) q1 []).
Defined.

(** A request with the configured secret, one with another secret, and
    one when no secret is configured. *)
Lemma solve_quiz_checks_secret_witness :
  Service.solve_quiz (Some key)
    {| Service.email := me; Service.secret := key; Service.url := submit_here |} =
  (Service.JSONResponse 200 (VDict [("status", VStr "accepted");
                                    ("message", VStr "Quiz is being processed")]),
   [(me, key, submit_here)]) /\
  Service.solve_quiz (Some key)
    {| Service.email := me; Service.secret := "guess"; Service.url := submit_here |} =
  (Service.HTTPException 403 "Invalid secret", []) /\
  snd (Service.solve_quiz None
         {| Service.email := me; Service.secret := key; Service.url := submit_here |}) = [].
Proof.
  split; [|split].
  - apply (proj1 (ServiceFacts.solve_quiz_checks_secret (Some key)
             {| Service.email := me; Service.secret := key;
                Service.url := submit_here |})).
    reflexivity.
  - apply (proj1 (proj2 (ServiceFacts.solve_quiz_checks_secret (Some key)
             {| Service.email := me; Service.secret := "guess";
                Service.url := submit_here |}))).
    discriminate.
  - apply (proj2 (proj2 (ServiceFacts.solve_quiz_checks_secret None
             {| Service.email := me; Service.secret := key;
                Service.url := submit_here |}))).
    reflexivity.
Defined.

End MoreScenarios.
